(** * ctapipe_io_lst: the sub-stream merger and the event time calculator

    A shallow embedding of [ctapipe_io_lst/multifiles.py] (class
    [MultiFiles]), [ctapipe_io_lst/event_time.py] (class
    [EventTimeCalculator]) and of [parse_tib_10MHz_counter] from
    [ctapipe_io_lst/anyarray_dtypes.py], followed by the properties of the
    design document that are stated about them.

    Conventions of the embedding:
    - Python integers are [Z]; a Python [float] is a binary64 number, taken
      from the specification of IEEE 754 arithmetic in [SpecFloat] (53 bits
      of precision, round to nearest even, one NaN);
    - the counters of an event are read as integers: the sums and products
      the code forms of them stay inside [int64], where numpy computes them
      for fixed-width fields;
    - a Python [dict] whose iteration order the code relies on is an
      association list kept in insertion order; the dictionaries indexed by
      telescope id are [gmap Z _];
    - a field of a container that [containers.py] declares with the default
      [None] is an [option], and reading [None] where the code needs a value
      is the [TypeError] Python raises;
    - a method that mutates [self] or its argument takes the old values and
      returns the new ones; an exception is a value of [exn], and the state
      reached when it is raised is returned with it. *)

From Stdlib Require Import ZArith Lia Bool List Floats.SpecFloat.
From stdpp Require Import gmap strings list sorting.

Local Open Scope Z_scope.

(** ** Python exceptions *)

Inductive exn : Type :=
| StopIteration
| IndexError
| KeyError
| TypeError
| OverflowError
| ValueError (msg : string)
| IOError (msg : string).

(** ** Python floats *)

Module PyFloat.

Definition float : Type := spec_float.

Definition prec : Z := 53.
Definition emax : Z := 1024.

Definition nan : float := S754_nan.

(** [np.isfinite(x)]: neither NaN nor an infinity. *)
Definition isfinite (x : float) : bool :=
  match x with
  | S754_zero _ | S754_finite _ _ _ => true
  | S754_infinity _ | S754_nan => false
  end.

Definition add : float -> float -> float := SFadd prec emax.
Definition sub : float -> float -> float := SFsub prec emax.
Definition mul : float -> float -> float := SFmul prec emax.

(** [x > y]; every comparison with NaN is false. *)
Definition gt (x y : float) : bool := SFltb y x.

(** The nearest binary64 number to an integer. *)
Definition round_int (n : Z) : float := binary_normalize prec emax n 0 false.

(** The literals of the source: [1e-9], [1e-7], [1e-6], [1e9] and [1e6], each the
    binary64 number nearest to the decimal. *)
Definition lit_1e_9 : float := S754_finite false 4835703278458517 (-82).
Definition lit_1e_7 : float := S754_finite false 7555786372591432 (-76).
Definition lit_1e_6 : float := S754_finite false 4722366482869645 (-72).
Definition lit_1e9 : float := S754_finite false 8388608000000000 (-23).
Definition lit_1e6 : float := S754_finite false 8589934592000000 (-33).

(** [float(n)] for a Python integer, as the mixed operations [n * 1e-9] and
    [x + n] apply it: the nearest binary64 number, and [OverflowError]
    ("int too large to convert to float") when rounding leaves the finite
    range, which is from [2^1024 - 2^970] on. *)
Definition float_of_int (n : Z) : exn + float :=
  if Z.abs n <? 2 ^ 1024 - 2 ^ 970 then inr (round_int n)
  else inl OverflowError.

(** [int(x)]: truncation towards zero; [int(nan)] raises [ValueError] and
    [int(inf)] raises [OverflowError]. *)
Definition int_of_float (x : float) : exn + Z :=
  match x with
  | S754_nan => inl (ValueError "cannot convert float NaN to integer")
  | S754_infinity _ => inl OverflowError
  | S754_zero _ => inr 0
  | S754_finite s m e => inr (cond_Zopp s (Z.shiftl (Z.pos m) e))
  end.

End PyFloat.

(** ** anyarray_dtypes.py *)

Module AnyarrayDtypes.

(** The TIB 10 MHz counter arrives as [('tenMHz_counter', (np.uint8, 3))]:
    three unsigned bytes. *)
Definition uint8 (b : Z) : Prop := 0 <= b < 256.

(** An operation between a [np.uint8] scalar and a Python integer, and
    between its results, is carried out in [int64]: the value is reduced
    into [-2^63 .. 2^63 - 1]. *)
Definition int64_wrap (n : Z) : Z := (n + 2 ^ 63) mod 2 ^ 64 - 2 ^ 63.

Definition int64_add (a b : Z) : Z := int64_wrap (a + b).
Definition int64_shl (a n : Z) : Z := int64_wrap (Z.shiftl a n).

(** [def parse_tib_10MHz_counter(counter):
       return counter[0] + (counter[1] << 8) + (counter[2] << 16)]
    on the three elements of [counter]. *)
Definition parse_tib_10MHz_counter (counter0 counter1 counter2 : Z) : Z :=
  int64_add (int64_add counter0 (int64_shl counter1 8)) (int64_shl counter2 16).

End AnyarrayDtypes.

(** ** Python dictionaries in insertion order *)

Section Dict.
Context {K V : Type} `{EqDecision K}.

Definition dict : Type := list (K * V).

(** [d[k]], [None] standing for [KeyError]. *)
Fixpoint dict_get (k : K) (d : dict) : option V :=
  match d with
  | [] => None
  | (k', v) :: d' => if decide (k = k') then Some v else dict_get k d'
  end.

(** [d[k] = v]: an existing key keeps its place, a new key goes last. *)
Fixpoint dict_set (k : K) (v : V) (d : dict) : dict :=
  match d with
  | [] => [(k, v)]
  | (k', v') :: d' =>
      if decide (k = k') then (k, v) :: d' else (k', v') :: dict_set k v d'
  end.

(** [del d[k]] for a key that is present. *)
Fixpoint dict_del (k : K) (d : dict) : dict :=
  match d with
  | [] => []
  | (k', v') :: d' =>
      if decide (k = k') then d' else (k', v') :: dict_del k d'
  end.

Definition dict_keys (d : dict) : list K := map fst d.
Definition dict_values (d : dict) : list V := map snd d.

End Dict.

Arguments dict : clear implicits.

(** [min(first, *rest, key=key)]: the first of the smallest elements. *)
Fixpoint py_min {A : Type} (key : A -> Z) (best : A) (rest : list A) : A :=
  match rest with
  | [] => best
  | x :: rest' =>
      if key x <? key best then py_min key x rest' else py_min key best rest'
  end.

(** ** multifiles.py *)

Module MultiFiles.

(** A record of the [Events] table and the record of the [CameraConfig]
    table, as far as the merger looks into them. *)
Record Event : Type := { event_id : Z; payload : Z }.
Record CameraConfig : Type := { configuration_id : Z }.

(** A table of an open protozfits file: its rows and the position of the
    sequential reader. *)
Record Table (A : Type) : Type := { rows : list A; cursor : nat }.
Arguments rows {A} _.
Arguments cursor {A} _.

(** [next(table)]; [None] stands for [StopIteration]. *)
Definition Table_next {A : Type} (t : Table A) : option (A * Table A) :=
  match rows t !! cursor t with
  | Some r => Some (r, {| rows := rows t; cursor := S (cursor t) |})
  | None => None
  end.

(** [table.protobuf_i_fits.rewind()]: the reader goes back to the first
    row of the table. *)
Definition Table_rewind {A : Type} (t : Table A) : Table A :=
  {| rows := rows t; cursor := 0 |}.

(** An open file; [CameraConfig] is [None] when the file has no such
    table ([hasattr(file, 'CameraConfig')] is false). *)
Record File : Type := {
  Events : Table Event;
  CameraConfig_ : option (Table CameraConfig)
}.

(** What is stored under a path, and [File(str(path))] opening it. *)
Record FileData : Type := {
  events_data : list Event;
  camera_config_data : option (list CameraConfig)
}.

Definition File_open (data : FileData) : File :=
  {| Events := {| rows := events_data data; cursor := 0 |};
     CameraConfig_ :=
       (fun rs => {| rows := rs; cursor := 0 |}) <$> camera_config_data data |}.

Definition set_Events (f : File) (t : Table Event) : File :=
  {| Events := t; CameraConfig_ := CameraConfig_ f |}.

(** The dictionaries of the object; [_events_table[path]] is the same
    table object as [_file[path].Events] and is read through [_file]. *)
Record tables : Type := {
  _file : dict string File;
  _events : dict string Event;
  _camera_config : dict string CameraConfig
}.

Record MultiFiles : Type := {
  self_tables :> tables;
  camera_config : CameraConfig
}.

Definition with_file (s : tables) (d : dict string File) : tables :=
  {| _file := d; _events := _events s; _camera_config := _camera_config s |}.
Definition with_events (s : tables) (d : dict string Event) : tables :=
  {| _file := _file s; _events := d; _camera_config := _camera_config s |}.
Definition with_camera_config (s : tables) (d : dict string CameraConfig) : tables :=
  {| _file := _file s; _events := _events s; _camera_config := d |}.

(** The body of [for path in paths:] in [__init__]. A [StopIteration]
    raised by either [next] leaves the [try] block at once. *)
Definition load_path (fs : string -> FileData) (s : tables) (path : string) : tables :=
  let f := File_open (fs path) in
  let s := with_file s (dict_set path f (_file s)) in
  match Table_next (Events f) with
  | None => s
  | Some (e, t) =>
      let f := set_Events f t in
      let s := with_file s (dict_set path f (_file s)) in
      let s := with_events s (dict_set path e (_events s)) in
      match CameraConfig_ f with
      | None => s
      | Some ct =>
          match Table_next ct with
          | None => s
          | Some (c, ct') =>
              let f := {| Events := Events f; CameraConfig_ := Some ct' |} in
              let s := with_file s (dict_set path f (_file s)) in
              with_camera_config s (dict_set path c (_camera_config s))
          end
      end
  end.

Definition no_tables : tables :=
  {| _file := []; _events := []; _camera_config := [] |}.

(** [MultiFiles.__init__(self, paths)] over the files [fs]. The entry in the
    provenance is left out, and so is the list of paths the message of the
    [IOError] ends with. *)
Definition __init__ (fs : string -> FileData) (paths : list string) : exn + MultiFiles :=
  if (length paths =? 0)%nat then inl (ValueError "`paths` must not be empty")
  else
    let s := fold_left (load_path fs) paths no_tables in
    match dict_values (_camera_config s) with
    | [] => inl (IOError "No CameraConfig was found in any of the input files")
    | c :: _ => inr {| self_tables := s; camera_config := c |}
    end.

Definition update (self : MultiFiles) (s : tables) : MultiFiles :=
  {| self_tables := s; camera_config := camera_config self |}.

(** [MultiFiles.next_event(self)]. *)
Definition next_event (self : MultiFiles) : (exn + Event) * MultiFiles :=
  match _events self with
  | [] => (inl StopIteration, self)
  | item :: items =>
      let min_path := fst (py_min (fun it => event_id (snd it)) item items) in
      match dict_get min_path (_events self) with
      | None => (inl KeyError, self)
      | Some next_event =>
          match dict_get min_path (_file self) with
          | None => (inl KeyError, self)
          | Some f =>
              match Table_next (Events f) with
              | Some (e, t) =>
                  let s := with_file self (dict_set min_path (set_Events f t) (_file self)) in
                  let s := with_events s (dict_set min_path e (_events s)) in
                  (inr next_event, update self s)
              | None =>
                  let s := with_events self (dict_del min_path (_events self)) in
                  (inr next_event, update self s)
              end
          end
      end
  end.

(** [MultiFiles.__len__(self)]. *)
Definition __len__ (self : MultiFiles) : nat :=
  foldr (fun f n => (length (rows (Events f)) + n)%nat) 0%nat (dict_values (_file self)).

(** [MultiFiles.rewind(self)]. *)
Definition rewind (self : MultiFiles) : MultiFiles :=
  update self
    (with_file self
       (map (fun kf => (fst kf, set_Events (snd kf) (Table_rewind (Events (snd kf)))))
            (_file self))).

(** [MultiFiles.num_inputs(self)]. *)
Definition num_inputs (self : MultiFiles) : nat := length (_file self).

(** [for event in multi_files: ...]: the events handed out until
    [StopIteration], with the object as the loop leaves it; at most [fuel]
    events are taken. *)
Fixpoint consume (fuel : nat) (self : MultiFiles) : list Event * MultiFiles :=
  match fuel with
  | O => ([], self)
  | S fuel' =>
      match next_event self with
      | (inr e, self') =>
          let (es, self'') := consume fuel' self' in (e :: es, self'')
      | (inl _, self') => ([], self')
      end
  end.

(** The rows a file has not handed out yet. *)
Definition unread (f : File) : list Event := drop (cursor (Events f)) (rows (Events f)).

(** The unread rows of the file open under a path. *)
Definition unread_of (files : dict string File) (path : string) : list Event :=
  match dict_get path files with
  | Some f => unread f
  | None => []
  end.

(** One for every buffered event and one for every unread row behind it. *)
Fixpoint weight (files : dict string File) (events : dict string Event) : nat :=
  match events with
  | [] => 0%nat
  | (path, _) :: events' => S (length (unread_of files path) + weight files events')
  end.

(** The number of events the object can still hand out: the buffered ones
    and the unread rows behind them. *)
Definition pending (self : tables) : nat := weight (_file self) (_events self).

(** The dictionaries are those of one object: no key twice, and every
    buffered event belongs to an open file. *)
Definition coherent (self : tables) : Prop :=
  NoDup (dict_keys (_events self)) /\
  forall p, p ∈ dict_keys (_events self) -> is_Some (dict_get p (_file self)).

(** Non-decreasing event ids. *)
Definition ascending (es : list Event) : Prop :=
  forall i j e e', (i <= j)%nat -> es !! i = Some e -> es !! j = Some e' ->
                   event_id e <= event_id e'.

(** Every buffered event is followed, in its file, by the unread rows in
    ascending order. *)
Definition buffered_in_order (self : tables) : Prop :=
  forall p e, dict_get p (_events self) = Some e ->
              exists f, dict_get p (_file self) = Some f /\ ascending (e :: unread f).

(** No buffered event has an id below [bound]. *)
Definition bounded_below (bound : Z) (self : tables) : Prop :=
  forall p e, dict_get p (_events self) = Some e -> bound <= event_id e.

(** Three substreams that share the events 1 to 9 in turn, and a fourth
    path under which there is a file with no event. *)
Definition ev (i : Z) : Event := {| event_id := i; payload := 0 |}.

Definition three_streams (path : string) : FileData :=
  if String.eqb path "stream1" then
    {| events_data := [ev 1; ev 4; ev 7];
       camera_config_data := Some [{| configuration_id := 1 |}] |}
  else if String.eqb path "stream2" then
    {| events_data := [ev 2; ev 5; ev 8];
       camera_config_data := Some [{| configuration_id := 2 |}] |}
  else if String.eqb path "stream3" then
    {| events_data := [ev 3; ev 6; ev 9];
       camera_config_data := Some [{| configuration_id := 3 |}] |}
  else
    {| events_data := []; camera_config_data := Some [{| configuration_id := 4 |}] |}.

(** [list(multi_files)], [multi_files.rewind()], [list(multi_files)]: the
    event ids of the two passes. *)
Definition two_passes (fuel : nat) (self : MultiFiles) : list Z * list Z :=
  let (first, self) := consume fuel self in
  let self := rewind self in
  let (second, _) := consume fuel self in
  (event_id <$> first, event_id <$> second).

(** The configuration record [__init__] reads from a file: the first row of
    its [CameraConfig] table, which is read after the first event only. *)
Definition first_config (data : FileData) : option CameraConfig :=
  match events_data data with
  | [] => None
  | _ :: _ =>
      match camera_config_data data with
      | Some (c :: _) => Some c
      | _ => None
      end
  end.

(** The record of the first of [paths] that gives one. *)
Fixpoint first_config_of (fs : string -> FileData) (paths : list string) : option CameraConfig :=
  match paths with
  | [] => None
  | path :: paths' =>
      match first_config (fs path) with
      | Some c => Some c
      | None => first_config_of fs paths'
      end
  end.

(** Every record in [_camera_config] is the one its file gives. *)
Definition configs_from (fs : string -> FileData) (s : tables) : Prop :=
  forall p c, (p, c) ∈ _camera_config s -> first_config (fs p) = Some c.

(** The states of an object built as [mf], after any number of calls of
    [next_event]. *)
Inductive served (mf : MultiFiles) : MultiFiles -> Prop :=
| served_first : served mf mf
| served_next s r s' : served mf s -> next_event s = (r, s') -> served mf s'.

(** The keys of a dictionary to which the paths are assigned one after the
    other, as the loop of [__init__] does: every path once, at the place
    where it was given first. *)
Definition add_key (keys : list string) (path : string) : list string :=
  if decide (path ∈ keys) then keys else keys ++ [path].

Definition distinct (paths : list string) : list string := fold_left add_key paths [].

(** The events stored under the paths, file after file. *)
Definition all_events (fs : string -> FileData) (paths : list string) : list Event :=
  concat (map (fun p => events_data (fs p)) (distinct paths)).

(** What the object has still to hand out of the file under a path: the
    buffered event and the unread rows behind it. *)
Definition stream (self : tables) (path : string) : list Event :=
  match dict_get path (_events self) with
  | Some e => e :: unread_of (_file self) path
  | None => []
  end.

(** All the events the object has still to hand out. *)
Definition remaining (self : tables) : list Event :=
  concat (map (stream self) (dict_keys (_events self))).

(** The paths of the open files with the rows of their [Events] tables,
    read or not. *)
Definition contents (self : tables) : dict string (list Event) :=
  map (fun kf => (fst kf, rows (Events (snd kf)))) (_file self).

(** The states of an object built as [mf], after any number of calls of
    [next_event] and [rewind]. *)
Inductive used (mf : MultiFiles) : MultiFiles -> Prop :=
| used_first : used mf mf
| used_next s r s' : used mf s -> next_event s = (r, s') -> used mf s'
| used_rewind s : used mf s -> used mf (rewind s).

(** Two files whose events are not in the order of their ids; the second
    has no [CameraConfig] table. *)
Definition shuffled_streams (path : string) : FileData :=
  if String.eqb path "a" then
    {| events_data := [ev 5; ev 1; ev 9];
       camera_config_data := Some [{| configuration_id := 1 |}] |}
  else if String.eqb path "b" then
    {| events_data := [ev 3; ev 2]; camera_config_data := None |}
  else {| events_data := []; camera_config_data := None |}.

End MultiFiles.

(** ** A state and exception monad for the methods that mutate and raise *)

Section Monad.
Context {S : Type}.

(** A computation from a state to a result or an exception, and the state
    it leaves. *)
Definition M (A : Type) : Type := S -> (exn + A) * S.

Definition ret {A : Type} (a : A) : M A := fun w => (inr a, w).
Definition raise {A : Type} (e : exn) : M A := fun w => (inl e, w).

Definition bind {A B : Type} (c : M A) (k : A -> M B) : M B :=
  fun w =>
    match c w with
    | (inr a, w') => k a w'
    | (inl e, w') => (inl e, w')
    end.

Definition get : M S := fun w => (inr w, w).
Definition modify (f : S -> S) : M unit := fun w => (inr tt, f w).

(** A value that is there or whose absence raises [e]. *)
Definition from_option {A : Type} (e : exn) (o : option A) : M A :=
  match o with
  | Some a => ret a
  | None => raise e
  end.

Definition from_sum {A : Type} (r : exn + A) : M A :=
  match r with
  | inr a => ret a
  | inl e => raise e
  end.

Definition when (b : bool) (c : M unit) : M unit := if b then c else ret tt.

End Monad.

Arguments M : clear implicits.

Notation "x <- c ;; k" := (bind c (fun x => k))
  (at level 100, c at next level, right associativity).
Notation "c ;;; k" := (bind c (fun _ => k))
  (at level 100, right associativity).

(** ** containers.py and event_time.py *)

Module EventTime.
Import PyFloat.

Definition CENTRAL_MODULE : Z := 132.

(** *** The containers, as far as the calculator reads and writes them *)

Record LSTServiceContainer : Type := { module_ids : list Z }.

(** Of the fields the calculator reads, [containers.py] declares
    [extdevices_presence], [pps_counter] and [tenMHz_counter] with the
    default [None]: they hold a value once the source has filled them. The
    other fields have integer defaults. *)
Record LSTEventContainer : Type := {
  extdevices_presence : option Z;
  tib_pps_counter : Z;
  tib_tenMHz_counter : Z;
  tib_masked_trigger : Z;
  ucts_timestamp : Z;
  ucts_trigger_type : Z;
  pps_counter : option (list Z);
  tenMHz_counter : option (list Z)
}.

Record LSTCameraContainer : Type := {
  evt : LSTEventContainer;
  svc : LSTServiceContainer
}.

(** [event.index]. *)
Record EventIndex : Type := { obs_id : Z; event_id : Z }.

Definition set_ucts_timestamp (l : LSTCameraContainer) (v : Z) : LSTCameraContainer :=
  {| evt := {| extdevices_presence := extdevices_presence (evt l);
               tib_pps_counter := tib_pps_counter (evt l);
               tib_tenMHz_counter := tib_tenMHz_counter (evt l);
               tib_masked_trigger := tib_masked_trigger (evt l);
               ucts_timestamp := v;
               ucts_trigger_type := ucts_trigger_type (evt l);
               pps_counter := pps_counter (evt l);
               tenMHz_counter := tenMHz_counter (evt l) |};
     svc := svc l |}.

Definition set_ucts_trigger_type (l : LSTCameraContainer) (v : Z) : LSTCameraContainer :=
  {| evt := {| extdevices_presence := extdevices_presence (evt l);
               tib_pps_counter := tib_pps_counter (evt l);
               tib_tenMHz_counter := tib_tenMHz_counter (evt l);
               tib_masked_trigger := tib_masked_trigger (evt l);
               ucts_timestamp := ucts_timestamp (evt l);
               ucts_trigger_type := v;
               pps_counter := pps_counter (evt l);
               tenMHz_counter := tenMHz_counter (evt l) |};
     svc := svc l |}.

(** *** Times and log records *)

(** An astropy [Time]: the constant [NAN_TIME] of ctapipe, or a time of
    format [unix_tai] with its value. *)
Inductive Time : Type :=
| NAN_TIME
| Time_unix_tai (val : float).

(** [Time(val, format='unix_tai')] on a Python float: astropy takes finite
    values only and raises [ValueError] for NaN and for an infinity (the
    message goes on with the reason, "must be finite doubles"). *)
Definition Time_of_unix_tai (val : float) : exn + Time :=
  if isfinite val then inr (Time_unix_tai val)
  else inl (ValueError "Input values did not match the format class unix_tai").

Inductive level : Type := DEBUG | WARNING | CRITICAL.

(** The messages of the calculator, with the values they format. *)
Inductive message : Type :=
| msg_first_event_as_reference
| msg_ucts_unavailable (obs_id event_id tel_id : Z)
| msg_dragon_reference (ucts_timestamp dragon_counter : Z)
| msg_tib_reference (ucts_timestamp tib_counter : Z)
| msg_ucts_jump (event_id : Z) (dragon_time delta_us : float)
| msg_no_tib_trigger
| msg_times (tib dragon ucts : float).

Definition log_record : Type := level * message.

(** *** The calculator *)

(** The configuration traits. A [TelescopeParameter] is read per telescope,
    [self.timestamp.tel[tel_id]]. *)
Record traits : Type := {
  timestamp : Z -> string;
  ucts_t0_dragon : Z -> option Z;
  dragon_counter0 : Z -> option Z;
  ucts_t0_tib : Z -> option Z;
  tib_counter0 : Z -> option Z;
  dragon_module_id : Z -> Z;
  use_first_event : bool
}.

(** [self.timestamp == s], the whole parameter against a [str], as lines
    196, 197 and 250 write it (line 358 reads [self.timestamp.tel[tel_id]]):
    the value of a [TelescopeParameter] is the list of its patterns, which
    carries the lookup [.tel], and a list never equals a string. *)
Definition TelescopeParameter_eq_str (p : Z -> string) (s : string) : bool := false.

Record EventTimeCalculator : Type := {
  subarray_tel : list Z;
  trait : traits;
  previous_ucts_timestamps : gmap Z (list Z);
  previous_ucts_trigger_types : gmap Z (list Z);
  _has_tib_reference : gmap Z bool;
  _has_dragon_reference : gmap Z bool;
  _ucts_t0_dragon : gmap Z (option Z);
  _dragon_counter0 : gmap Z (option Z);
  _ucts_t0_tib : gmap Z (option Z);
  _tib_counter0 : gmap Z (option Z)
}.

Definition set_previous_ucts_timestamps (v : gmap Z (list Z)) (s : EventTimeCalculator) :=
  {| subarray_tel := subarray_tel s; trait := trait s;
     previous_ucts_timestamps := v;
     previous_ucts_trigger_types := previous_ucts_trigger_types s;
     _has_tib_reference := _has_tib_reference s;
     _has_dragon_reference := _has_dragon_reference s;
     _ucts_t0_dragon := _ucts_t0_dragon s; _dragon_counter0 := _dragon_counter0 s;
     _ucts_t0_tib := _ucts_t0_tib s; _tib_counter0 := _tib_counter0 s |}.

Definition set_previous_ucts_trigger_types (v : gmap Z (list Z)) (s : EventTimeCalculator) :=
  {| subarray_tel := subarray_tel s; trait := trait s;
     previous_ucts_timestamps := previous_ucts_timestamps s;
     previous_ucts_trigger_types := v;
     _has_tib_reference := _has_tib_reference s;
     _has_dragon_reference := _has_dragon_reference s;
     _ucts_t0_dragon := _ucts_t0_dragon s; _dragon_counter0 := _dragon_counter0 s;
     _ucts_t0_tib := _ucts_t0_tib s; _tib_counter0 := _tib_counter0 s |}.

Definition set_has_tib_reference (v : gmap Z bool) (s : EventTimeCalculator) :=
  {| subarray_tel := subarray_tel s; trait := trait s;
     previous_ucts_timestamps := previous_ucts_timestamps s;
     previous_ucts_trigger_types := previous_ucts_trigger_types s;
     _has_tib_reference := v;
     _has_dragon_reference := _has_dragon_reference s;
     _ucts_t0_dragon := _ucts_t0_dragon s; _dragon_counter0 := _dragon_counter0 s;
     _ucts_t0_tib := _ucts_t0_tib s; _tib_counter0 := _tib_counter0 s |}.

Definition set_has_dragon_reference (v : gmap Z bool) (s : EventTimeCalculator) :=
  {| subarray_tel := subarray_tel s; trait := trait s;
     previous_ucts_timestamps := previous_ucts_timestamps s;
     previous_ucts_trigger_types := previous_ucts_trigger_types s;
     _has_tib_reference := _has_tib_reference s;
     _has_dragon_reference := v;
     _ucts_t0_dragon := _ucts_t0_dragon s; _dragon_counter0 := _dragon_counter0 s;
     _ucts_t0_tib := _ucts_t0_tib s; _tib_counter0 := _tib_counter0 s |}.

Definition set_ucts_t0_dragon (v : gmap Z (option Z)) (s : EventTimeCalculator) :=
  {| subarray_tel := subarray_tel s; trait := trait s;
     previous_ucts_timestamps := previous_ucts_timestamps s;
     previous_ucts_trigger_types := previous_ucts_trigger_types s;
     _has_tib_reference := _has_tib_reference s;
     _has_dragon_reference := _has_dragon_reference s;
     _ucts_t0_dragon := v; _dragon_counter0 := _dragon_counter0 s;
     _ucts_t0_tib := _ucts_t0_tib s; _tib_counter0 := _tib_counter0 s |}.

Definition set_dragon_counter0 (v : gmap Z (option Z)) (s : EventTimeCalculator) :=
  {| subarray_tel := subarray_tel s; trait := trait s;
     previous_ucts_timestamps := previous_ucts_timestamps s;
     previous_ucts_trigger_types := previous_ucts_trigger_types s;
     _has_tib_reference := _has_tib_reference s;
     _has_dragon_reference := _has_dragon_reference s;
     _ucts_t0_dragon := _ucts_t0_dragon s; _dragon_counter0 := v;
     _ucts_t0_tib := _ucts_t0_tib s; _tib_counter0 := _tib_counter0 s |}.

Definition set_ucts_t0_tib (v : gmap Z (option Z)) (s : EventTimeCalculator) :=
  {| subarray_tel := subarray_tel s; trait := trait s;
     previous_ucts_timestamps := previous_ucts_timestamps s;
     previous_ucts_trigger_types := previous_ucts_trigger_types s;
     _has_tib_reference := _has_tib_reference s;
     _has_dragon_reference := _has_dragon_reference s;
     _ucts_t0_dragon := _ucts_t0_dragon s; _dragon_counter0 := _dragon_counter0 s;
     _ucts_t0_tib := v; _tib_counter0 := _tib_counter0 s |}.

Definition set_tib_counter0 (v : gmap Z (option Z)) (s : EventTimeCalculator) :=
  {| subarray_tel := subarray_tel s; trait := trait s;
     previous_ucts_timestamps := previous_ucts_timestamps s;
     previous_ucts_trigger_types := previous_ucts_trigger_types s;
     _has_tib_reference := _has_tib_reference s;
     _has_dragon_reference := _has_dragon_reference s;
     _ucts_t0_dragon := _ucts_t0_dragon s; _dragon_counter0 := _dragon_counter0 s;
     _ucts_t0_tib := _ucts_t0_tib s; _tib_counter0 := v |}.

(** [d[tel_id]] of a [defaultdict(deque)]: an absent key reads as the
    empty deque. *)
Definition deque_of (d : gmap Z (list Z)) (tel_id : Z) : list Z :=
  default [] (d !! tel_id).

Definition is_not_None {A : Type} (o : option A) : bool :=
  match o with Some _ => true | None => false end.

(** [for x in xs: body(x)]. *)
Fixpoint for_each {S A : Type} (body : A -> M S unit) (xs : list A) : M S unit :=
  match xs with
  | [] => ret tt
  | x :: xs' => body x ;;; for_each body xs'
  end.

(** **** [EventTimeCalculator.__init__] *)

(** The object under construction and the records logged so far. *)
Definition init_state : Type := EventTimeCalculator * list log_record.

Definition init_update (f : EventTimeCalculator -> EventTimeCalculator) : M init_state unit :=
  modify (fun w => (f (fst w), snd w)).

Definition init_log (lv : level) (m : message) : M init_state unit :=
  modify (fun w => (fst w, snd w ++ [(lv, m)])).

(** The body of [for tel_id in self.subarray.tel:]. The test of line 191
    is on the dictionary [self._has_tib_reference] itself, which is true
    of a dictionary that is not empty. *)
Definition init_tel (tel_id : Z) : M init_state unit :=
  w <- get ;;
  let t := trait (fst w) in
  let has_dragon :=
    is_not_None (ucts_t0_dragon t tel_id) && is_not_None (dragon_counter0 t tel_id) in
  init_update (fun s =>
    set_has_dragon_reference (<[tel_id := has_dragon]> (_has_dragon_reference s)) s) ;;;
  when has_dragon
    (init_update (fun s =>
       set_ucts_t0_dragon (<[tel_id := ucts_t0_dragon t tel_id]> (_ucts_t0_dragon s)) s) ;;;
     init_update (fun s =>
       set_dragon_counter0 (<[tel_id := dragon_counter0 t tel_id]> (_dragon_counter0 s)) s)) ;;;
  let has_tib :=
    is_not_None (ucts_t0_tib t tel_id) && is_not_None (tib_counter0 t tel_id) in
  init_update (fun s =>
    set_has_tib_reference (<[tel_id := has_tib]> (_has_tib_reference s)) s) ;;;
  w <- get ;;
  when (negb (bool_decide (_has_tib_reference (fst w) = ∅)))
    (init_update (fun s =>
       set_ucts_t0_tib (<[tel_id := ucts_t0_tib t tel_id]> (_ucts_t0_tib s)) s) ;;;
     init_update (fun s =>
       set_tib_counter0 (<[tel_id := tib_counter0 t tel_id]> (_tib_counter0 s)) s)) ;;;
  if (TelescopeParameter_eq_str (timestamp t) "dragon" && negb has_dragon)
     || (TelescopeParameter_eq_str (timestamp t) "tib" && negb has_tib)
  then
    if negb (use_first_event t)
    then raise (ValueError
      "No external reference timestamps/counter values provided and ``use_first_event`` is False")
    else init_log WARNING msg_first_event_as_reference
  else ret tt.

Definition blank (tels : list Z) (t : traits) : EventTimeCalculator :=
  {| subarray_tel := tels; trait := t;
     previous_ucts_timestamps := ∅; previous_ucts_trigger_types := ∅;
     _has_tib_reference := ∅; _has_dragon_reference := ∅;
     _ucts_t0_dragon := ∅; _dragon_counter0 := ∅;
     _ucts_t0_tib := ∅; _tib_counter0 := ∅ |}.

(** [EventTimeCalculator(subarray, ...)] for the telescopes [tels] of the
    subarray and the traits [t]. *)
Definition __init__ (tels : list Z) (t : traits) : (exn + unit) * init_state :=
  for_each init_tel tels (blank tels t, []).

(** **** [EventTimeCalculator.__call__] *)

(** The calculator, the telescope's container [event.lst.tel[tel_id]],
    which the call mutates in place, and the records logged by the call. *)
Record call_state : Type := {
  self : EventTimeCalculator;
  lst : LSTCameraContainer;
  log : list log_record
}.

Definition update_self (f : EventTimeCalculator -> EventTimeCalculator) : M call_state unit :=
  modify (fun w => {| self := f (self w); lst := lst w; log := log w |}).

Definition update_lst (f : LSTCameraContainer -> LSTCameraContainer) : M call_state unit :=
  modify (fun w => {| self := self w; lst := f (lst w); log := log w |}).

Definition emit (lv : level) (m : message) : M call_state unit :=
  modify (fun w => {| self := self w; lst := lst w; log := log w ++ [(lv, m)] |}).

(** [np.where(ids == x)[0][0]]: the first position of [x], [IndexError]
    when there is none. *)
Fixpoint index_of (x : Z) (ids : list Z) : option nat :=
  match ids with
  | [] => None
  | y :: ids' => if x =? y then Some O else S <$> index_of x ids'
  end.

(** [counter[module_index]] for one of the arrays of counters:
    [TypeError] on the default [None] ("'NoneType' object is not
    subscriptable"), [IndexError] past the end of the array. *)
Definition item (counter : option (list Z)) (module_index : nat) : exn + Z :=
  match counter with
  | None => inl TypeError
  | Some a =>
      match a !! module_index with
      | Some v => inr v
      | None => inl IndexError
      end
  end.

(** [def calc_dragon_time(lst_event_container, module_index, reference)]. *)
Definition calc_dragon_time {S : Type} (lst_event_container : LSTCameraContainer)
    (module_index : nat) (reference : float) : M S float :=
  pps <- from_sum (item (pps_counter (evt lst_event_container)) module_index) ;;
  pps <- from_sum (float_of_int pps) ;;
  tenMHz <- from_sum (item (tenMHz_counter (evt lst_event_container)) module_index) ;;
  tenMHz <- from_sum (float_of_int tenMHz) ;;
  ret (add (add reference pps) (mul tenMHz lit_1e_7)).

(** [def calc_tib_time(lst_event_container, reference)]. *)
Definition calc_tib_time {S : Type} (lst_event_container : LSTCameraContainer)
    (reference : float) : M S float :=
  pps <- from_sum (float_of_int (tib_pps_counter (evt lst_event_container))) ;;
  tenMHz <- from_sum (float_of_int (tib_tenMHz_counter (evt lst_event_container))) ;;
  ret (add (add reference pps) (mul tenMHz lit_1e_7)).

(** [1e-9 * (t0[tel_id] - counter0[tel_id])] for two of the dictionaries
    of references. *)
Definition reference_of (t0 counter0 : gmap Z (option Z)) (tel_id : Z) : M call_state float :=
  a <- from_option KeyError (t0 !! tel_id) ;;
  b <- from_option KeyError (counter0 !! tel_id) ;;
  a <- from_option TypeError a ;;
  b <- from_option TypeError b ;;
  d <- from_sum (float_of_int (a - b)) ;;
  ret (mul lit_1e_9 d).

(** Lines 235 to 270, "first event and values not passed": the event
    becomes the reference. The result is [(dragon_time, tib_time)]. *)
Definition first_event_reference (tel_id : Z) (module_index : nat)
    (ucts_timestamp : Z) (ucts_time : float) (tib_available : Z)
  : M call_state (float * float) :=
  w <- get ;;
  pps <- from_sum (item (pps_counter (evt (lst w))) module_index) ;;
  tenMHz <- from_sum (item (tenMHz_counter (evt (lst w))) module_index) ;;
  let initial_dragon_counter := 1000000000 * pps + 100 * tenMHz in
  update_self (fun s =>
    set_ucts_t0_dragon (<[tel_id := Some ucts_timestamp]> (_ucts_t0_dragon s)) s) ;;;
  update_self (fun s =>
    set_dragon_counter0 (<[tel_id := Some initial_dragon_counter]> (_dragon_counter0 s)) s) ;;;
  emit CRITICAL (msg_dragon_reference ucts_timestamp initial_dragon_counter) ;;;
  let dragon_time := ucts_time in
  update_self (fun s =>
    set_has_dragon_reference (<[tel_id := true]> (_has_dragon_reference s)) s) ;;;
  when ((tib_available =? 0) && TelescopeParameter_eq_str (timestamp (trait (self w))) "tib")
    (raise (ValueError
      "TIB is selected for timestamp, no external reference given and first event has not TIB info")) ;;;
  if negb (tib_available =? 0) then
    let initial_tib_counter :=
      1000000000 * tib_pps_counter (evt (lst w)) + 100 * tib_tenMHz_counter (evt (lst w)) in
    update_self (fun s =>
      set_ucts_t0_tib (<[tel_id := Some ucts_timestamp]> (_ucts_t0_tib s)) s) ;;;
    update_self (fun s =>
      set_tib_counter0 (<[tel_id := Some initial_tib_counter]> (_tib_counter0 s)) s) ;;;
    emit CRITICAL (msg_tib_reference ucts_timestamp initial_tib_counter) ;;;
    let tib_time := ucts_time in
    update_self (fun s =>
      set_has_tib_reference (<[tel_id := true]> (_has_tib_reference s)) s) ;;;
    ret (dragon_time, tib_time)
  else ret (dragon_time, nan).

(** Lines 272 to 283: the times from the references that are there. *)
Definition times_from_references (tel_id : Z) (module_index : nat) (tib_available : Z)
  : M call_state (float * float) :=
  w <- get ;;
  has_dragon <- from_option KeyError (_has_dragon_reference (self w) !! tel_id) ;;
  dragon_time <-
    (if has_dragon : bool then
       reference <- reference_of (_ucts_t0_dragon (self w)) (_dragon_counter0 (self w)) tel_id ;;
       calc_dragon_time (lst w) module_index reference
     else ret nan) ;;
  has_tib <- from_option KeyError (_has_tib_reference (self w) !! tel_id) ;;
  tib_time <-
    (if (has_tib : bool) && negb (tib_available =? 0) then
       reference <- reference_of (_ucts_t0_tib (self w)) (_tib_counter0 (self w)) tel_id ;;
       calc_tib_time (lst w) reference
     else ret nan) ;;
  ret (dragon_time, tib_time).

(** Lines 230 to 283. In [not a[tel_id] and not b[tel_id]] the second
    dictionary is read only when the first gives false. *)
Definition reference_step (tel_id : Z) (module_index : nat)
    (ucts_timestamp : Z) (ucts_time : float) (tib_available : Z)
  : M call_state (float * float) :=
  w <- get ;;
  has_dragon <- from_option KeyError (_has_dragon_reference (self w) !! tel_id) ;;
  no_reference <-
    (if has_dragon : bool then ret false
     else has_tib <- from_option KeyError (_has_tib_reference (self w) !! tel_id) ;;
          ret (negb has_tib)) ;;
  if no_reference : bool
  then first_event_reference tel_id module_index ucts_timestamp ucts_time tib_available
  else times_from_references tel_id module_index tib_available.

(** Lines 308 to 319: with earlier jumps on record, the values just read
    go last in the deques and the first ones are taken for this event.
    The result is [(ucts_timestamp, ucts_trigger_type, ucts_time)]. *)
Definition queue_step (tel_id : Z) (ucts_timestamp ucts_trigger_type : Z) (ucts_time : float)
  : M call_state (Z * Z * float) :=
  w <- get ;;
  if (0 <? Z.of_nat (length (deque_of (previous_ucts_timestamps (self w)) tel_id))) then
    update_self (fun s => set_previous_ucts_timestamps
      (<[tel_id := deque_of (previous_ucts_timestamps s) tel_id ++ [ucts_timestamp]]>
         (previous_ucts_timestamps s)) s) ;;;
    update_self (fun s => set_previous_ucts_trigger_types
      (<[tel_id := deque_of (previous_ucts_trigger_types s) tel_id ++ [ucts_trigger_type]]>
         (previous_ucts_trigger_types s)) s) ;;;
    w <- get ;;
    ucts_timestamp <- from_option IndexError
      (head (deque_of (previous_ucts_timestamps (self w)) tel_id)) ;;
    update_self (fun s => set_previous_ucts_timestamps
      (<[tel_id := tail (deque_of (previous_ucts_timestamps s) tel_id)]>
         (previous_ucts_timestamps s)) s) ;;;
    ucts_trigger_type <- from_option IndexError
      (head (deque_of (previous_ucts_trigger_types (self w)) tel_id)) ;;
    update_self (fun s => set_previous_ucts_trigger_types
      (<[tel_id := tail (deque_of (previous_ucts_trigger_types s) tel_id)]>
         (previous_ucts_trigger_types s)) s) ;;;
    ucts_time <- from_sum (float_of_int ucts_timestamp) ;;
    let ucts_time := mul ucts_time lit_1e_9 in
    update_lst (fun l => set_ucts_trigger_type l ucts_trigger_type) ;;;
    update_lst (fun l => set_ucts_timestamp l ucts_timestamp) ;;;
    ret (ucts_timestamp, ucts_trigger_type, ucts_time)
  else ret (ucts_timestamp, ucts_trigger_type, ucts_time).

(** Lines 335 to 355: the check of the UCTS time against the Dragon time.
    The result is [ucts_time]. *)
Definition jump_step (tel_id : Z) (index : EventIndex)
    (ucts_timestamp ucts_trigger_type : Z) (ucts_time dragon_time : float)
    (tib_available : Z)
  : M call_state float :=
  if gt (sub ucts_time dragon_time) lit_1e_6 then
    emit WARNING (msg_ucts_jump (event_id index) dragon_time
                    (mul (sub ucts_time dragon_time) lit_1e6)) ;;;
    update_self (fun s => set_previous_ucts_timestamps
      (<[tel_id := ucts_timestamp :: deque_of (previous_ucts_timestamps s) tel_id]>
         (previous_ucts_timestamps s)) s) ;;;
    update_self (fun s => set_previous_ucts_trigger_types
      (<[tel_id := ucts_trigger_type :: deque_of (previous_ucts_trigger_types s) tel_id]>
         (previous_ucts_trigger_types s)) s) ;;;
    let ucts_time := dragon_time in
    ns <- from_sum (int_of_float (mul dragon_time lit_1e9)) ;;
    update_lst (fun l => set_ucts_timestamp l ns) ;;;
    (if negb (tib_available =? 0) then
       update_lst (fun l => set_ucts_trigger_type l (tib_masked_trigger (evt l)))
     else
       emit WARNING msg_no_tib_trigger ;;;
       update_lst (fun l => set_ucts_trigger_type l 0)) ;;;
    ret ucts_time
  else ret ucts_time.

(** Lines 358 to 371: the time of the configured clock. [Time] raises
    before the record of the three times is logged. *)
Definition select_timestamp (tel_id : Z) (ucts_time dragon_time tib_time : float)
  : M call_state Time :=
  w <- get ;;
  let selected := timestamp (trait (self w)) tel_id in
  timestamp <-
    (if String.eqb selected "ucts" then from_sum (Time_of_unix_tai ucts_time)
     else if String.eqb selected "dragon" then from_sum (Time_of_unix_tai dragon_time)
     else if String.eqb selected "tib" then from_sum (Time_of_unix_tai tib_time)
     else raise (ValueError "Unknown timestamp requested")) ;;
  emit DEBUG (msg_times tib_time dragon_time ucts_time) ;;;
  ret timestamp.

(** Lines 306 to 371, from the times of the reference step on. *)
Definition jumps_and_selection (tel_id : Z) (index : EventIndex)
    (ucts_timestamp : Z) (ucts_time dragon_time tib_time : float) (tib_available : Z)
  : M call_state Time :=
  w <- get ;;
  let ucts_trigger_type := ucts_trigger_type (evt (lst w)) in
  sample <- queue_step tel_id ucts_timestamp ucts_trigger_type ucts_time ;;
  let ucts_timestamp := fst (fst sample) in
  let ucts_trigger_type := snd (fst sample) in
  let ucts_time := snd sample in
  ucts_time <- jump_step tel_id index ucts_timestamp ucts_trigger_type
                 ucts_time dragon_time tib_available ;;
  select_timestamp tel_id ucts_time dragon_time tib_time.

(** [EventTimeCalculator.__call__(self, tel_id, event)], on the index of
    the event and, in the state, its container [event.lst.tel[tel_id]].
    [None & 1] of line 217 is a [TypeError]. *)
Definition __call__ (tel_id : Z) (index : EventIndex) : M call_state Time :=
  w <- get ;;
  module_index <- from_option IndexError
    (index_of (dragon_module_id (trait (self w)) tel_id) (module_ids (svc (lst w)))) ;;
  extdevices_presence <- from_option TypeError (extdevices_presence (evt (lst w))) ;;
  let tib_available := Z.land extdevices_presence 1 in
  let ucts_available := Z.land extdevices_presence 2 in
  if ucts_available =? 0 then
    emit WARNING (msg_ucts_unavailable (obs_id index) (event_id index) tel_id) ;;;
    ret NAN_TIME
  else
    let ucts_timestamp := ucts_timestamp (evt (lst w)) in
    ucts_time <- from_sum (float_of_int ucts_timestamp) ;;
    let ucts_time := mul ucts_time lit_1e_9 in
    times <- reference_step tel_id module_index ucts_timestamp ucts_time tib_available ;;
    jumps_and_selection tel_id index ucts_timestamp ucts_time (fst times) (snd times)
      tib_available.

(** A call on the calculator [s] and the container [l] of an event. *)
Definition call (s : EventTimeCalculator) (tel_id : Z) (index : EventIndex)
    (l : LSTCameraContainer) : (exn + Time) * call_state :=
  __call__ tel_id index {| self := s; lst := l; log := [] |}.

(** The calculators a program can hold: the one [__init__] built, and the
    one any call leaves, whether it returned or raised. *)
Inductive reachable (tels : list Z) (t : traits) : EventTimeCalculator -> Prop :=
| reachable_init s lg :
    __init__ tels t = (inr tt, (s, lg)) -> reachable tels t s
| reachable_call s tel_id index l r w :
    reachable tels t s -> call s tel_id index l = (r, w) -> reachable tels t (self w).

(** The references of a calculator and what it is configured with: all of
    its state but the two deques. *)
Definition references_of (s : EventTimeCalculator) :=
  (_has_dragon_reference s, _has_tib_reference s,
   _ucts_t0_dragon s, _dragon_counter0 s, _ucts_t0_tib s, _tib_counter0 s,
   trait s, subarray_tel s).

(** The two deques of a telescope. *)
Definition queues_at (s : EventTimeCalculator) (tel_id : Z) : list Z * list Z :=
  (deque_of (previous_ucts_timestamps s) tel_id,
   deque_of (previous_ucts_trigger_types s) tel_id).

(** What a calculator holds for one telescope. *)
Definition state_at (s : EventTimeCalculator) (tel_id : Z) :=
  (_has_dragon_reference s !! tel_id, _has_tib_reference s !! tel_id,
   _ucts_t0_dragon s !! tel_id, _dragon_counter0 s !! tel_id,
   _ucts_t0_tib s !! tel_id, _tib_counter0 s !! tel_id,
   queues_at s tel_id).

(** A telescope without a Dragon reference has nothing in its deques. *)
Definition no_jump_before_reference (s : EventTimeCalculator) : Prop :=
  forall tel_id, _has_dragon_reference s !! tel_id <> Some true ->
                 queues_at s tel_id = ([], []).

(** The outcomes of the steps after the reference step gave [rr] and left
    [w1]. *)
Inductive steps_outcome (s : EventTimeCalculator) (tel_id : Z) (index : EventIndex)
    (l : LSTCameraContainer) (tib_available : Z) (r : exn + Time) (w : call_state)
    (f : float) (rr : exn + float * float) (w1 : call_state) : Prop :=
| steps_reference_raised e :
    rr = inl e -> r = inl e -> w = w1 -> steps_outcome s tel_id index l tib_available r w f rr w1
| steps_queue_raised d t e :
    rr = inr (d, t) ->
    queue_step tel_id (ucts_timestamp (evt l)) (ucts_trigger_type (evt (lst w1)))
      (mul f lit_1e_9) w1 = (inl e, w) ->
    r = inl e -> steps_outcome s tel_id index l tib_available r w f rr w1
| steps_jump_raised d t ts' tt' u' w2 e :
    rr = inr (d, t) ->
    queue_step tel_id (ucts_timestamp (evt l)) (ucts_trigger_type (evt (lst w1)))
      (mul f lit_1e_9) w1 = (inr (ts', tt', u'), w2) ->
    jump_step tel_id index ts' tt' u' d tib_available w2
    = (inl e, w) ->
    r = inl e -> steps_outcome s tel_id index l tib_available r w f rr w1
| steps_selected d t ts' tt' u' w2 u'' w3 :
    rr = inr (d, t) ->
    queue_step tel_id (ucts_timestamp (evt l)) (ucts_trigger_type (evt (lst w1)))
      (mul f lit_1e_9) w1 = (inr (ts', tt', u'), w2) ->
    jump_step tel_id index ts' tt' u' d tib_available w2
    = (inr u'', w3) ->
    select_timestamp tel_id u'' d t w3 = (r, w) ->
    steps_outcome s tel_id index l tib_available r w f rr w1.

(** The outcomes of a call. *)
Inductive call_outcome (s : EventTimeCalculator) (tel_id : Z) (index : EventIndex)
    (l : LSTCameraContainer) (r : exn + Time) (w : call_state) : Prop :=
| outcome_no_module :
    index_of (dragon_module_id (trait s) tel_id) (module_ids (svc l)) = None ->
    r = inl IndexError -> w = {| self := s; lst := l; log := [] |} ->
    call_outcome s tel_id index l r w
| outcome_no_presence i :
    index_of (dragon_module_id (trait s) tel_id) (module_ids (svc l)) = Some i ->
    extdevices_presence (evt l) = None ->
    r = inl TypeError -> w = {| self := s; lst := l; log := [] |} ->
    call_outcome s tel_id index l r w
| outcome_no_ucts i presence :
    index_of (dragon_module_id (trait s) tel_id) (module_ids (svc l)) = Some i ->
    extdevices_presence (evt l) = Some presence ->
    Z.land presence 2 = 0 ->
    r = inr NAN_TIME ->
    w = {| self := s; lst := l;
           log := [(WARNING, msg_ucts_unavailable (obs_id index) (event_id index) tel_id)] |} ->
    call_outcome s tel_id index l r w
| outcome_overflow i presence e :
    index_of (dragon_module_id (trait s) tel_id) (module_ids (svc l)) = Some i ->
    extdevices_presence (evt l) = Some presence ->
    Z.land presence 2 <> 0 ->
    float_of_int (ucts_timestamp (evt l)) = inl e ->
    r = inl e -> w = {| self := s; lst := l; log := [] |} ->
    call_outcome s tel_id index l r w
| outcome_steps i presence f rr w1 :
    index_of (dragon_module_id (trait s) tel_id) (module_ids (svc l)) = Some i ->
    extdevices_presence (evt l) = Some presence ->
    Z.land presence 2 <> 0 ->
    float_of_int (ucts_timestamp (evt l)) = inr f ->
    reference_step tel_id i (ucts_timestamp (evt l)) (mul f lit_1e_9)
      (Z.land presence 1) {| self := s; lst := l; log := [] |}
    = (rr, w1) ->
    steps_outcome s tel_id index l (Z.land presence 1) r w f rr w1 ->
    call_outcome s tel_id index l r w.

(** The record of a jump, of an event taken as reference. *)
Definition is_jump_record (r : log_record) : Prop :=
  exists event_id dragon_time delta, r = (WARNING, msg_ucts_jump event_id dragon_time delta).

Definition is_reference_record (r : log_record) : Prop :=
  exists a b, r = (CRITICAL, msg_dragon_reference a b) \/ r = (CRITICAL, msg_tib_reference a b).

(** The two deques of every telescope have the same length: they hold the
    pairs of one queue. *)
Definition deques_in_step (s : EventTimeCalculator) : Prop :=
  forall tel_id, length (fst (queues_at s tel_id)) = length (snd (queues_at s tel_id)).

(** *** Configurations and events to run the calculator on *)

(** A reference is supplied when both of its values are. *)
Definition supplied (a b : option Z) : bool := is_not_None a && is_not_None b.

(** The traits as they are declared, and with given references. *)
Definition default_traits : traits :=
  {| timestamp := fun _ => "dragon";
     ucts_t0_dragon := fun _ => None; dragon_counter0 := fun _ => None;
     ucts_t0_tib := fun _ => None; tib_counter0 := fun _ => None;
     dragon_module_id := fun _ => CENTRAL_MODULE;
     use_first_event := true |}.

Definition with_references (selected : string) (dragon tib : option (Z * Z))
    (first_event : bool) : traits :=
  {| timestamp := fun _ => selected;
     ucts_t0_dragon := fun _ => fst <$> dragon; dragon_counter0 := fun _ => snd <$> dragon;
     ucts_t0_tib := fun _ => fst <$> tib; tib_counter0 := fun _ => snd <$> tib;
     dragon_module_id := fun _ => CENTRAL_MODULE;
     use_first_event := first_event |}.

(** The calculator [__init__] leaves for telescope 1. *)
Definition calculator (t : traits) : EventTimeCalculator := fst (snd (__init__ [1] t)).

(** The container of an event of a camera whose only module is [module]. *)
Definition container (module presence timestamp trigger_type pps tenMHz : Z)
  : LSTCameraContainer :=
  {| evt := {| extdevices_presence := Some presence;
               tib_pps_counter := pps; tib_tenMHz_counter := tenMHz;
               tib_masked_trigger := 32;
               ucts_timestamp := timestamp; ucts_trigger_type := trigger_type;
               pps_counter := Some [pps]; tenMHz_counter := Some [tenMHz] |};
     svc := {| module_ids := [module] |} |}.

Definition index_1 : EventIndex := {| obs_id := 1; event_id := 1 |}.
Definition index_2 : EventIndex := {| obs_id := 1; event_id := 2 |}.

(** A run with the Dragon reference [(t_ref, 0)] supplied. The record of
    the event at second 10 carries the UCTS sample of second 11, and the
    record of the event at second 11 the sample of second 12: one sample
    was lost. *)
Definition t_ref : Z := 1600000000000000000.
Definition referenced : EventTimeCalculator :=
  calculator (with_references "ucts" (Some (t_ref, 0)) None true).
Definition event_10 : LSTCameraContainer := container 132 3 (t_ref + 11000000000) 1 10 0.
Definition event_11 : LSTCameraContainer := container 132 3 (t_ref + 12000000000) 2 11 0.
Definition after_event_10 : EventTimeCalculator :=
  Eval vm_compute in self (snd (call referenced 1 index_1 event_10)).

(** A run with the TIB reference supplied and no Dragon reference. *)
Definition tib_referenced : traits := with_references "dragon" None (Some (t_ref, 0)) true.

(** *** More to state the properties of the calculator with *)

(** What a calculator holds as the references of one telescope. *)
Definition reference_at (s : EventTimeCalculator) (tel_id : Z) :=
  (_has_dragon_reference s !! tel_id, _has_tib_reference s !! tel_id,
   _ucts_t0_dragon s !! tel_id, _dragon_counter0 s !! tel_id,
   _ucts_t0_tib s !! tel_id, _tib_counter0 s !! tel_id).

(** The calculators that come after [s]: any number of calls later,
    returned or raised. *)
Inductive later (s : EventTimeCalculator) : EventTimeCalculator -> Prop :=
| later_now : later s s
| later_call s' tel_id index l r w :
    later s s' -> call s' tel_id index l = (r, w) -> later s (self w).

(** The container of an event without [ucts_timestamp] and
    [ucts_trigger_type]. *)
Definition counters_of (l : LSTCameraContainer) :=
  (extdevices_presence (evt l), tib_pps_counter (evt l), tib_tenMHz_counter (evt l),
   tib_masked_trigger (evt l), pps_counter (evt l), tenMHz_counter (evt l), svc l).

(** The number of jumps on record in a log. *)
Fixpoint jumps (lg : list log_record) : nat :=
  match lg with
  | [] => O
  | (WARNING, msg_ucts_jump _ _ _) :: lg' => S (jumps lg')
  | _ :: lg' => jumps lg'
  end.

(** Calculators for telescope 1 with the Dragon clock selected and its
    reference supplied, and the same for the TIB. *)
Definition dragon_selected : EventTimeCalculator :=
  calculator (with_references "dragon" (Some (t_ref, 0)) None true).
Definition tib_selected : EventTimeCalculator :=
  calculator (with_references "tib" None (Some (t_ref, 0)) true).

(** The references of a telescope are in order: both flags are there, and
    a flag that is set comes with both of its values. *)
Definition well_referenced (s : EventTimeCalculator) (tel_id : Z) : Prop :=
  (exists b, _has_dragon_reference s !! tel_id = Some b /\
     (b = true -> exists t0 c0, _ucts_t0_dragon s !! tel_id = Some (Some t0) /\
                                _dragon_counter0 s !! tel_id = Some (Some c0))) /\
  (exists b, _has_tib_reference s !! tel_id = Some b /\
     (b = true -> exists t0 c0, _ucts_t0_tib s !! tel_id = Some (Some t0) /\
                                _tib_counter0 s !! tel_id = Some (Some c0))).

(** What lines 358 to 369 give for the selected clock: the [Time] of its
    value, or the error of a selection that is none of the three. *)
Definition selected_time (selected : string) (u d t : float) : exn + Time :=
  if String.eqb selected "ucts" then Time_of_unix_tai u
  else if String.eqb selected "dragon" then Time_of_unix_tai d
  else if String.eqb selected "tib" then Time_of_unix_tai t
  else inl (ValueError "Unknown timestamp requested").

End EventTime.

(** * Properties *)

(** ** The floats of the model *)

Module PyFloatFacts.
Import PyFloat.

(** The literals are the correctly rounded quotients and integers. *)
Lemma literals_rounded :
  lit_1e_9 = SFdiv prec emax (round_int 1) (round_int (10 ^ 9)) /\
  lit_1e_7 = SFdiv prec emax (round_int 1) (round_int (10 ^ 7)) /\
  lit_1e_6 = SFdiv prec emax (round_int 1) (round_int (10 ^ 6)) /\
  lit_1e9 = round_int (10 ^ 9) /\
  lit_1e6 = round_int (10 ^ 6).
Proof. vm_compute. repeat split. Qed.

(** The bound of [float_of_int] is where rounding reaches infinity. *)
Lemma float_of_int_threshold :
  round_int (2 ^ 1024 - 2 ^ 970) = S754_infinity false /\
  round_int (2 ^ 1024 - 2 ^ 970 - 1) = SFmax_float prec emax /\
  round_int (- (2 ^ 1024 - 2 ^ 970)) = S754_infinity true.
Proof. vm_compute. repeat split. Qed.

Lemma float_of_int_small (n : Z) :
  Z.abs n < 2 ^ 64 -> float_of_int n = inr (round_int n).
Proof.
  intros Hn. unfold float_of_int.
  assert (H : 2 ^ 64 < 2 ^ 1024 - 2 ^ 970) by (vm_compute; reflexivity).
  destruct (Z.ltb_spec (Z.abs n) (2 ^ 1024 - 2 ^ 970)) as [_ | Hge]; [reflexivity | lia].
Qed.

(** A float minus itself is zero or NaN. *)
Lemma sub_diag (x : float) :
  sub x x = S754_zero false \/ sub x x = S754_nan.
Proof.
  destruct x as [s | s | | s m e]; simpl.
  - left. destruct s; reflexivity.
  - right. destruct s; reflexivity.
  - right. reflexivity.
  - left. unfold sub, SFsub. cbv zeta. rewrite Z.sub_diag. reflexivity.
Qed.

(** Nothing is below itself by more than the tolerance. *)
Lemma gt_sub_diag (x : float) : gt (sub x x) lit_1e_6 = false.
Proof. destruct (sub_diag x) as [-> | ->]; reflexivity. Qed.

(** The difference with NaN is NaN, and NaN is above nothing. *)
Lemma sub_nan_r (x : float) : sub x nan = nan.
Proof. destruct x; reflexivity. Qed.

Lemma gt_nan_l (y : float) : gt nan y = false.
Proof. destruct y; reflexivity. Qed.

(** A float whose nanoseconds [int] can take is finite: the product of an
    infinity or of NaN with [1e9] is infinite or NaN. *)
Lemma int_of_float_mul_finite (x : float) (n : Z) :
  int_of_float (mul x lit_1e9) = inr n -> isfinite x = true.
Proof.
  destruct x as [s | s | | s m e]; try reflexivity; [destruct s |]; discriminate.
Qed.

End PyFloatFacts.

(** ** anyarray_dtypes.py *)

Module AnyarrayDtypesSpec.
Import AnyarrayDtypes.

Lemma int64_wrap_small (n : Z) : - 2 ^ 63 <= n < 2 ^ 63 -> int64_wrap n = n.
Proof.
  intros H. unfold int64_wrap.
  rewrite Z.mod_small by lia. lia.
Qed.

(** C9. For three bytes [b0 b1 b2], [parse_tib_10MHz_counter] is the
    function giving the little-endian unsigned integer
    [b0 + 2^8 * b1 + 2^16 * b2], and its result lies in [0, 2^24). *)
Theorem parse_tib_10MHz_counter_little_endian (b0 b1 b2 : Z) :
  uint8 b0 -> uint8 b1 -> uint8 b2 ->
  parse_tib_10MHz_counter b0 b1 b2 = b0 + 2 ^ 8 * b1 + 2 ^ 16 * b2 /\
  0 <= parse_tib_10MHz_counter b0 b1 b2 < 2 ^ 24.
Proof.
  unfold uint8. intros H0 H1 H2.
  assert (E : parse_tib_10MHz_counter b0 b1 b2 = b0 + 2 ^ 8 * b1 + 2 ^ 16 * b2).
  { unfold parse_tib_10MHz_counter, int64_add, int64_shl.
    rewrite !Z.shiftl_mul_pow2 by lia.
    rewrite (int64_wrap_small (b1 * 2 ^ 8)) by lia.
    rewrite (int64_wrap_small (b2 * 2 ^ 16)) by lia.
    rewrite (int64_wrap_small (b0 + b1 * 2 ^ 8)) by lia.
    rewrite int64_wrap_small by lia. lia. }
  rewrite E. split; [reflexivity | lia].
Qed.

Lemma parse_tib_10MHz_counter_little_endian_witness :
  uint8 0x56 /\ uint8 0x34 /\ uint8 0x12 /\
  parse_tib_10MHz_counter 0x56 0x34 0x12 = 0x123456.
Proof.
  assert (H0 : uint8 0x56) by (unfold uint8; lia).
  assert (H1 : uint8 0x34) by (unfold uint8; lia).
  assert (H2 : uint8 0x12) by (unfold uint8; lia).
  split; [exact H0 |]. split; [exact H1 |]. split; [exact H2 |].
  exact (eq_trans (proj1 (parse_tib_10MHz_counter_little_endian _ _ _ H0 H1 H2)) eq_refl).
Defined.

(** The counter of three bytes, without the wrap-around. *)
Lemma parse_tib_10MHz_counter_value (b0 b1 b2 : Z) :
  uint8 b0 -> uint8 b1 -> uint8 b2 ->
  parse_tib_10MHz_counter b0 b1 b2 = b0 + 256 * (b1 + 256 * b2).
Proof.
  unfold uint8. intros H0 H1 H2.
  unfold parse_tib_10MHz_counter, int64_add, int64_shl.
  rewrite !Z.shiftl_mul_pow2 by lia.
  rewrite (int64_wrap_small (b1 * 2 ^ 8)) by lia.
  rewrite (int64_wrap_small (b2 * 2 ^ 16)) by lia.
  rewrite (int64_wrap_small (b0 + b1 * 2 ^ 8)) by lia.
  rewrite int64_wrap_small by lia. lia.
Qed.

(** X13. The three bytes are read back from the counter, the low byte
    first: no two triples of bytes give the same counter. *)
Theorem parse_tib_10MHz_counter_bytes (b0 b1 b2 : Z) :
  uint8 b0 -> uint8 b1 -> uint8 b2 ->
  parse_tib_10MHz_counter b0 b1 b2 mod 256 = b0 /\
  parse_tib_10MHz_counter b0 b1 b2 / 256 mod 256 = b1 /\
  parse_tib_10MHz_counter b0 b1 b2 / 65536 = b2.
Proof.
  intros H0 H1 H2. rewrite (parse_tib_10MHz_counter_value b0 b1 b2 H0 H1 H2).
  unfold uint8 in *.
  assert (Hq : (b0 + 256 * (b1 + 256 * b2)) / 256 = b1 + 256 * b2).
  { symmetry. apply (Z.div_unique_pos _ 256 _ b0); lia. }
  split; [| split].
  - symmetry. apply (Z.mod_unique_pos _ 256 (b1 + 256 * b2) b0); lia.
  - rewrite Hq. symmetry. apply (Z.mod_unique_pos _ 256 b2 b1); lia.
  - symmetry. apply (Z.div_unique_pos _ 65536 _ (b0 + 256 * b1)); lia.
Qed.

Lemma parse_tib_10MHz_counter_bytes_witness :
  uint8 0x56 /\ uint8 0x34 /\ uint8 0x12 /\
  parse_tib_10MHz_counter 0x56 0x34 0x12 = 0x123456 /\
  0x123456 mod 256 = 0x56 /\ 0x123456 / 256 mod 256 = 0x34 /\ 0x123456 / 65536 = 0x12.
Proof.
  assert (H0 : uint8 0x56) by (unfold uint8; lia).
  assert (H1 : uint8 0x34) by (unfold uint8; lia).
  assert (H2 : uint8 0x12) by (unfold uint8; lia).
  split; [exact H0 |]. split; [exact H1 |]. split; [exact H2 |].
  split; [reflexivity |].
  exact (parse_tib_10MHz_counter_bytes _ _ _ H0 H1 H2).
Defined.

End AnyarrayDtypesSpec.

(** ** Dictionaries in insertion order *)

Section DictFacts.
Context {K V : Type} `{EqDecision K}.
Implicit Types (d : dict K V) (k : K) (v : V).

Lemma dict_get_set_eq k v d : dict_get k (dict_set k v d) = Some v.
Proof.
  induction d as [| [k' v'] d IH]; simpl.
  - rewrite decide_True by reflexivity. reflexivity.
  - destruct (decide (k = k')) as [-> | Hne]; simpl.
    + rewrite decide_True by reflexivity. reflexivity.
    + rewrite decide_False by assumption. exact IH.
Qed.

Lemma dict_get_set_ne k k' v d : k <> k' -> dict_get k' (dict_set k v d) = dict_get k' d.
Proof.
  intros Hne. induction d as [| [k0 v0] d IH]; simpl.
  - rewrite decide_False by congruence. reflexivity.
  - destruct (decide (k = k0)) as [-> | Hne0]; simpl.
    + rewrite !decide_False by congruence. reflexivity.
    + destruct (decide (k' = k0)); [reflexivity | exact IH].
Qed.

Lemma dict_get_del_ne k k' d : k <> k' -> dict_get k' (dict_del k d) = dict_get k' d.
Proof.
  intros Hne. induction d as [| [k0 v0] d IH]; simpl; [reflexivity |].
  destruct (decide (k = k0)) as [-> | Hne0]; simpl.
  - rewrite decide_False by congruence. reflexivity.
  - destruct (decide (k' = k0)); [reflexivity | exact IH].
Qed.

Lemma dict_get_None k d : dict_get k d = None <-> k ∉ dict_keys d.
Proof.
  induction d as [| [k0 v0] d IH]; simpl.
  - split; [intros _; apply not_elem_of_nil | reflexivity].
  - rewrite not_elem_of_cons. destruct (decide (k = k0)) as [-> | Hne].
    + split; [discriminate | intros [Hk _]; congruence].
    + rewrite IH. tauto.
Qed.

Lemma dict_get_Some_keys k v d : dict_get k d = Some v -> k ∈ dict_keys d.
Proof.
  intros Hget. destruct (decide (k ∈ dict_keys d)) as [Hin | Hout]; [exact Hin |].
  apply dict_get_None in Hout. congruence.
Qed.

Lemma dict_get_elem k v d : dict_get k d = Some v -> (k, v) ∈ d.
Proof.
  induction d as [| [k0 v0] d IH]; simpl; [discriminate |].
  destruct (decide (k = k0)) as [-> | Hne].
  - intros [= ->]. apply list_elem_of_here.
  - intros Hget. apply list_elem_of_further, IH, Hget.
Qed.

Lemma dict_get_middle k v d1 d2 :
  k ∉ dict_keys d1 -> dict_get k (d1 ++ (k, v) :: d2) = Some v.
Proof.
  induction d1 as [| [k0 v0] d1 IH]; simpl; intros Hout.
  - rewrite decide_True by reflexivity. reflexivity.
  - apply not_elem_of_cons in Hout as [Hne Hout].
    rewrite decide_False by assumption. apply IH, Hout.
Qed.

Lemma dict_set_middle k v v' d1 d2 :
  k ∉ dict_keys d1 -> dict_set k v' (d1 ++ (k, v) :: d2) = d1 ++ (k, v') :: d2.
Proof.
  induction d1 as [| [k0 v0] d1 IH]; simpl; intros Hout.
  - rewrite decide_True by reflexivity. reflexivity.
  - apply not_elem_of_cons in Hout as [Hne Hout].
    rewrite decide_False by assumption. f_equal. apply IH, Hout.
Qed.

Lemma dict_del_middle k v d1 d2 :
  k ∉ dict_keys d1 -> dict_del k (d1 ++ (k, v) :: d2) = d1 ++ d2.
Proof.
  induction d1 as [| [k0 v0] d1 IH]; simpl; intros Hout.
  - rewrite decide_True by reflexivity. reflexivity.
  - apply not_elem_of_cons in Hout as [Hne Hout].
    rewrite decide_False by assumption. f_equal. apply IH, Hout.
Qed.

Lemma dict_set_absent k v d : k ∉ dict_keys d -> dict_set k v d = d ++ [(k, v)].
Proof.
  induction d as [| [k0 v0] d IH]; simpl; intros Hout; [reflexivity |].
  apply not_elem_of_cons in Hout as [Hne Hout].
  rewrite decide_False by assumption. f_equal. apply IH, Hout.
Qed.

Lemma dict_keys_split k d :
  k ∈ dict_keys d -> exists v d1 d2, d = d1 ++ (k, v) :: d2 /\ k ∉ dict_keys d1.
Proof.
  induction d as [| [k0 v0] d IH]; simpl; intros Hin.
  - apply elem_of_nil in Hin. destruct Hin.
  - destruct (decide (k = k0)) as [-> | Hne].
    + exists v0, [], d. split; [reflexivity | apply not_elem_of_nil].
    + apply elem_of_cons in Hin as [Heq | Hin]; [congruence |].
      destruct (IH Hin) as (v & d1 & d2 & -> & Hout).
      exists v, ((k0, v0) :: d1), d2. split; [reflexivity |].
      simpl. apply not_elem_of_cons. split; assumption.
Qed.

Lemma dict_keys_set k v d :
  dict_keys (dict_set k v d) = if decide (k ∈ dict_keys d) then dict_keys d else dict_keys d ++ [k].
Proof.
  destruct (decide (k ∈ dict_keys d)) as [Hin | Hout].
  - destruct (dict_keys_split k d Hin) as (v0 & d1 & d2 & -> & Hout).
    rewrite dict_set_middle by assumption.
    unfold dict_keys. rewrite !map_app. reflexivity.
  - rewrite dict_set_absent by assumption.
    unfold dict_keys. rewrite map_app. reflexivity.
Qed.

Lemma dict_set_NoDup k v d : NoDup (dict_keys d) -> NoDup (dict_keys (dict_set k v d)).
Proof.
  intros Hnd. rewrite dict_keys_set. destruct (decide (k ∈ dict_keys d)) as [Hin | Hout].
  - exact Hnd.
  - apply NoDup_app. split; [exact Hnd |]. split.
    + intros x Hx Hx'. apply list_elem_of_singleton in Hx'. congruence.
    + apply NoDup_singleton.
Qed.

Lemma dict_set_set k v v' d : dict_set k v (dict_set k v' d) = dict_set k v d.
Proof.
  induction d as [| [k0 v0] d IH]; simpl.
  - rewrite decide_True by reflexivity. reflexivity.
  - destruct (decide (k = k0)) as [-> | Hne]; simpl.
    + rewrite decide_True by reflexivity. reflexivity.
    + rewrite decide_False by assumption. f_equal. exact IH.
Qed.

Lemma dict_set_same k v d : dict_get k d = Some v -> dict_set k v d = d.
Proof.
  induction d as [| [k0 v0] d IH]; simpl; [discriminate |].
  destruct (decide (k = k0)) as [-> | Hne].
  - intros [= ->]. reflexivity.
  - intros Hget. f_equal. apply IH, Hget.
Qed.

Lemma dict_get_NoDup_elem k v d : NoDup (dict_keys d) -> (k, v) ∈ d -> dict_get k d = Some v.
Proof.
  induction d as [| [k0 v0] d IH]; simpl; intros Hnd Hin.
  - apply elem_of_nil in Hin. destruct Hin.
  - apply NoDup_cons in Hnd as [Hout Hnd].
    apply elem_of_cons in Hin as [[= -> ->] | Hin].
    + rewrite decide_True by reflexivity. reflexivity.
    + destruct (decide (k = k0)) as [-> | Hne]; [| apply IH; assumption].
      exfalso. apply Hout. unfold dict_keys.
      apply (list_elem_of_fmap_2 fst _ _ Hin).
Qed.

End DictFacts.

Lemma dict_set_map {K V W : Type} `{EqDecision K} (g : V -> W) (k : K) (v : V) (d : dict K V) :
  map (fun kv => (fst kv, g (snd kv))) (dict_set k v d)
  = dict_set k (g v) (map (fun kv => (fst kv, g (snd kv))) d).
Proof.
  induction d as [| [k0 v0] d IH]; simpl; [reflexivity |].
  destruct (decide (k = k0)) as [-> | Hne]; simpl; [reflexivity |].
  f_equal. exact IH.
Qed.

Lemma dict_get_map {K V W : Type} `{EqDecision K} (g : V -> W) (k : K) (d : dict K V) :
  dict_get k (map (fun kv => (fst kv, g (snd kv))) d) = g <$> dict_get k d.
Proof.
  induction d as [| [k0 v0] d IH]; simpl; [reflexivity |].
  destruct (decide (k = k0)); [reflexivity | exact IH].
Qed.

(** [min] gives the first of the smallest elements. *)
Lemma py_min_first {A : Type} (key : A -> Z) (best : A) (rest : list A) :
  exists l1 l2,
    best :: rest = l1 ++ py_min key best rest :: l2 /\
    (forall x, x ∈ l1 -> key (py_min key best rest) < key x) /\
    (forall x, x ∈ l2 -> key (py_min key best rest) <= key x).
Proof.
  revert best. induction rest as [| x rest IH]; intros best; simpl.
  - exists [], []. split; [reflexivity |].
    split; intros y Hy; apply elem_of_nil in Hy; destruct Hy.
  - destruct (Z.ltb_spec (key x) (key best)) as [Hlt | Hge].
    + destruct (IH x) as (l1 & l2 & Heq & H1 & H2).
      exists (best :: l1), l2. split; [simpl; f_equal; exact Heq |].
      split; [| exact H2].
      intros y Hy. apply elem_of_cons in Hy as [-> | Hy]; [| apply H1, Hy].
      assert (Hm : key (py_min key x rest) <= key x).
      { destruct l1 as [| z l1]; simpl in Heq.
        - injection Heq as Hx _. rewrite <- Hx. lia.
        - injection Heq as Hx _. subst z.
          specialize (H1 x (list_elem_of_here _ _)). lia. }
      lia.
    + destruct (IH best) as (l1 & l2 & Heq & H1 & H2).
      destruct l1 as [| z l1]; simpl in Heq.
      * injection Heq as Hb Hr.
        exists [], (x :: l2). split; [simpl; f_equal; [exact Hb | f_equal; exact Hr] |].
        split; [intros y Hy; apply elem_of_nil in Hy; destruct Hy |].
        intros y Hy. apply elem_of_cons in Hy as [-> | Hy]; [| apply H2, Hy].
        rewrite <- Hb. exact Hge.
      * injection Heq as Hb Hr. subst z.
        exists (best :: x :: l1), l2. split; [simpl; do 2 f_equal; exact Hr |].
        split; [| exact H2].
        intros y Hy. apply elem_of_cons in Hy as [-> | Hy].
        -- apply H1, list_elem_of_here.
        -- apply elem_of_cons in Hy as [-> | Hy].
           ++ specialize (H1 best (list_elem_of_here _ _)). lia.
           ++ apply H1, list_elem_of_further, Hy.
Qed.

(** ** multifiles.py *)

Module MultiFilesSpec.
Import MultiFiles.

(** *** Tables and their readers *)

Lemma Table_next_unread (f : File) :
  Table_next (Events f) =
    match unread f with
    | [] => None
    | r :: _ => Some (r, {| rows := rows (Events f); cursor := S (cursor (Events f)) |})
    end.
Proof.
  unfold Table_next, unread.
  destruct (rows (Events f) !! cursor (Events f)) as [r |] eqn:Hrow.
  - rewrite (drop_S _ _ _ Hrow). reflexivity.
  - apply lookup_ge_None in Hrow. rewrite drop_ge by exact Hrow. reflexivity.
Qed.

Lemma unread_advance (f : File) (r : Event) (rs : list Event) :
  unread f = r :: rs ->
  unread (set_Events f {| rows := rows (Events f); cursor := S (cursor (Events f)) |}) = rs.
Proof.
  unfold unread. simpl. intros Hu.
  destruct (rows (Events f) !! cursor (Events f)) as [r' |] eqn:Hrow.
  - rewrite (drop_S _ _ _ Hrow) in Hu. congruence.
  - apply lookup_ge_None in Hrow. rewrite drop_ge in Hu by exact Hrow. discriminate.
Qed.

(** *** Ascending lists *)

Lemma ascending_nil : ascending [].
Proof. intros i j e e' _ Hi. rewrite lookup_nil in Hi. discriminate. Qed.

Lemma ascending_cons (e : Event) (es : list Event) :
  ascending (e :: es) <->
  (forall e', e' ∈ es -> event_id e <= event_id e') /\ ascending es.
Proof.
  split.
  - intros Hasc. split.
    + intros e' Hin. apply list_elem_of_lookup in Hin as [j Hj].
      apply (Hasc 0%nat (S j)); [lia | reflexivity | exact Hj].
    + intros i j a b Hij Hi Hj. apply (Hasc (S i) (S j)); [lia | exact Hi | exact Hj].
  - intros [Hhd Htl] i j a b Hij Hi Hj.
    destruct i as [| i], j as [| j]; simpl in Hi, Hj.
    + injection Hi as <-. injection Hj as <-. lia.
    + injection Hi as <-. apply Hhd. apply list_elem_of_lookup. exists j. exact Hj.
    + lia.
    + apply (Htl i j); [lia | exact Hi | exact Hj].
Qed.

(** *** The loop of [__init__] *)

Lemma load_path_events fs s path :
  _events (load_path fs s path) =
    match events_data (fs path) with
    | [] => _events s
    | e :: _ => dict_set path e (_events s)
    end.
Proof.
  unfold load_path, Table_next, File_open. simpl.
  destruct (events_data (fs path)) as [| e es]; simpl; [reflexivity |].
  destruct (camera_config_data (fs path)) as [[| c cs] |]; reflexivity.
Qed.

Lemma load_path_camera_config fs s path :
  _camera_config (load_path fs s path) =
    match first_config (fs path) with
    | Some c => dict_set path c (_camera_config s)
    | None => _camera_config s
    end.
Proof.
  unfold load_path, first_config, Table_next, File_open. simpl.
  destruct (events_data (fs path)) as [| e es]; simpl; [reflexivity |].
  destruct (camera_config_data (fs path)) as [[| c cs] |]; reflexivity.
Qed.

(** The file a path is opened as: its first event, when there is one, has
    been read. *)
Lemma load_path_file fs s path :
  exists f,
    dict_get path (_file (load_path fs s path)) = Some f /\
    unread f = tail (events_data (fs path)) /\
    forall q, path <> q -> dict_get q (_file (load_path fs s path)) = dict_get q (_file s).
Proof.
  unfold load_path, Table_next, File_open. simpl.
  destruct (events_data (fs path)) as [| e es] eqn:He; simpl.
  - eexists. split; [apply dict_get_set_eq |]. split.
    + reflexivity.
    + intros q Hq. apply dict_get_set_ne, Hq.
  - destruct (camera_config_data (fs path)) as [[| c cs] |]; simpl.
    + eexists. split; [apply dict_get_set_eq |]. split.
      * reflexivity.
      * intros q Hq. rewrite !dict_get_set_ne by exact Hq. reflexivity.
    + eexists. split; [apply dict_get_set_eq |]. split.
      * reflexivity.
      * intros q Hq. rewrite !dict_get_set_ne by exact Hq. reflexivity.
    + eexists. split; [apply dict_get_set_eq |]. split.
      * reflexivity.
      * intros q Hq. rewrite !dict_get_set_ne by exact Hq. reflexivity.
Qed.

Lemma load_path_configs_from fs s path :
  configs_from fs s -> configs_from fs (load_path fs s path).
Proof.
  intros Hs p c. rewrite load_path_camera_config.
  destruct (first_config (fs path)) as [c0 |] eqn:Hc; [| apply Hs].
  destruct (decide (path ∈ dict_keys (_camera_config s))) as [Hin | Hout].
  - destruct (dict_keys_split _ _ Hin) as (v & d1 & d2 & Hd & Hd1).
    rewrite Hd, dict_set_middle by exact Hd1.
    intros Hpc. apply elem_of_app in Hpc as [Hpc | Hpc].
    + apply Hs. rewrite Hd. apply elem_of_app. left. exact Hpc.
    + apply elem_of_cons in Hpc as [Heq | Hpc].
      * injection Heq as -> ->. exact Hc.
      * apply Hs. rewrite Hd. apply elem_of_app. right. apply list_elem_of_further, Hpc.
  - rewrite dict_set_absent by exact Hout.
    intros Hpc. apply elem_of_app in Hpc as [Hpc | Hpc]; [apply Hs, Hpc |].
    apply list_elem_of_singleton in Hpc. injection Hpc as -> ->. exact Hc.
Qed.

(** The first record of [_camera_config] after the loop: the one already
    there, or else the one of the first path that gives one. *)
Lemma fold_load_path_first_config fs paths s :
  configs_from fs s ->
  head (dict_values (_camera_config (fold_left (load_path fs) paths s))) =
    match head (dict_values (_camera_config s)) with
    | Some c => Some c
    | None => first_config_of fs paths
    end.
Proof.
  revert s. induction paths as [| path paths IH]; intros s Hs; simpl.
  - destruct (head (dict_values (_camera_config s))); reflexivity.
  - rewrite IH by (apply load_path_configs_from, Hs).
    rewrite load_path_camera_config.
    destruct (first_config (fs path)) as [c0 |] eqn:Hc.
    + destruct (_camera_config s) as [| [p c] d] eqn:Hd; simpl.
      * reflexivity.
      * destruct (decide (path = p)) as [-> | Hne]; simpl; [| reflexivity].
        assert (Hpc : first_config (fs p) = Some c).
        { apply Hs. rewrite Hd. apply list_elem_of_here. }
        congruence.
    + destruct (head (dict_values (_camera_config s))); reflexivity.
Qed.

(** The buffered events after the loop. *)
Lemma fold_load_path_events fs paths s p :
  dict_get p (_events (fold_left (load_path fs) paths s)) =
    if decide (p ∈ paths) then
      match head (events_data (fs p)) with
      | Some e => Some e
      | None => dict_get p (_events s)
      end
    else dict_get p (_events s).
Proof.
  revert s. induction paths as [| path paths IH]; intros s; cbn [fold_left].
  - destruct (decide (p ∈ [])) as [Hin | _]; [| reflexivity].
    apply elem_of_nil in Hin. destruct Hin.
  - rewrite IH, load_path_events.
    destruct (decide (p = path)) as [-> | Hne].
    + destruct (decide (path ∈ path :: paths)) as [_ | Hout];
        [| exfalso; apply Hout, list_elem_of_here].
      destruct (events_data (fs path)) as [| e es]; simpl.
      * destruct (decide (path ∈ paths)); reflexivity.
      * rewrite dict_get_set_eq. destruct (decide (path ∈ paths)); reflexivity.
    + assert (Hget : dict_get p
                (match events_data (fs path) with
                 | [] => _events s
                 | e :: _ => dict_set path e (_events s)
                 end) = dict_get p (_events s)).
      { destruct (events_data (fs path)); [reflexivity |].
        apply dict_get_set_ne. congruence. }
      rewrite Hget.
      destruct (decide (p ∈ paths)) as [Hin | Hout];
        destruct (decide (p ∈ path :: paths)) as [Hin' | Hout']; try reflexivity.
      * exfalso. apply Hout', list_elem_of_further, Hin.
      * exfalso. apply elem_of_cons in Hin' as [Heq | Hin']; [congruence | apply Hout, Hin'].
Qed.

(** C8. The constructor fails for no paths at all and when no file gives a
    configuration record; otherwise it succeeds, a file without a first
    event leaves no buffered event, and the configuration of the object is
    the record of the first path that gave one. *)
Theorem init_outcome (fs : string -> FileData) (paths : list string) :
  (paths = [] ->
   __init__ fs paths = inl (ValueError "`paths` must not be empty")) /\
  (paths <> [] -> first_config_of fs paths = None ->
   __init__ fs paths = inl (IOError "No CameraConfig was found in any of the input files")) /\
  (forall c, paths <> [] -> first_config_of fs paths = Some c ->
   exists mf, __init__ fs paths = inr mf /\
              camera_config mf = c /\
              forall p, dict_get p (_events mf) =
                        if decide (p ∈ paths) then head (events_data (fs p)) else None).
Proof.
  assert (Hhead : head (dict_values (_camera_config (fold_left (load_path fs) paths no_tables)))
                  = first_config_of fs paths).
  { rewrite fold_load_path_first_config; [reflexivity |].
    intros p c Hin. apply elem_of_nil in Hin. destruct Hin. }
  split; [intros ->; reflexivity |].
  split.
  - intros Hne Hnone. unfold __init__.
    destruct paths as [| path paths]; [congruence |]. cbn [length Nat.eqb].
    rewrite Hnone in Hhead.
    destruct (dict_values _) as [| c0 cs]; [reflexivity | discriminate].
  - intros c Hne Hsome. unfold __init__.
    destruct paths as [| path paths]; [congruence |]. cbn [length Nat.eqb].
    rewrite Hsome in Hhead.
    destruct (dict_values _) as [| c0 cs] eqn:Hv; [discriminate |].
    injection Hhead as ->.
    eexists. split; [reflexivity |]. split; [reflexivity |].
    intros p. cbn [self_tables]. rewrite fold_load_path_events. simpl.
    destruct (decide (p ∈ path :: paths)); [| reflexivity].
    destruct (head (events_data (fs p))); reflexivity.
Qed.

Lemma init_outcome_witness :
  ["empty"; "stream2"; "stream1"] <> [] /\
  first_config_of three_streams ["empty"; "stream2"; "stream1"]
    = Some {| configuration_id := 2 |} /\
  exists mf, __init__ three_streams ["empty"; "stream2"; "stream1"] = inr mf /\
             camera_config mf = {| configuration_id := 2 |} /\
             dict_get "empty" (_events mf) = None.
Proof.
  assert (Hne : ["empty"; "stream2"; "stream1"] <> ([] : list string)) by discriminate.
  assert (Hc : first_config_of three_streams ["empty"; "stream2"; "stream1"]
               = Some {| configuration_id := 2 |}) by reflexivity.
  split; [exact Hne |]. split; [exact Hc |].
  destruct (proj2 (proj2 (init_outcome three_streams ["empty"; "stream2"; "stream1"]))
              _ Hne Hc) as (mf & Hmf & Hcfg & Hev).
  exists mf. split; [exact Hmf |]. split; [exact Hcfg |].
  exact (eq_trans (Hev "empty") eq_refl).
Defined.

(** *** The invariants of the object *)

Lemma load_path_coherent fs s path : coherent s -> coherent (load_path fs s path).
Proof.
  intros [Hnd Hfiles]. destruct (load_path_file fs s path) as (f & Hf & _ & Hother).
  assert (Hkeys : forall q, q ∈ dict_keys (_events (load_path fs s path)) ->
                            q = path \/ q ∈ dict_keys (_events s)).
  { intros q. rewrite load_path_events.
    destruct (events_data (fs path)) as [| e es]; [tauto |].
    rewrite dict_keys_set. destruct (decide (path ∈ dict_keys (_events s))); [tauto |].
    rewrite elem_of_app, list_elem_of_singleton. tauto. }
  split.
  - rewrite load_path_events.
    destruct (events_data (fs path)); [exact Hnd | apply dict_set_NoDup, Hnd].
  - intros q Hq. destruct (decide (path = q)) as [<- | Hne].
    + rewrite Hf. eexists. reflexivity.
    + rewrite Hother by exact Hne. apply Hfiles.
      destruct (Hkeys q Hq) as [-> | Hin]; [congruence | exact Hin].
Qed.

Lemma load_path_in_order fs s path :
  ascending (events_data (fs path)) ->
  buffered_in_order s -> buffered_in_order (load_path fs s path).
Proof.
  intros Hasc Hs q e. destruct (load_path_file fs s path) as (f & Hf & Hu & Hother).
  rewrite load_path_events. destruct (decide (path = q)) as [<- | Hne].
  - destruct (events_data (fs path)) as [| e0 es] eqn:He.
    + intros _. exists f. split; [exact Hf |]. rewrite Hu. simpl.
      apply ascending_cons. split; [| apply ascending_nil].
      intros e' Hin. apply elem_of_nil in Hin. destruct Hin.
    + rewrite dict_get_set_eq. intros [= <-].
      exists f. split; [exact Hf |]. rewrite Hu. exact Hasc.
  - rewrite Hother by exact Hne. intros Hget. apply Hs.
    destruct (events_data (fs path)); [exact Hget |].
    rewrite dict_get_set_ne in Hget by exact Hne. exact Hget.
Qed.

Lemma fold_load_path_invariant fs paths s :
  (forall p, p ∈ paths -> ascending (events_data (fs p))) ->
  coherent s -> buffered_in_order s ->
  coherent (fold_left (load_path fs) paths s) /\
  buffered_in_order (fold_left (load_path fs) paths s).
Proof.
  revert s. induction paths as [| path paths IH]; intros s Hasc Hc Ho; simpl.
  - split; assumption.
  - apply IH.
    + intros p Hp. apply Hasc, list_elem_of_further, Hp.
    + apply load_path_coherent, Hc.
    + apply load_path_in_order; [apply Hasc, list_elem_of_here | exact Ho].
Qed.

Lemma init_tables fs paths mf :
  __init__ fs paths = inr mf ->
  self_tables mf = fold_left (load_path fs) paths no_tables.
Proof.
  unfold __init__. destruct (length paths =? 0)%nat; [discriminate |].
  destruct (dict_values _); [discriminate |]. intros [= <-]. reflexivity.
Qed.

Lemma init_invariant fs paths mf :
  __init__ fs paths = inr mf ->
  (forall p, p ∈ paths -> ascending (events_data (fs p))) ->
  coherent mf /\ buffered_in_order mf.
Proof.
  intros Hinit Hasc. rewrite (init_tables _ _ _ Hinit).
  apply fold_load_path_invariant; [exact Hasc | |].
  - split; [apply NoDup_nil_2 |]. intros p Hp. apply elem_of_nil in Hp. destruct Hp.
  - intros p e Hget. discriminate.
Qed.

(** *** One call of [next_event] *)

Lemma NoDup_keys_middle (p : string) (e : Event) (l1 l2 : dict string Event) :
  NoDup (dict_keys (l1 ++ (p, e) :: l2)) ->
  (p ∉ dict_keys l1) /\ (p ∉ dict_keys l2) /\ NoDup (dict_keys (l1 ++ l2)).
Proof.
  unfold dict_keys. rewrite !map_app. simpl. intros Hnd.
  apply NoDup_app in Hnd as (Hnd1 & Hdisj & Hnd2).
  apply NoDup_cons in Hnd2 as [Hp2 Hnd2].
  split; [| split].
  - intros Hin. apply (Hdisj p Hin), list_elem_of_here.
  - exact Hp2.
  - apply NoDup_app. split; [exact Hnd1 |]. split; [| exact Hnd2].
    intros x Hx Hx'. apply (Hdisj x Hx), list_elem_of_further, Hx'.
Qed.

(** What a call does with a buffer that is not empty. *)
Lemma next_event_step (s : MultiFiles) :
  coherent s -> _events s <> [] ->
  exists p e l1 l2 f,
    _events s = l1 ++ (p, e) :: l2 /\
    (forall x, x ∈ l1 -> event_id e < event_id (snd x)) /\
    (forall x, x ∈ l2 -> event_id e <= event_id (snd x)) /\
    dict_get p (_file s) = Some f /\
    exists s', next_event s = (inr e, s') /\
      camera_config s' = camera_config s /\
      _camera_config s' = _camera_config s /\
      match unread f with
      | [] => _events s' = l1 ++ l2 /\ _file s' = _file s
      | r :: _ =>
          _events s' = l1 ++ (p, r) :: l2 /\
          _file s' =
            dict_set p (set_Events f {| rows := rows (Events f);
                                        cursor := S (cursor (Events f)) |}) (_file s)
      end.
Proof.
  intros [Hnd Hfiles] Hne. unfold next_event.
  destruct (_events s) as [| item items] eqn:Hev; [congruence |].
  destruct (py_min_first (fun it => event_id (snd it)) item items)
    as (l1 & l2 & Hsplit & Hbefore & Hafter).
  destruct (py_min _ item items) as [p e] eqn:Hmin. simpl in Hbefore, Hafter.
  rewrite Hsplit in Hnd |- *.
  destruct (NoDup_keys_middle _ _ _ _ Hnd) as (Hp1 & Hp2 & _).
  assert (Hf : is_Some (dict_get p (_file s))).
  { apply Hfiles. rewrite Hsplit. unfold dict_keys. rewrite map_app.
    apply elem_of_app. right. apply list_elem_of_here. }
  destruct Hf as [f Hf].
  exists p, e, l1, l2, f.
  split; [reflexivity |]. split; [exact Hbefore |]. split; [exact Hafter |].
  split; [exact Hf |].
  cbn [fst]. rewrite dict_get_middle by exact Hp1. rewrite Hf.
  rewrite Table_next_unread.
  destruct (unread f) as [| r rs].
  - eexists. split; [reflexivity |]. split; [reflexivity |]. split; [reflexivity |].
    split; [| reflexivity].
    unfold update, with_events. cbn [_events self_tables].
    apply dict_del_middle, Hp1.
  - eexists. split; [reflexivity |]. split; [reflexivity |]. split; [reflexivity |].
    split; [| reflexivity].
    unfold update, with_events, with_file. cbn [_events self_tables].
    rewrite Hev, Hsplit. apply dict_set_middle, Hp1.
Qed.

Lemma next_event_stop (s : MultiFiles) :
  _events s = [] -> next_event s = (inl StopIteration, s).
Proof. intros He. unfold next_event. rewrite He. reflexivity. Qed.

(** A call keeps the invariants, and nothing buffered after it is below
    the event it returned. *)
Lemma next_event_invariant (s s' : MultiFiles) (e : Event) :
  coherent s -> buffered_in_order s -> next_event s = (inr e, s') ->
  coherent s' /\ buffered_in_order s' /\ bounded_below (event_id e) s' /\
  (exists p, dict_get p (_events s) = Some e) /\
  pending s = S (pending s').
Proof.
  intros Hc Ho Hnext.
  assert (Hne : _events s <> []).
  { intros Hev. rewrite (next_event_stop s Hev) in Hnext. discriminate. }
  destruct (next_event_step s Hc Hne) as
    (p & e0 & l1 & l2 & f & Hsplit & Hbefore & Hafter & Hf & s0 & Hs0 & _ & _ & Hnew).
  rewrite Hs0 in Hnext. injection Hnext as -> ->.
  destruct Hc as [Hnd Hfiles]. rewrite Hsplit in Hnd.
  destruct (NoDup_keys_middle _ _ _ _ Hnd) as (Hp1 & Hp2 & Hnd').
  assert (Hpe : dict_get p (_events s) = Some e).
  { rewrite Hsplit. apply dict_get_middle, Hp1. }
  destruct (Ho p e Hpe) as (f' & Hf' & Hasc). rewrite Hf in Hf'. injection Hf' as <-.
  apply ascending_cons in Hasc as [Hlow Hasc].
  assert (Hothers : forall q e', (q, e') ∈ l1 ++ l2 -> event_id e <= event_id e').
  { intros q e' Hin. apply elem_of_app in Hin as [Hin | Hin].
    - specialize (Hbefore _ Hin). simpl in Hbefore. lia.
    - apply (Hafter _ Hin). }
  assert (Hkeys : forall q, q ∈ dict_keys (l1 ++ l2) -> q ∈ dict_keys (_events s) /\ q <> p).
  { intros q Hq. unfold dict_keys in *. rewrite Hsplit, map_app in *. simpl.
    apply elem_of_app in Hq as [Hq | Hq].
    - split; [apply elem_of_app; left; exact Hq | intros ->; exact (Hp1 Hq)].
    - split; [apply elem_of_app; right; apply list_elem_of_further, Hq
             | intros ->; exact (Hp2 Hq)]. }
  assert (Hweight : forall files,
            (forall q, q <> p -> dict_get q files = dict_get q (_file s)) ->
            weight files (l1 ++ l2) = weight (_file s) (l1 ++ l2)).
  { intros files Hsame. generalize Hkeys. generalize (l1 ++ l2).
    induction l as [| [q e'] l IH]; intros Hl; simpl; [reflexivity |].
    unfold unread_of. rewrite Hsame.
    - rewrite IH; [reflexivity |].
      intros k Hk. apply Hl. simpl. apply list_elem_of_further, Hk.
    - apply (Hl q). simpl. apply list_elem_of_here. }
  assert (Hwsplit : forall files v,
            weight files (l1 ++ (p, v) :: l2)
            = S (length (unread_of files p) + weight files (l1 ++ l2))).
  { intros files v. clear. induction l1 as [| [q e'] l1 IH]; simpl; [reflexivity |].
    rewrite IH. lia. }
  destruct (unread f) as [| r rs] eqn:Hu; destruct Hnew as [Hev' Hfile'].
  - (* the file of [p] is exhausted *)
    split; [| split; [| split; [| split]]].
    + split; [rewrite Hev'; exact Hnd' |].
      intros q Hq. rewrite Hfile'. apply Hfiles. rewrite Hev' in Hq. apply Hkeys, Hq.
    + intros q e' Hget. rewrite Hfile'. apply Ho.
      rewrite Hev' in Hget.
      destruct (Hkeys q (dict_get_Some_keys _ _ _ Hget)) as [_ Hqp].
      rewrite Hsplit. rewrite <- (dict_del_middle p e l1 l2 Hp1) in Hget.
      rewrite dict_get_del_ne in Hget by congruence. exact Hget.
    + intros q e' Hget. rewrite Hev' in Hget.
      apply (Hothers q), dict_get_elem, Hget.
    + exists p. exact Hpe.
    + unfold pending. rewrite Hev', Hfile', Hsplit, Hwsplit.
      unfold unread_of. rewrite Hf, Hu. reflexivity.
  - (* the next row of the file of [p] is buffered *)
    assert (Hget' : forall q, dict_get q (_events s')
                              = if decide (p = q) then Some r else dict_get q (_events s)).
    { intros q. rewrite Hev', Hsplit.
      rewrite <- (dict_set_middle p e r l1 l2 Hp1).
      destruct (decide (p = q)) as [<- | Hpq].
      - apply dict_get_set_eq.
      - apply dict_get_set_ne, Hpq. }
    split; [| split; [| split; [| split]]].
    + split.
      * rewrite Hev'. unfold dict_keys in *. rewrite map_app in *. exact Hnd.
      * intros q Hq. rewrite Hfile'. destruct (decide (p = q)) as [<- | Hpq].
        -- rewrite dict_get_set_eq. eexists. reflexivity.
        -- rewrite dict_get_set_ne by exact Hpq. apply Hfiles.
           rewrite Hev' in Hq. rewrite Hsplit.
           unfold dict_keys in *. rewrite map_app in *. exact Hq.
    + intros q e' Hget. rewrite Hget' in Hget. rewrite Hfile'.
      destruct (decide (p = q)) as [<- | Hpq].
      * injection Hget as <-. rewrite dict_get_set_eq. eexists. split; [reflexivity |].
        rewrite (unread_advance f r rs Hu). exact Hasc.
      * rewrite dict_get_set_ne by exact Hpq. apply Ho, Hget.
    + intros q e' Hget. rewrite Hget' in Hget.
      destruct (decide (p = q)) as [<- | Hpq].
      * injection Hget as <-. apply Hlow, list_elem_of_here.
      * apply dict_get_elem in Hget. rewrite Hsplit in Hget.
        apply elem_of_app in Hget as [Hin | Hin].
        -- apply (Hothers q), elem_of_app. left. exact Hin.
        -- apply elem_of_cons in Hin as [Heq | Hin]; [congruence |].
           apply (Hothers q), elem_of_app. right. exact Hin.
    + exists p. exact Hpe.
    + unfold pending. rewrite Hev', Hfile', Hsplit, !Hwsplit.
      rewrite (Hweight (dict_set p _ (_file s)))
        by (intros q Hq; apply dict_get_set_ne; congruence).
      unfold unread_of. rewrite dict_get_set_eq, Hf, Hu.
      rewrite (unread_advance f r rs Hu). reflexivity.
Qed.

Lemma served_invariant (mf s : MultiFiles) :
  coherent mf -> buffered_in_order mf -> served mf s ->
  coherent s /\ buffered_in_order s.
Proof.
  intros Hc Ho Hs. induction Hs as [| s r s' Hs IH Hnext]; [split; assumption |].
  destruct IH as [Hcs Hos]. destruct r as [err | e].
  - unfold next_event in Hnext.
    destruct (_events s) as [| item items] eqn:Hev.
    + injection Hnext as _ <-. split; assumption.
    + destruct (next_event_step s Hcs) as (? & ? & ? & ? & ? & _ & _ & _ & _ & s0 & Hs0 & _);
        [rewrite Hev; discriminate |].
      unfold next_event in Hs0. rewrite Hev in Hs0. rewrite Hs0 in Hnext. discriminate.
  - destruct (next_event_invariant s s' e Hcs Hos Hnext) as (H1 & H2 & _). split; assumption.
Qed.

(** *** The whole pass *)

Lemma consume_ascending (fuel : nat) (s : MultiFiles) :
  coherent s -> buffered_in_order s ->
  (forall bound, bounded_below bound s ->
                 forall e, e ∈ fst (consume fuel s) -> bound <= event_id e) /\
  ascending (fst (consume fuel s)).
Proof.
  revert s. induction fuel as [| fuel IH]; intros s Hc Ho; simpl.
  - split; [| apply ascending_nil]. intros bound _ e He. apply elem_of_nil in He. destruct He.
  - destruct (next_event s) as [[err | e] s'] eqn:Hnext; simpl.
    + split; [| apply ascending_nil].
      intros bound _ e He. apply elem_of_nil in He. destruct He.
    + destruct (next_event_invariant s s' e Hc Ho Hnext) as (Hc' & Ho' & Hb' & [p Hp] & _).
      destruct (IH s' Hc' Ho') as [Hlow Hasc]. specialize (Hlow (event_id e) Hb').
      destruct (consume fuel s') as [es s''] eqn:Hrest. simpl in *.
      split.
      * intros bound Hb x Hx. specialize (Hb p e Hp).
        apply elem_of_cons in Hx as [-> | Hx]; [exact Hb |].
        specialize (Hlow x Hx). lia.
      * apply ascending_cons. split; assumption.
Qed.

Lemma pending_0 (s : tables) : pending s = 0%nat -> _events s = [].
Proof.
  unfold pending. destruct (_events s) as [| [p e] l]; [reflexivity | discriminate].
Qed.

Lemma consume_all (fuel : nat) (s : MultiFiles) :
  coherent s -> buffered_in_order s -> (pending s <= fuel)%nat ->
  _events (snd (consume fuel s)) = [] /\ length (fst (consume fuel s)) = pending s.
Proof.
  revert s. induction fuel as [| fuel IH]; intros s Hc Ho Hfuel; simpl.
  - assert (Hp : pending s = 0%nat) by lia. split; [apply pending_0, Hp | symmetry; exact Hp].
  - destruct (_events s) as [| item items] eqn:Hev.
    + rewrite (next_event_stop s Hev). simpl. split; [exact Hev |].
      unfold pending. rewrite Hev. reflexivity.
    + destruct (next_event_step s Hc) as (? & e & ? & ? & ? & _ & _ & _ & _ & s' & Hs' & _);
        [rewrite Hev; discriminate |].
      rewrite Hs'.
      destruct (next_event_invariant s s' e Hc Ho Hs') as (Hc' & Ho' & _ & _ & Hpend).
      destruct (IH s' Hc' Ho') as [Hend Hlen]; [lia |].
      destruct (consume fuel s') as [es s'']. simpl in *.
      split; [exact Hend | lia].
Qed.

(** C3. On an object built from substreams that are each sorted by event
    id, every call of [next_event] returns the buffered event with the
    smallest event id, the first such in the order the substreams were
    registered, and puts the next row of that substream in its place, or
    drops the substream when it has no further row; with nothing buffered
    the call raises [StopIteration]. The events of a whole pass are
    therefore in non-decreasing order of event id. *)
Theorem next_event_merges (fs : string -> FileData) (paths : list string) (mf : MultiFiles) :
  __init__ fs paths = inr mf ->
  (forall p, p ∈ paths -> ascending (events_data (fs p))) ->
  (forall s, served mf s ->
     (_events s = [] -> next_event s = (inl StopIteration, s)) /\
     (_events s <> [] ->
      exists p e l1 l2 f s',
        _events s = l1 ++ (p, e) :: l2 /\
        (forall x, x ∈ l1 -> event_id e < event_id (snd x)) /\
        (forall x, x ∈ l2 -> event_id e <= event_id (snd x)) /\
        dict_get p (_file s) = Some f /\
        next_event s = (inr e, s') /\
        _events s' = match unread f with
                     | [] => l1 ++ l2
                     | r :: _ => l1 ++ (p, r) :: l2
                     end /\
        forall q, unread_of (_file s') q
                  = if decide (p = q) then tail (unread f) else unread_of (_file s) q)) /\
  (forall fuel, (pending mf <= fuel)%nat ->
     ascending (fst (consume fuel mf)) /\
     length (fst (consume fuel mf)) = pending mf /\
     _events (snd (consume fuel mf)) = []).
Proof.
  intros Hinit Hsorted. destruct (init_invariant fs paths mf Hinit Hsorted) as [Hc Ho].
  split.
  - intros s Hs. destruct (served_invariant mf s Hc Ho Hs) as [Hcs Hos].
    split; [apply next_event_stop |].
    intros Hne.
    destruct (next_event_step s Hcs Hne) as
      (p & e & l1 & l2 & f & Hsplit & Hbefore & Hafter & Hf & s' & Hs' & _ & _ & Hnew).
    exists p, e, l1, l2, f, s'.
    split; [exact Hsplit |]. split; [exact Hbefore |]. split; [exact Hafter |].
    split; [exact Hf |]. split; [exact Hs' |].
    destruct (unread f) as [| r rs] eqn:Hu; destruct Hnew as [Hev' Hfile'].
    + split; [exact Hev' |]. intros q. rewrite Hfile'.
      destruct (decide (p = q)) as [<- | Hpq]; [| reflexivity].
      unfold unread_of. rewrite Hf, Hu. reflexivity.
    + split; [exact Hev' |]. intros q. rewrite Hfile'. unfold unread_of.
      destruct (decide (p = q)) as [<- | Hpq].
      * rewrite dict_get_set_eq. apply (unread_advance f r rs Hu).
      * rewrite dict_get_set_ne by exact Hpq. reflexivity.
  - intros fuel Hfuel.
    destruct (consume_all fuel mf Hc Ho Hfuel) as [Hend Hlen].
    split; [| split; assumption].
    apply (consume_ascending fuel mf Hc Ho).
Qed.

(** A list written out is ascending when its neighbours are in order. *)
Ltac ascending_list :=
  repeat (apply ascending_cons; split;
          [ let e := fresh "e" in
            let He := fresh "He" in
            intros e He;
            repeat (apply elem_of_cons in He as [-> | He]; [simpl; lia |]);
            apply elem_of_nil in He; destruct He
          | ]);
  apply ascending_nil.

Lemma three_streams_ascending (p : string) :
  p ∈ ["stream1"; "stream2"; "stream3"] -> ascending (events_data (three_streams p)).
Proof.
  intros Hp.
  repeat (apply elem_of_cons in Hp as [-> | Hp]; [simpl; ascending_list |]).
  apply elem_of_nil in Hp. destruct Hp.
Defined.

Lemma next_event_merges_witness :
  exists mf,
    __init__ three_streams ["stream1"; "stream2"; "stream3"] = inr mf /\
    (forall p, p ∈ ["stream1"; "stream2"; "stream3"] ->
               ascending (events_data (three_streams p))) /\
    event_id <$> fst (consume 9 mf) = [1; 2; 3; 4; 5; 6; 7; 8; 9] /\
    ascending (fst (consume 9 mf)) /\
    _events (snd (consume 9 mf)) = [].
Proof.
  eexists. split; [reflexivity |]. split; [exact three_streams_ascending |].
  split; [reflexivity |].
  destruct (proj2 (next_event_merges three_streams ["stream1"; "stream2"; "stream3"] _
                     eq_refl three_streams_ascending) 9%nat) as (Hasc & _ & Hend).
  - vm_compute. lia.
  - split; [exact Hasc | exact Hend].
Defined.

(** *** Rewinding *)

(** [rewind] puts the reader of every open file back at its first row and
    opens no file. *)
Lemma rewind_cursors (s : MultiFiles) (p : string) :
  dict_get p (_file (rewind s)) =
    (fun f => set_Events f {| rows := rows (Events f); cursor := 0 |}) <$> dict_get p (_file s).
Proof.
  unfold rewind. cbn [_file self_tables update with_file].
  induction (_file s) as [| [k f] d IH]; [reflexivity |].
  cbn [map dict_get fst snd]. destruct (decide (p = k)); [reflexivity | exact IH].
Qed.

(** It leaves the buffered events as they are. *)
Lemma rewind_events (s : MultiFiles) : _events (rewind s) = _events s.
Proof. reflexivity. Qed.

(** With nothing buffered, as after a whole pass, a pass after [rewind]
    hands out nothing. *)
Lemma consume_after_rewind (fuel : nat) (s : MultiFiles) :
  _events s = [] -> fst (consume fuel (rewind s)) = [].
Proof.
  intros He. destruct fuel as [| fuel]; [reflexivity |].
  cbn [consume]. rewrite next_event_stop by (rewrite rewind_events; exact He).
  reflexivity.
Qed.

Lemma second_pass_is_empty (fs : string -> FileData) (paths : list string)
    (mf : MultiFiles) (fuel : nat) :
  __init__ fs paths = inr mf ->
  (forall p, p ∈ paths -> ascending (events_data (fs p))) ->
  (pending mf <= fuel)%nat ->
  snd (two_passes fuel mf) = [].
Proof.
  intros Hinit Hsorted Hfuel. unfold two_passes.
  destruct (init_invariant fs paths mf Hinit Hsorted) as [Hc Ho].
  destruct (consume_all fuel mf Hc Ho Hfuel) as [Hend _].
  destruct (consume fuel mf) as [first s] eqn:Hfirst. cbn [snd] in Hend.
  pose proof (consume_after_rewind fuel s Hend) as Hsecond.
  destruct (consume fuel (rewind s)) as [second s']. cbn [fst snd] in *.
  rewrite Hsecond. reflexivity.
Qed.

(** C7, on the code. Three substreams with the events 1 to 9: the first
    pass hands out 1 to 9, and the pass after [rewind] hands out nothing. *)
Theorem second_pass_after_rewind :
  exists mf,
    __init__ three_streams ["stream1"; "stream2"; "stream3"] = inr mf /\
    two_passes 10 mf = ([1; 2; 3; 4; 5; 6; 7; 8; 9], []).
Proof. eexists. split; reflexivity. Qed.

(** *** The paths, each once *)

Lemma add_key_elem (keys : list string) (p q : string) :
  q ∈ add_key keys p <-> q = p \/ q ∈ keys.
Proof.
  unfold add_key. destruct (decide (p ∈ keys)) as [Hin | Hout].
  - split; [tauto |]. intros [-> | H]; assumption.
  - rewrite elem_of_app, list_elem_of_singleton. tauto.
Qed.

Lemma add_key_NoDup (keys : list string) (p : string) : NoDup keys -> NoDup (add_key keys p).
Proof.
  intros Hnd. unfold add_key. destruct (decide (p ∈ keys)) as [Hin | Hout]; [exact Hnd |].
  apply NoDup_app. split; [exact Hnd |]. split; [| apply NoDup_singleton].
  intros x Hx Hx'. apply list_elem_of_singleton in Hx'. congruence.
Qed.

Lemma fold_add_key (paths keys : list string) :
  NoDup keys ->
  NoDup (fold_left add_key paths keys) /\
  forall q, q ∈ fold_left add_key paths keys <-> q ∈ paths \/ q ∈ keys.
Proof.
  revert keys. induction paths as [| p paths IH]; intros keys Hnd; simpl.
  - split; [exact Hnd |]. intros q. rewrite elem_of_nil. tauto.
  - destruct (IH (add_key keys p) (add_key_NoDup keys p Hnd)) as [Hnd' Hin].
    split; [exact Hnd' |]. intros q. rewrite Hin, add_key_elem, elem_of_cons. tauto.
Qed.

Lemma distinct_NoDup (paths : list string) : NoDup (distinct paths).
Proof. apply fold_add_key, NoDup_nil_2. Qed.

Lemma distinct_elem (paths : list string) (q : string) : q ∈ distinct paths <-> q ∈ paths.
Proof.
  unfold distinct. rewrite (proj2 (fold_add_key paths [] (NoDup_nil_2))), elem_of_nil. tauto.
Qed.

Lemma add_key_filter (P : string -> Prop) `{forall p, Decision (P p)} (keys : list string) (p : string) :
  filter P (add_key keys p) = if decide (P p) then add_key (filter P keys) p else filter P keys.
Proof.
  unfold add_key. destruct (decide (P p)) as [Hp | Hp].
  - destruct (decide (p ∈ keys)) as [Hin | Hout].
    + rewrite decide_True by (apply list_elem_of_filter; split; assumption). reflexivity.
    + rewrite decide_False by (rewrite list_elem_of_filter; tauto).
      rewrite filter_app, filter_cons_True by exact Hp. reflexivity.
  - destruct (decide (p ∈ keys)) as [Hin | Hout]; [reflexivity |].
    rewrite filter_app, filter_cons_False by exact Hp. rewrite filter_nil. apply app_nil_r.
Qed.

(** *** The rows of the open files *)

Lemma contents_keys (s : tables) : dict_keys (contents s) = dict_keys (_file s).
Proof. unfold contents, dict_keys. rewrite map_map. reflexivity. Qed.

Lemma contents_get (s : tables) (p : string) :
  dict_get p (contents s) = (fun f => rows (Events f)) <$> dict_get p (_file s).
Proof. apply (dict_get_map (fun f => rows (Events f))). Qed.

Lemma len_contents (s : MultiFiles) :
  __len__ s = length (concat (map snd (contents s))).
Proof.
  unfold __len__, contents, dict_values.
  induction (_file s) as [| [k f] d IH]; [reflexivity |].
  cbn [map foldr concat snd]. rewrite length_app, IH. reflexivity.
Qed.

Lemma num_inputs_contents (s : MultiFiles) : num_inputs s = length (contents s).
Proof. unfold num_inputs, contents. rewrite length_map. reflexivity. Qed.

Lemma load_path_contents fs s path :
  contents (load_path fs s path) = dict_set path (events_data (fs path)) (contents s).
Proof.
  unfold contents, load_path, Table_next, File_open. simpl.
  destruct (events_data (fs path)) as [| e es]; simpl.
  - rewrite (dict_set_map (fun f => rows (Events f))). reflexivity.
  - destruct (camera_config_data (fs path)) as [[| c cs] |]; simpl;
      rewrite ?(dict_set_map (fun f => rows (Events f))); simpl;
      rewrite ?dict_set_set; reflexivity.
Qed.

Lemma dict_set_tabulate {V : Type} (h : string -> V) (keys : list string) (p : string) :
  dict_set p (h p) (map (fun q => (q, h q)) keys) = map (fun q => (q, h q)) (add_key keys p).
Proof.
  unfold add_key. induction keys as [| k keys IH]; simpl.
  - destruct (decide (p ∈ [])) as [Hin | _]; [| reflexivity].
    apply elem_of_nil in Hin. destruct Hin.
  - destruct (decide (p = k)) as [-> | Hne].
    + rewrite decide_True by apply list_elem_of_here. reflexivity.
    + rewrite IH. destruct (decide (p ∈ keys)) as [Hin | Hout].
      * rewrite decide_True by (apply list_elem_of_further, Hin). reflexivity.
      * rewrite decide_False by (rewrite elem_of_cons; tauto). reflexivity.
Qed.

Lemma fold_load_path_contents fs paths s keys :
  contents s = map (fun p => (p, events_data (fs p))) keys ->
  contents (fold_left (load_path fs) paths s)
  = map (fun p => (p, events_data (fs p))) (fold_left add_key paths keys).
Proof.
  revert s keys. induction paths as [| path paths IH]; intros s keys Hs; simpl; [exact Hs |].
  apply IH. rewrite load_path_contents, Hs.
  apply (dict_set_tabulate (fun p => events_data (fs p))).
Qed.

Lemma init_contents fs paths mf :
  __init__ fs paths = inr mf ->
  contents mf = map (fun p => (p, events_data (fs p))) (distinct paths).
Proof.
  intros Hinit. rewrite (init_tables _ _ _ Hinit).
  apply fold_load_path_contents. reflexivity.
Qed.

Lemma init_file_keys fs paths mf :
  __init__ fs paths = inr mf -> dict_keys (_file mf) = distinct paths.
Proof.
  intros Hinit. rewrite <- contents_keys, (init_contents _ _ _ Hinit).
  unfold dict_keys. rewrite map_map. apply map_id.
Qed.

(** *** What is buffered and unread after the loop of [__init__] *)

Lemma load_path_event_keys fs s path :
  dict_keys (_events s)
  = filter (fun p => is_Some (head (events_data (fs p)))) (dict_keys (_file s)) ->
  dict_keys (_events (load_path fs s path))
  = filter (fun p => is_Some (head (events_data (fs p)))) (dict_keys (_file (load_path fs s path))).
Proof.
  intros Hs.
  rewrite <- (contents_keys (load_path fs s path)), load_path_contents, dict_keys_set,
    contents_keys.
  fold (add_key (dict_keys (_file s)) path). rewrite add_key_filter, load_path_events.
  destruct (events_data (fs path)) as [| e es]; simpl.
  - exact Hs.
  - rewrite dict_keys_set, Hs. reflexivity.
Qed.

Lemma fold_load_path_event_keys fs paths s :
  dict_keys (_events s)
  = filter (fun p => is_Some (head (events_data (fs p)))) (dict_keys (_file s)) ->
  dict_keys (_events (fold_left (load_path fs) paths s))
  = filter (fun p => is_Some (head (events_data (fs p))))
      (dict_keys (_file (fold_left (load_path fs) paths s))).
Proof.
  revert s. induction paths as [| path paths IH]; intros s Hs; simpl; [exact Hs |].
  apply IH, load_path_event_keys, Hs.
Qed.

Lemma init_event_keys fs paths mf :
  __init__ fs paths = inr mf ->
  dict_keys (_events mf) = filter (fun p => is_Some (head (events_data (fs p)))) (distinct paths).
Proof.
  intros Hinit. rewrite <- (init_file_keys _ _ _ Hinit), (init_tables _ _ _ Hinit).
  apply fold_load_path_event_keys. reflexivity.
Qed.

Lemma fold_load_path_unread fs paths s p :
  unread_of (_file (fold_left (load_path fs) paths s)) p =
    if decide (p ∈ paths) then tail (events_data (fs p)) else unread_of (_file s) p.
Proof.
  revert s. induction paths as [| path paths IH]; intros s; cbn [fold_left].
  - rewrite decide_False by apply not_elem_of_nil. reflexivity.
  - rewrite IH. destruct (load_path_file fs s path) as (f & Hf & Hu & Hother).
    destruct (decide (p ∈ paths)) as [Hin | Hout].
    + rewrite decide_True by (apply list_elem_of_further, Hin). reflexivity.
    + destruct (decide (path = p)) as [<- | Hne].
      * rewrite decide_True by apply list_elem_of_here.
        unfold unread_of. rewrite Hf. exact Hu.
      * rewrite decide_False by (rewrite elem_of_cons; intros [? | ?]; congruence).
        unfold unread_of. rewrite Hother by exact Hne. reflexivity.
Qed.

Lemma init_stream fs paths mf p :
  __init__ fs paths = inr mf ->
  stream mf p = if decide (p ∈ paths) then events_data (fs p) else [].
Proof.
  intros Hinit. unfold stream. rewrite (init_tables _ _ _ Hinit).
  rewrite fold_load_path_events, fold_load_path_unread.
  destruct (decide (p ∈ paths)); [| reflexivity].
  destruct (events_data (fs p)); reflexivity.
Qed.

Lemma init_remaining fs paths mf :
  __init__ fs paths = inr mf -> remaining mf = all_events fs paths.
Proof.
  intros Hinit. unfold remaining, all_events. rewrite (init_event_keys _ _ _ Hinit).
  assert (H : forall keys, (forall p, p ∈ keys -> p ∈ paths) ->
            concat (map (stream mf) (filter (fun p => is_Some (head (events_data (fs p)))) keys))
            = concat (map (fun p => events_data (fs p)) keys)).
  { induction keys as [| k keys IH]; intros Hkeys; [reflexivity |].
    assert (IH' := IH (fun p Hp => Hkeys p (list_elem_of_further _ _ _ Hp))).
    cbn [map concat]. destruct (events_data (fs k)) as [| e es] eqn:Hk.
    - rewrite filter_cons_False by (rewrite Hk; intros [? [=]]). exact IH'.
    - rewrite filter_cons_True by (rewrite Hk; eexists; reflexivity).
      cbn [map concat]. rewrite IH', (init_stream _ _ _ _ Hinit).
      rewrite decide_True by apply Hkeys, list_elem_of_here. rewrite Hk. reflexivity. }
  apply H. intros p. apply distinct_elem.
Qed.

(** *** One call, in terms of what is still to come *)

Lemma next_event_raised (s s' : MultiFiles) (e : exn) :
  next_event s = (inl e, s') -> s' = s.
Proof.
  unfold next_event. repeat case_match; intros [= _ <-]; reflexivity.
Qed.

Lemma next_event_streams (s s' : MultiFiles) (e : Event) :
  coherent s -> next_event s = (inr e, s') ->
  coherent s' /\
  exists p l1 l2,
    dict_keys (_events s) = l1 ++ p :: l2 /\
    (p ∉ l1) /\ (p ∉ l2) /\
    dict_keys (_events s') = l1 ++ match stream s' p with [] => [] | _ :: _ => [p] end ++ l2 /\
    stream s p = e :: stream s' p /\
    forall q, q <> p -> stream s' q = stream s q.
Proof.
  intros Hc Hnext.
  assert (Hne : _events s <> []).
  { intros Hev. rewrite (next_event_stop s Hev) in Hnext. discriminate. }
  destruct (next_event_step s Hc Hne) as
    (p & e0 & l1 & l2 & f & Hsplit & _ & _ & Hf & s0 & Hs0 & _ & _ & Hnew).
  rewrite Hs0 in Hnext. injection Hnext as -> ->.
  destruct Hc as [Hnd Hfiles]. rewrite Hsplit in Hnd.
  destruct (NoDup_keys_middle _ _ _ _ Hnd) as (Hp1 & Hp2 & Hnd').
  assert (Hkeys : dict_keys (_events s) = dict_keys l1 ++ p :: dict_keys l2).
  { rewrite Hsplit. unfold dict_keys. rewrite map_app. reflexivity. }
  assert (Hsp : stream s p = e :: unread f).
  { unfold stream, unread_of. rewrite Hsplit, dict_get_middle, Hf by exact Hp1. reflexivity. }
  destruct (unread f) as [| r rs] eqn:Hu; destruct Hnew as [Hev' Hfile'].
  - assert (Hget : forall q, q <> p -> dict_get q (_events s') = dict_get q (_events s)).
    { intros q Hq. rewrite Hev', Hsplit, <- (dict_del_middle p e l1 l2 Hp1).
      apply dict_get_del_ne. congruence. }
    assert (Hsp' : stream s' p = []).
    { unfold stream. rewrite Hev'.
      assert (Hnone : dict_get p (l1 ++ l2) = None).
      { apply dict_get_None. unfold dict_keys. rewrite map_app, elem_of_app. tauto. }
      rewrite Hnone. reflexivity. }
    split.
    + split; [rewrite Hev'; exact Hnd' |].
      intros q Hq. rewrite Hfile'. apply Hfiles. rewrite Hev' in Hq.
      rewrite Hkeys. unfold dict_keys in Hq. rewrite map_app in Hq.
      apply elem_of_app in Hq as [Hq | Hq]; apply elem_of_app; [left; exact Hq |].
      right. apply list_elem_of_further, Hq.
    + exists p, (dict_keys l1), (dict_keys l2).
      split; [exact Hkeys |]. split; [exact Hp1 |]. split; [exact Hp2 |].
      rewrite Hsp'. split; [rewrite Hev'; unfold dict_keys; apply map_app |].
      split; [exact Hsp |].
      intros q Hq. unfold stream. rewrite (Hget q Hq), Hfile'. reflexivity.
  - assert (Hget : forall q, q <> p -> dict_get q (_events s') = dict_get q (_events s)).
    { intros q Hq. rewrite Hev', Hsplit, <- (dict_set_middle p e r l1 l2 Hp1).
      apply dict_get_set_ne. congruence. }
    assert (Hsp' : stream s' p = r :: rs).
    { unfold stream, unread_of. rewrite Hev', dict_get_middle by exact Hp1.
      rewrite Hfile', dict_get_set_eq, (unread_advance f r rs Hu). reflexivity. }
    split.
    + split.
      * rewrite Hev'. unfold dict_keys in *. rewrite map_app in *. exact Hnd.
      * intros q Hq. rewrite Hfile'. destruct (decide (p = q)) as [<- | Hpq].
        -- rewrite dict_get_set_eq. eexists. reflexivity.
        -- rewrite dict_get_set_ne by exact Hpq. apply Hfiles.
           rewrite Hev' in Hq. rewrite Hsplit.
           unfold dict_keys in *. rewrite map_app in *. exact Hq.
    + exists p, (dict_keys l1), (dict_keys l2).
      split; [exact Hkeys |]. split; [exact Hp1 |]. split; [exact Hp2 |].
      rewrite Hsp'. split; [rewrite Hev'; unfold dict_keys; apply map_app |].
      split; [exact Hsp |].
      intros q Hq. unfold stream, unread_of. rewrite (Hget q Hq), Hfile'.
      rewrite dict_get_set_ne by congruence. reflexivity.
Qed.

Lemma next_event_remaining (s s' : MultiFiles) (e : Event) :
  coherent s -> next_event s = (inr e, s') ->
  coherent s' /\
  remaining s ≡ₚ e :: remaining s' /\
  forall q es, stream s' q `sublist_of` es -> stream s q `sublist_of` e :: es.
Proof.
  intros Hc Hnext.
  destruct (next_event_streams s s' e Hc Hnext)
    as (Hc' & p & l1 & l2 & Hk & Hp1 & Hp2 & Hk' & Hp & Hother).
  split; [exact Hc' |]. split.
  - unfold remaining. rewrite Hk, Hk', !map_app, !concat_app. cbn [map concat].
    assert (Hsame : forall l, p ∉ l -> map (stream s') l = map (stream s) l).
    { intros l Hl. apply map_ext_in. intros q Hq. apply Hother.
      intros ->. apply Hl, list_elem_of_In, Hq. }
    rewrite (Hsame l1 Hp1), (Hsame l2 Hp2), Hp.
    assert (Hmid : concat (map (stream s') match stream s' p with [] => [] | _ :: _ => [p] end)
                   = stream s' p).
    { destruct (stream s' p) as [| r rs] eqn:Hs'; cbn [map concat]; [reflexivity |].
      rewrite Hs'. apply app_nil_r. }
    rewrite Hmid.
    symmetry. apply (Permutation_middle _ (stream s' p ++ _) e).
  - intros q es Hsub. destruct (decide (q = p)) as [-> | Hq].
    + rewrite Hp. apply sublist_skip, Hsub.
    + rewrite <- (Hother q Hq). apply sublist_cons, Hsub.
Qed.

Lemma remaining_nil (s : tables) : remaining s = [] -> _events s = [].
Proof.
  unfold remaining, stream. destruct (_events s) as [| [p e] l]; [reflexivity |].
  cbn [dict_keys map fst concat dict_get]. rewrite decide_True by reflexivity. discriminate.
Qed.

Lemma stream_nil (s : tables) (q : string) : _events s = [] -> stream s q = [].
Proof. intros He. unfold stream. rewrite He. reflexivity. Qed.

Lemma consume_remaining (fuel : nat) (s : MultiFiles) :
  coherent s -> (length (remaining s) <= fuel)%nat ->
  fst (consume fuel s) ≡ₚ remaining s /\
  (forall q, stream s q `sublist_of` fst (consume fuel s)) /\
  _events (snd (consume fuel s)) = [].
Proof.
  revert s. induction fuel as [| fuel IH]; intros s Hc Hfuel.
  - assert (Hr : remaining s = []) by (apply length_zero_iff_nil; lia).
    pose proof (remaining_nil s Hr) as He. cbn [consume fst snd].
    rewrite Hr. split; [reflexivity |]. split; [| exact He].
    intros q. rewrite (stream_nil s q He). apply sublist_nil_l.
  - cbn [consume]. destruct (next_event s) as [[err | e] s'] eqn:Hnext.
    + pose proof (next_event_raised _ _ _ Hnext) as ->. cbn [fst snd].
      assert (He : _events s = []).
      { destruct (_events s) eqn:Hev; [reflexivity |].
        destruct (next_event_step s Hc) as (? & ? & ? & ? & ? & _ & _ & _ & _ & s0 & Hs0 & _);
          [rewrite Hev; discriminate |].
        rewrite Hs0 in Hnext. discriminate. }
      unfold remaining. rewrite He. split; [reflexivity |]. split; [| reflexivity].
      intros q. rewrite (stream_nil s q He). apply sublist_nil_l.
    + destruct (next_event_remaining s s' e Hc Hnext) as (Hc' & Hperm & Hsub).
      assert (Hlen : length (remaining s) = S (length (remaining s'))).
      { rewrite Hperm. reflexivity. }
      destruct (IH s' Hc') as (Hperm' & Hsub' & Hend); [lia |].
      destruct (consume fuel s') as [es s'']. cbn [fst snd] in *.
      split; [rewrite Hperm; apply Permutation_skip, Hperm' |].
      split; [| exact Hend].
      intros q. apply Hsub, Hsub'.
Qed.

(** *** The object in use *)

Lemma next_event_contents (s s' : MultiFiles) (r : exn + Event) :
  next_event s = (r, s') -> contents s' = contents s.
Proof.
  unfold next_event. destruct (_events s) as [| item items]; [intros [= _ <-]; reflexivity |].
  destruct (dict_get _ (item :: items)); [| intros [= _ <-]; reflexivity].
  destruct (dict_get _ (_file s)) as [f |] eqn:Hf; [| intros [= _ <-]; reflexivity].
  unfold Table_next. destruct (rows (Events f) !! cursor (Events f));
    intros [= _ <-]; [| reflexivity].
  unfold contents. cbn [update with_events with_file _file self_tables].
  rewrite (dict_set_map (fun f => rows (Events f))). cbn [set_Events Events rows].
  apply dict_set_same. rewrite (dict_get_map (fun f => rows (Events f))), Hf. reflexivity.
Qed.

Lemma rewind_contents (s : MultiFiles) : contents (rewind s) = contents s.
Proof.
  unfold contents, rewind. cbn [update with_file _file self_tables].
  rewrite map_map. reflexivity.
Qed.

Lemma rewind_coherent (s : MultiFiles) : coherent s -> coherent (rewind s).
Proof.
  intros [Hnd Hfiles]. split; [exact Hnd |].
  intros p Hp. rewrite rewind_cursors. destruct (Hfiles p Hp) as [f ->].
  eexists. reflexivity.
Qed.

Lemma fold_load_path_coherent fs paths s :
  coherent s -> coherent (fold_left (load_path fs) paths s).
Proof.
  revert s. induction paths as [| path paths IH]; intros s Hs; simpl; [exact Hs |].
  apply IH, load_path_coherent, Hs.
Qed.

Lemma init_coherent fs paths mf : __init__ fs paths = inr mf -> coherent mf.
Proof.
  intros Hinit. rewrite (init_tables _ _ _ Hinit). apply fold_load_path_coherent.
  split; [apply NoDup_nil_2 |]. intros p Hp. apply elem_of_nil in Hp. destruct Hp.
Qed.

Lemma used_invariant (mf s : MultiFiles) :
  coherent mf -> used mf s -> coherent s /\ contents s = contents mf.
Proof.
  intros Hc Hs. induction Hs as [| s r s' Hs [IHc IHk] Hnext | s Hs [IHc IHk]].
  - split; [exact Hc | reflexivity].
  - split; [| rewrite (next_event_contents _ _ _ Hnext); exact IHk].
    destruct r as [err | e].
    + rewrite (next_event_raised _ _ _ Hnext). exact IHc.
    + apply (next_event_remaining s s' e IHc Hnext).
  - split; [apply rewind_coherent, IHc | rewrite rewind_contents; exact IHk].
Qed.

(** *** A whole pass, sorted files or not *)

Lemma init_len fs paths mf :
  __init__ fs paths = inr mf -> __len__ mf = length (all_events fs paths).
Proof.
  intros Hinit. rewrite len_contents, (init_contents _ _ _ Hinit).
  unfold all_events. rewrite map_map. reflexivity.
Qed.

Lemma init_pass fs paths mf fuel :
  __init__ fs paths = inr mf -> (__len__ mf <= fuel)%nat ->
  fst (consume fuel mf) ≡ₚ all_events fs paths /\
  (forall q, stream mf q `sublist_of` fst (consume fuel mf)) /\
  _events (snd (consume fuel mf)) = [].
Proof.
  intros Hinit Hfuel. rewrite <- (init_remaining _ _ _ Hinit).
  apply consume_remaining; [apply (init_coherent _ _ _ Hinit) |].
  rewrite (init_remaining _ _ _ Hinit), <- (init_len _ _ _ Hinit). exact Hfuel.
Qed.

(** X1. A whole pass over a new object hands out every event of every
    file, each once: the events handed out are a permutation of the events
    of the files, a path given twice counting once, whatever the order of
    the event ids inside the files. Their number is [len(multi_files)], and
    nothing is left buffered. *)
Theorem pass_hands_out_every_event (fs : string -> FileData) (paths : list string)
    (mf : MultiFiles) (fuel : nat) :
  __init__ fs paths = inr mf -> (__len__ mf <= fuel)%nat ->
  fst (consume fuel mf) ≡ₚ all_events fs paths /\
  length (fst (consume fuel mf)) = __len__ mf /\
  _events (snd (consume fuel mf)) = [].
Proof.
  intros Hinit Hfuel. destruct (init_pass fs paths mf fuel Hinit Hfuel) as (Hperm & _ & Hend).
  split; [exact Hperm |]. split; [| exact Hend].
  rewrite Hperm. symmetry. apply (init_len _ _ _ Hinit).
Qed.

Lemma pass_hands_out_every_event_witness :
  exists mf,
    __init__ shuffled_streams ["a"; "b"; "a"] = inr mf /\
    (__len__ mf <= 5)%nat /\
    event_id <$> all_events shuffled_streams ["a"; "b"; "a"] = [5; 1; 9; 3; 2] /\
    event_id <$> fst (consume 5 mf) = [3; 2; 5; 1; 9] /\
    fst (consume 5 mf) ≡ₚ all_events shuffled_streams ["a"; "b"; "a"].
Proof.
  eexists. split; [reflexivity |].
  assert (Hfuel : (5 <= 5)%nat) by lia.
  split; [exact Hfuel |]. split; [reflexivity |]. split; [reflexivity |].
  exact (proj1 (pass_hands_out_every_event shuffled_streams ["a"; "b"; "a"] _ 5%nat
                  eq_refl Hfuel)).
Defined.

(** X2. A whole pass keeps the order of every file: the events of a file
    are handed out in the order they have in the file, whether this order
    is ascending or not. *)
Theorem pass_keeps_file_order (fs : string -> FileData) (paths : list string)
    (mf : MultiFiles) (fuel : nat) (p : string) :
  __init__ fs paths = inr mf -> (__len__ mf <= fuel)%nat -> p ∈ paths ->
  events_data (fs p) `sublist_of` fst (consume fuel mf).
Proof.
  intros Hinit Hfuel Hp. destruct (init_pass fs paths mf fuel Hinit Hfuel) as (_ & Hsub & _).
  specialize (Hsub p). rewrite (init_stream _ _ _ _ Hinit), decide_True in Hsub by exact Hp.
  exact Hsub.
Qed.

Lemma pass_keeps_file_order_witness :
  exists mf,
    __init__ shuffled_streams ["a"; "b"] = inr mf /\
    (__len__ mf <= 5)%nat /\ "a" ∈ ["a"; "b"] /\
    event_id <$> fst (consume 5 mf) = [3; 2; 5; 1; 9] /\
    [ev 5; ev 1; ev 9] `sublist_of` fst (consume 5 mf).
Proof.
  eexists. split; [reflexivity |].
  assert (Hfuel : (5 <= 5)%nat) by lia.
  assert (Hin : "a" ∈ ["a"; "b"]) by apply list_elem_of_here.
  split; [exact Hfuel |]. split; [exact Hin |]. split; [reflexivity |].
  exact (pass_keeps_file_order shuffled_streams ["a"; "b"] _ 5%nat "a" eq_refl Hfuel Hin).
Defined.

Lemma ascending_Sorted (es : list Event) :
  ascending es -> Sorted Z.le (event_id <$> es).
Proof.
  induction es as [| e es IH]; intros Hasc; [constructor |].
  apply ascending_cons in Hasc as [Hlow Hasc]. cbn [fmap list_fmap].
  constructor; [apply IH, Hasc |].
  destruct es as [| e' es]; constructor. apply Hlow, list_elem_of_here.
Qed.

(** X3. When every file is sorted by event id, the event ids a whole pass
    hands out are the sorted list of the event ids of all the files. *)
Theorem pass_sorts_event_ids (fs : string -> FileData) (paths : list string)
    (mf : MultiFiles) (fuel : nat) :
  __init__ fs paths = inr mf ->
  (forall p, p ∈ paths -> ascending (events_data (fs p))) ->
  (__len__ mf <= fuel)%nat ->
  event_id <$> fst (consume fuel mf) = merge_sort Z.le (event_id <$> all_events fs paths).
Proof.
  intros Hinit Hsorted Hfuel.
  destruct (init_invariant fs paths mf Hinit Hsorted) as [Hc Ho].
  destruct (init_pass fs paths mf fuel Hinit Hfuel) as (Hperm & _).
  apply (Sorted_unique Z.le).
  - apply ascending_Sorted, (proj2 (consume_ascending fuel mf Hc Ho)).
  - apply Sorted_merge_sort. apply _.
  - rewrite merge_sort_Permutation. apply fmap_Permutation, Hperm.
Qed.

Lemma pass_sorts_event_ids_witness :
  exists mf,
    __init__ three_streams ["stream3"; "stream1"; "stream2"] = inr mf /\
    (forall p, p ∈ ["stream3"; "stream1"; "stream2"] ->
               ascending (events_data (three_streams p))) /\
    (__len__ mf <= 9)%nat /\
    event_id <$> all_events three_streams ["stream3"; "stream1"; "stream2"]
    = [3; 6; 9; 1; 4; 7; 2; 5; 8] /\
    event_id <$> fst (consume 9 mf) = [1; 2; 3; 4; 5; 6; 7; 8; 9].
Proof.
  eexists. split; [reflexivity |].
  assert (Hasc : forall p, p ∈ ["stream3"; "stream1"; "stream2"] ->
                           ascending (events_data (three_streams p))).
  { intros p Hp. apply three_streams_ascending.
    repeat (apply elem_of_cons in Hp as [-> | Hp];
            [repeat first [apply list_elem_of_here | apply list_elem_of_further] |]).
    apply elem_of_nil in Hp. destruct Hp. }
  assert (Hfuel : (9 <= 9)%nat) by lia.
  split; [exact Hasc |]. split; [exact Hfuel |]. split; [reflexivity |].
  exact (eq_trans (pass_sorts_event_ids three_streams ["stream3"; "stream1"; "stream2"] _ 9%nat
                     eq_refl Hasc Hfuel) eq_refl).
Defined.

Lemma fold_add_key_NoDup (paths keys : list string) :
  NoDup (keys ++ paths) -> fold_left add_key paths keys = keys ++ paths.
Proof.
  revert keys. induction paths as [| p paths IH]; intros keys Hnd; simpl.
  - symmetry. apply app_nil_r.
  - assert (Hout : p ∉ keys).
    { apply NoDup_app in Hnd as (_ & Hdisj & _). intros Hin.
      apply (Hdisj p Hin), list_elem_of_here. }
    unfold add_key at 2. rewrite decide_False by exact Hout.
    rewrite IH; rewrite <- app_assoc; [reflexivity | exact Hnd].
Qed.

Lemma distinct_NoDup_id (paths : list string) : NoDup paths -> distinct paths = paths.
Proof. intros Hnd. apply (fold_add_key_NoDup paths []), Hnd. Qed.

Lemma used_contents fs paths mf s :
  __init__ fs paths = inr mf -> used mf s ->
  coherent s /\ contents s = map (fun p => (p, events_data (fs p))) (distinct paths).
Proof.
  intros Hinit Hs.
  destruct (used_invariant mf s (init_coherent _ _ _ Hinit) Hs) as [Hc Hk].
  split; [exact Hc |]. rewrite Hk. apply (init_contents _ _ _ Hinit).
Qed.

(** X4. [len(multi_files)] is the number of events stored in the files,
    every path counted once, and it stays so after any calls of
    [next_event] and [rewind]: it does not count down with the events
    handed out. *)
Theorem len_counts_all_rows (fs : string -> FileData) (paths : list string)
    (mf s : MultiFiles) :
  __init__ fs paths = inr mf -> used mf s ->
  __len__ s = length (all_events fs paths).
Proof.
  intros Hinit Hs. destruct (used_contents fs paths mf s Hinit Hs) as [_ Hk].
  rewrite len_contents, Hk. unfold all_events. rewrite map_map. reflexivity.
Qed.

(** X5. [num_inputs()] is the number of different paths given, files
    without an event included, after any calls of [next_event] and
    [rewind]. *)
Theorem num_inputs_counts_paths (fs : string -> FileData) (paths : list string)
    (mf s : MultiFiles) :
  __init__ fs paths = inr mf -> used mf s ->
  num_inputs s = length (distinct paths) /\
  (NoDup paths -> num_inputs s = length paths).
Proof.
  intros Hinit Hs. destruct (used_contents fs paths mf s Hinit Hs) as [_ Hk].
  assert (Hn : num_inputs s = length (distinct paths)).
  { rewrite num_inputs_contents, Hk. apply length_map. }
  split; [exact Hn |]. intros Hnd. rewrite Hn, (distinct_NoDup_id paths Hnd). reflexivity.
Qed.

(** *** A pass after [rewind] *)

Lemma dict_get_tabulate {V : Type} (h : string -> V) (keys : list string) (p : string) :
  dict_get p (map (fun q => (q, h q)) keys) = if decide (p ∈ keys) then Some (h p) else None.
Proof.
  induction keys as [| k keys IH]; simpl.
  - destruct (decide (p ∈ [])) as [Hin | _]; [| reflexivity].
    apply elem_of_nil in Hin. destruct Hin.
  - destruct (decide (p = k)) as [-> | Hne].
    + rewrite decide_True by apply list_elem_of_here. reflexivity.
    + rewrite IH. destruct (decide (p ∈ keys)) as [Hin | Hout].
      * rewrite decide_True by (apply list_elem_of_further, Hin). reflexivity.
      * rewrite decide_False by (rewrite elem_of_cons; tauto). reflexivity.
Qed.

Lemma rewind_stream (s : MultiFiles) (p : string) :
  stream (rewind s) p =
    match dict_get p (_events s) with
    | Some e => e :: default [] (dict_get p (contents s))
    | None => []
    end.
Proof.
  unfold stream, unread_of. rewrite rewind_events, rewind_cursors, contents_get.
  destruct (dict_get p (_events s)); [| reflexivity].
  destruct (dict_get p (_file s)); reflexivity.
Qed.

Lemma submseteq_concat_length {A B : Type} (g : A -> list B) (l1 l2 : list A) :
  l1 ⊆+ l2 -> (length (concat (map g l1)) <= length (concat (map g l2)))%nat.
Proof.
  induction 1; cbn [map concat]; rewrite ?length_app; lia.
Qed.

Lemma replay_length (fs : string -> FileData) (items : dict string Event) :
  length (concat (map (fun item => snd item :: events_data (fs (fst item))) items))
  = (length items
     + length (concat (map (fun p => events_data (fs p)) (dict_keys items))))%nat.
Proof.
  unfold dict_keys. induction items as [| item items IH]; [reflexivity |].
  cbn [map concat length fst app]. rewrite !length_app, IH. lia.
Qed.

Lemma rewind_remaining fs paths mf s :
  __init__ fs paths = inr mf -> used mf s ->
  remaining (rewind s)
  = concat (map (fun item => snd item :: events_data (fs (fst item))) (_events s)) /\
  (length (remaining (rewind s)) <= num_inputs s + __len__ s)%nat.
Proof.
  intros Hinit Hs. destruct (used_contents fs paths mf s Hinit Hs) as [[Hnd Hfiles] Hk].
  assert (Hstream : forall item, item ∈ _events s ->
            stream (rewind s) (fst item) = snd item :: events_data (fs (fst item))).
  { intros [p e] Hin. cbn [fst snd]. rewrite rewind_stream.
    rewrite (dict_get_NoDup_elem p e _ Hnd Hin).
    assert (Hp : p ∈ dict_keys (_events s)).
    { unfold dict_keys. apply (list_elem_of_fmap_2 fst _ _ Hin). }
    destruct (Hfiles p Hp) as [f Hf].
    assert (Hg : dict_get p (contents s) = Some (rows (Events f))).
    { rewrite contents_get, Hf. reflexivity. }
    rewrite Hk, (dict_get_tabulate (fun p => events_data (fs p))) in Hg.
    rewrite Hk, (dict_get_tabulate (fun p => events_data (fs p))).
    destruct (decide (p ∈ distinct paths)); [reflexivity | discriminate]. }
  assert (Hrem : remaining (rewind s)
                 = concat (map (fun item => snd item :: events_data (fs (fst item)))
                             (_events s))).
  { unfold remaining. rewrite rewind_events. unfold dict_keys. rewrite map_map.
    f_equal. apply map_ext_in. intros item Hin. apply Hstream, list_elem_of_In, Hin. }
  split; [exact Hrem |].
  assert (Hsub : dict_keys (_events s) ⊆+ distinct paths).
  { apply NoDup_submseteq; [exact Hnd |]. intros p Hp.
    destruct (Hfiles p Hp) as [f Hf].
    assert (Hg : dict_get p (contents s) = Some (rows (Events f))).
    { rewrite contents_get, Hf. reflexivity. }
    rewrite Hk, (dict_get_tabulate (fun p => events_data (fs p))) in Hg.
    destruct (decide (p ∈ distinct paths)); [assumption | discriminate]. }
  rewrite Hrem, replay_length, num_inputs_contents, len_contents, Hk, !length_map, map_map.
  cbn [snd].
  pose proof (submseteq_length _ _ Hsub) as H1. unfold dict_keys in H1.
  rewrite length_map in H1.
  pose proof (submseteq_concat_length (fun p => events_data (fs p)) _ _ Hsub) as H2.
  lia.
Qed.

(** X6. A pass after [rewind] hands out, for every substream that still
    has a buffered event, this event and then all the events of its file
    from the first one on, and it hands out nothing of a substream that was
    exhausted. Right after construction the first event of every file is
    therefore handed out twice. *)
Theorem rewind_replays_buffered_streams (fs : string -> FileData) (paths : list string)
    (mf s : MultiFiles) (fuel : nat) :
  __init__ fs paths = inr mf -> used mf s ->
  (num_inputs s + __len__ s <= fuel)%nat ->
  fst (consume fuel (rewind s)) ≡ₚ
    concat (map (fun item => snd item :: events_data (fs (fst item))) (_events s)) /\
  _events (snd (consume fuel (rewind s))) = [].
Proof.
  intros Hinit Hs Hfuel.
  destruct (rewind_remaining fs paths mf s Hinit Hs) as [Hrem Hlen].
  destruct (used_contents fs paths mf (rewind s) Hinit (used_rewind mf s Hs)) as [Hc _].
  destruct (consume_remaining fuel (rewind s) Hc) as (Hperm & _ & Hend); [lia |].
  rewrite <- Hrem. split; assumption.
Qed.

Lemma rewind_replays_buffered_streams_witness :
  exists mf,
    __init__ three_streams ["stream1"; "stream2"; "stream3"] = inr mf /\
    used mf mf /\
    (num_inputs mf + __len__ mf <= 12)%nat /\
    event_id <$> fst (consume 12 (rewind mf)) = [1; 1; 2; 2; 3; 3; 4; 5; 6; 7; 8; 9] /\
    fst (consume 12 (rewind mf)) ≡ₚ
      [ev 1; ev 1; ev 4; ev 7; ev 2; ev 2; ev 5; ev 8; ev 3; ev 3; ev 6; ev 9].
Proof.
  eexists. split; [reflexivity |].
  assert (Hfuel : (12 <= 12)%nat) by lia.
  split; [apply used_first |]. split; [exact Hfuel |]. split; [reflexivity |].
  exact (proj1 (rewind_replays_buffered_streams three_streams
                  ["stream1"; "stream2"; "stream3"] _ _ 12%nat
                  eq_refl (used_first _) Hfuel)).
Defined.

Lemma len_counts_all_rows_witness :
  exists mf s e,
    __init__ three_streams ["stream1"; "empty"; "stream2"; "stream1"] = inr mf /\
    next_event mf = (inr e, s) /\
    used mf (rewind s) /\
    __len__ (rewind s) = 6%nat.
Proof.
  eexists _, _, _. split; [reflexivity |]. split; [reflexivity |].
  match goal with
  | |- used ?mf (rewind ?s) /\ _ =>
      assert (Hs : used mf (rewind s))
        by (apply used_rewind; eapply used_next; [apply used_first | reflexivity])
  end.
  split; [exact Hs |].
  exact (eq_trans (len_counts_all_rows three_streams
                     ["stream1"; "empty"; "stream2"; "stream1"] _ _ eq_refl Hs) eq_refl).
Defined.

Lemma num_inputs_counts_paths_witness :
  exists mf,
    __init__ three_streams ["stream1"; "empty"; "stream2"; "stream1"] = inr mf /\
    used mf mf /\
    distinct ["stream1"; "empty"; "stream2"; "stream1"] = ["stream1"; "empty"; "stream2"] /\
    num_inputs mf = 3%nat.
Proof.
  eexists. split; [reflexivity |]. split; [apply used_first |]. split; [reflexivity |].
  exact (eq_trans (proj1 (num_inputs_counts_paths three_streams
                            ["stream1"; "empty"; "stream2"; "stream1"] _ _
                            eq_refl (used_first _))) eq_refl).
Defined.

End MultiFilesSpec.

(** ** event_time.py *)

Module EventTimeSpec.
Import PyFloat PyFloatFacts EventTime.

#[local] Arguments add : simpl never.
#[local] Arguments sub : simpl never.
#[local] Arguments mul : simpl never.
#[local] Arguments gt : simpl never.
#[local] Arguments float_of_int : simpl never.
#[local] Arguments int_of_float : simpl never.
#[local] Arguments round_int : simpl never.
#[local] Arguments deque_of : simpl never.
#[local] Arguments item : simpl never.

(** *** Running the monad *)

Lemma bind_cases {S A B : Type} (c : M S A) (k : A -> M S B) (w w' : S) (r : exn + B) :
  bind c k w = (r, w') ->
  (exists e, c w = (inl e, w') /\ r = inl e) \/
  (exists a w1, c w = (inr a, w1) /\ k a w1 = (r, w')).
Proof.
  unfold bind. destruct (c w) as [[e | a] w1].
  - intros [= <- <-]. left. exists e. split; reflexivity.
  - intros Hk. right. exists a, w1. split; [reflexivity | exact Hk].
Qed.

Lemma bind_returned {S A B : Type} (c : M S A) (k : A -> M S B) (w w1 : S) (a : A) :
  c w = (inr a, w1) -> bind c k w = k a w1.
Proof. intros Hc. unfold bind. rewrite Hc. reflexivity. Qed.

Lemma bind_raised {S A B : Type} (c : M S A) (k : A -> M S B) (w w1 : S) (e : exn) :
  c w = (inl e, w1) -> bind c k w = (inl e, w1).
Proof. intros Hc. unfold bind. rewrite Hc. reflexivity. Qed.

(** Unfolding of the primitive actions. *)
Ltac unfold_actions :=
  unfold from_option, from_sum, when, update_self, update_lst, emit in *;
  unfold bind, ret, raise, get, modify in *.

(** Case analysis on every test the computation makes. *)
Ltac run := repeat (cbn in *; simplify_eq; try case_match).

(** *** The reference step *)

(** The times from the references change nothing, and there is a Dragon
    time only where there is a Dragon reference. *)
Lemma times_from_references_spec tel_id i tib w r w' :
  times_from_references tel_id i tib w = (r, w') ->
  w' = w /\
  forall d t, r = inr (d, t) ->
              (d <> nan -> _has_dragon_reference (self w) !! tel_id = Some true) /\
              (_has_dragon_reference (self w) !! tel_id = Some false -> d = nan).
Proof.
  intros H. unfold times_from_references, reference_of, calc_dragon_time, calc_tib_time in H.
  unfold_actions. destruct w as [s l lg].
  run; (split; [reflexivity |]); intros d t Hr; simplify_eq; split; congruence.
Qed.

(** Taking the event as reference: what is written, logged and returned. *)
Lemma first_event_reference_spec tel_id i ts u tib s l lg pps tenMHz :
  item (pps_counter (evt l)) i = inr pps ->
  item (tenMHz_counter (evt l)) i = inr tenMHz ->
  exists s',
    first_event_reference tel_id i ts u tib {| self := s; lst := l; log := lg |} =
      (inr (u, if tib =? 0 then nan else u),
       {| self := s'; lst := l;
          log := lg ++ (CRITICAL, msg_dragon_reference ts (1000000000 * pps + 100 * tenMHz))
                    :: (if tib =? 0 then []
                        else [(CRITICAL,
                               msg_tib_reference ts
                                 (1000000000 * tib_pps_counter (evt l)
                                  + 100 * tib_tenMHz_counter (evt l)))]) |}) /\
    _has_dragon_reference s' = <[tel_id := true]> (_has_dragon_reference s) /\
    _ucts_t0_dragon s' = <[tel_id := Some ts]> (_ucts_t0_dragon s) /\
    _dragon_counter0 s' =
      <[tel_id := Some (1000000000 * pps + 100 * tenMHz)]> (_dragon_counter0 s) /\
    _has_tib_reference s' =
      (if tib =? 0 then _has_tib_reference s
       else <[tel_id := true]> (_has_tib_reference s)) /\
    _ucts_t0_tib s' =
      (if tib =? 0 then _ucts_t0_tib s else <[tel_id := Some ts]> (_ucts_t0_tib s)) /\
    _tib_counter0 s' =
      (if tib =? 0 then _tib_counter0 s
       else <[tel_id := Some (1000000000 * tib_pps_counter (evt l)
                              + 100 * tib_tenMHz_counter (evt l))]> (_tib_counter0 s)) /\
    previous_ucts_timestamps s' = previous_ucts_timestamps s /\
    previous_ucts_trigger_types s' = previous_ucts_trigger_types s /\
    trait s' = trait s /\ subarray_tel s' = subarray_tel s.
Proof.
  intros Hpps Hten. unfold first_event_reference, TelescopeParameter_eq_str.
  unfold_actions. cbn. rewrite Hpps, Hten. cbn.
  rewrite andb_false_r. cbn.
  destruct (tib =? 0); cbn.
  - eexists. split; [reflexivity |]. cbn. repeat split.
  - eexists. split; [rewrite <- app_assoc; reflexivity |]. cbn. repeat split.
Qed.

(** Without one of the two counters of the module the event is not taken:
    the subscript raises before anything is written. *)
Lemma first_event_reference_raises tel_id i ts u tib w e :
  item (pps_counter (evt (lst w))) i = inl e \/
  (exists pps, item (pps_counter (evt (lst w))) i = inr pps) /\
    item (tenMHz_counter (evt (lst w))) i = inl e ->
  first_event_reference tel_id i ts u tib w = (inl e, w).
Proof.
  intros Hnone. unfold first_event_reference. unfold_actions. cbn.
  destruct Hnone as [Hnone | [[pps Hpps] Hnone]].
  - rewrite Hnone. reflexivity.
  - rewrite Hpps, Hnone. reflexivity.
Qed.

(** What the reference step leaves alone, what it logs, and that a Dragon
    time comes with a Dragon reference. *)
Lemma reference_step_frame tel_id i ts u tib w r w' :
  reference_step tel_id i ts u tib w = (r, w') ->
  (lst w' = lst w /\
   trait (self w') = trait (self w) /\
   previous_ucts_timestamps (self w') = previous_ucts_timestamps (self w) /\
   previous_ucts_trigger_types (self w') = previous_ucts_trigger_types (self w) /\
   (forall tel, tel <> tel_id -> state_at (self w') tel = state_at (self w) tel) /\
   (forall tel, _has_dragon_reference (self w) !! tel = Some true ->
                _has_dragon_reference (self w') !! tel = Some true) /\
   (forall rec, rec ∈ log w' -> rec ∈ log w \/ is_reference_record rec)) /\
  (forall d t, r = inr (d, t) -> d <> nan ->
               _has_dragon_reference (self w') !! tel_id = Some true).
Proof.
  intros H.
  assert (Hsame : w' = w ->
            lst w' = lst w /\
            trait (self w') = trait (self w) /\
            previous_ucts_timestamps (self w') = previous_ucts_timestamps (self w) /\
            previous_ucts_trigger_types (self w') = previous_ucts_trigger_types (self w) /\
            (forall tel, tel <> tel_id -> state_at (self w') tel = state_at (self w) tel) /\
            (forall tel, _has_dragon_reference (self w) !! tel = Some true ->
                         _has_dragon_reference (self w') !! tel = Some true) /\
            (forall rec, rec ∈ log w' -> rec ∈ log w \/ is_reference_record rec)).
  { intros ->. repeat split; auto. }
  unfold reference_step in H.
  apply bind_cases in H as [(e & H & ->) | (w0 & w1 & Hget & H)];
    [discriminate |]. injection Hget as <- <-.
  apply bind_cases in H as [(e & H & ->) | (has_dragon & w1 & Hd & H)].
  { unfold from_option in H. destruct (_ !! tel_id); [discriminate |].
    injection H as _ <-. split; [apply Hsame; reflexivity | discriminate]. }
  assert (Hd' : _has_dragon_reference (self w) !! tel_id = Some has_dragon /\ w1 = w).
  { unfold from_option in Hd. destruct (_ !! tel_id); [| discriminate].
    injection Hd as -> ->. split; reflexivity. }
  destruct Hd' as [Hd' ->]. clear Hd.
  apply bind_cases in H as [(e & H & ->) | (no_reference & w1 & Hn & H)].
  { destruct has_dragon; [discriminate |].
    apply bind_cases in H as [(e' & H & _) | (? & ? & _ & H)]; [| discriminate].
    unfold from_option in H. destruct (_ !! tel_id); [discriminate |].
    injection H as _ <-. split; [apply Hsame; reflexivity | discriminate]. }
  assert (Hn' : w1 = w).
  { destruct has_dragon; [injection Hn as _ <-; reflexivity |].
    apply bind_cases in Hn as [(e' & Hn & ?) | (b & w2 & Hb & Hn)]; [discriminate |].
    unfold from_option in Hb. destruct (_ !! tel_id); [| discriminate].
    injection Hb as _ <-. injection Hn as _ <-. reflexivity. }
  subst w1. destruct no_reference.
  - (* the event is taken as reference *)
    destruct w as [s l lg]. cbn [self lst log] in *.
    destruct (item (pps_counter (evt l)) i) as [e1 | pps] eqn:Hpps;
      [| destruct (item (tenMHz_counter (evt l)) i) as [e2 | tenMHz] eqn:Hten];
      [rewrite (first_event_reference_raises _ _ _ _ _ _ e1) in H by (left; exact Hpps);
       injection H as <- <-; split; [apply Hsame; reflexivity | discriminate]
      | rewrite (first_event_reference_raises _ _ _ _ _ _ e2) in H
          by (right; split; [exists pps; exact Hpps | exact Hten]);
        injection H as <- <-; split; [apply Hsame; reflexivity | discriminate]
      |].
    + destruct (first_event_reference_spec tel_id i ts u tib s l lg pps tenMHz Hpps Hten)
        as (s' & Hrun & Hhd & Ht0 & Hc0 & Hht & Htt0 & Htc0 & Hq1 & Hq2 & Htr & Hsub).
      rewrite Hrun in H. injection H as <- <-. cbn [self lst log].
      split; [| intros _ _ _ _; rewrite Hhd; apply lookup_insert_eq].
      split; [reflexivity |]. split; [exact Htr |]. split; [exact Hq1 |].
      split; [exact Hq2 |]. split; [| split].
      * intros tel Hne. unfold state_at, queues_at.
        rewrite Hhd, Ht0, Hc0, Hht, Htt0, Htc0, Hq1, Hq2.
        destruct (tib =? 0); rewrite ?lookup_insert_ne by congruence; reflexivity.
      * intros tel Htel. rewrite Hhd.
        destruct (decide (tel_id = tel)) as [<- | Hne];
          [apply lookup_insert_eq | rewrite lookup_insert_ne by exact Hne; exact Htel].
      * intros rec Hrec. apply elem_of_app in Hrec as [Hrec | Hrec]; [left; exact Hrec |].
        right. apply elem_of_cons in Hrec as [-> | Hrec].
        -- eexists _, _. left. reflexivity.
        -- destruct (tib =? 0); [apply elem_of_nil in Hrec; destruct Hrec |].
           apply list_elem_of_singleton in Hrec as ->.
           eexists _, _. right. reflexivity.
  - (* the times come from the references *)
    destruct (times_from_references_spec _ _ _ _ _ _ H) as [-> Htimes].
    split; [apply Hsame; reflexivity |].
    intros d t Hr Hnan. apply (Htimes d t Hr), Hnan.
Qed.

(** *** The queue step *)

Lemma deque_of_insert (m : gmap Z (list Z)) (tel_id : Z) (v : list Z) :
  deque_of (<[tel_id := v]> m) tel_id = v.
Proof. unfold deque_of. rewrite lookup_insert_eq. reflexivity. Qed.

Lemma deque_of_insert_ne (m : gmap Z (list Z)) (tel_id tel : Z) (v : list Z) :
  tel_id <> tel -> deque_of (<[tel_id := v]> m) tel = deque_of m tel.
Proof. intros Hne. unfold deque_of. rewrite lookup_insert_ne by exact Hne. reflexivity. Qed.

Lemma queue_step_empty tel_id ts tt u w :
  deque_of (previous_ucts_timestamps (self w)) tel_id = [] ->
  queue_step tel_id ts tt u w = (inr (ts, tt, u), w).
Proof.
  intros Hq. unfold queue_step. unfold_actions. rewrite Hq. reflexivity.
Qed.

(** With a sample on record, the values just read go last and the first
    ones are taken for the event. *)
Lemma queue_step_shift tel_id ts tt u s l lg t0 q g0 r0 :
  queues_at s tel_id = (t0 :: q, g0 :: r0) ->
  exists s',
    queue_step tel_id ts tt u {| self := s; lst := l; log := lg |} =
      match float_of_int t0 with
      | inr f =>
          (inr (t0, g0, mul f lit_1e_9),
           {| self := s'; lst := set_ucts_timestamp (set_ucts_trigger_type l g0) t0;
              log := lg |})
      | inl e => (inl e, {| self := s'; lst := l; log := lg |})
      end /\
    queues_at s' tel_id = (q ++ [ts], r0 ++ [tt]) /\
    (forall tel, tel <> tel_id -> queues_at s' tel = queues_at s tel) /\
    references_of s' = references_of s.
Proof.
  unfold queues_at. intros [= Hq Hr]. unfold queue_step. unfold_actions.
  cbn. rewrite Hq. cbn.
  replace (0 <? Z.of_nat (S (length q))) with true by (symmetry; apply Z.ltb_lt; lia).
  cbn. rewrite !deque_of_insert, Hq, Hr. cbn. rewrite !deque_of_insert. cbn.
  eexists. split.
  - destruct (float_of_int t0); reflexivity.
  - cbn. rewrite !deque_of_insert.
    split; [reflexivity |]. split; [| reflexivity].
    intros tel Hne. rewrite !deque_of_insert_ne by congruence. reflexivity.
Qed.

Lemma queue_step_frame tel_id ts tt u w r w' :
  queue_step tel_id ts tt u w = (r, w') ->
  references_of (self w') = references_of (self w) /\
  log w' = log w /\
  (forall tel, tel <> tel_id -> queues_at (self w') tel = queues_at (self w) tel) /\
  (deque_of (previous_ucts_timestamps (self w)) tel_id = [] -> w' = w).
Proof.
  intros H. destruct (deque_of (previous_ucts_timestamps (self w)) tel_id) as [| t0 q] eqn:Hq.
  - rewrite queue_step_empty in H by exact Hq. injection H as _ <-.
    repeat split; reflexivity.
  - unfold queue_step in H. unfold_actions. rewrite Hq in H. destruct w as [s l lg].
    run; (split; [reflexivity |]); (split; [reflexivity |]);
      (split; [| discriminate]);
      intros tel Hne; unfold queues_at; cbn;
      rewrite !deque_of_insert_ne by congruence; reflexivity.
Qed.

(** *** The check of the UCTS time against the Dragon time *)

Lemma jump_step_quiet tel_id index ts tt u d tib w :
  gt (sub u d) lit_1e_6 = false ->
  jump_step tel_id index ts tt u d tib w = (inr u, w).
Proof. intros Hgt. unfold jump_step. rewrite Hgt. reflexivity. Qed.

Lemma jump_step_jump tel_id index ts tt u d tib s l lg :
  gt (sub u d) lit_1e_6 = true ->
  exists s',
    jump_step tel_id index ts tt u d tib {| self := s; lst := l; log := lg |} =
      match int_of_float (mul d lit_1e9) with
      | inr ns =>
          (inr d,
           {| self := s';
              lst := set_ucts_trigger_type (set_ucts_timestamp l ns)
                       (if tib =? 0 then 0 else tib_masked_trigger (evt l));
              log := lg ++ (WARNING, msg_ucts_jump (event_id index) d
                                       (mul (sub u d) lit_1e6))
                        :: (if tib =? 0 then [(WARNING, msg_no_tib_trigger)] else []) |})
      | inl e =>
          (inl e,
           {| self := s'; lst := l;
              log := lg ++ [(WARNING, msg_ucts_jump (event_id index) d
                                        (mul (sub u d) lit_1e6))] |})
      end /\
    queues_at s' tel_id = (ts :: fst (queues_at s tel_id), tt :: snd (queues_at s tel_id)) /\
    (forall tel, tel <> tel_id -> queues_at s' tel = queues_at s tel) /\
    references_of s' = references_of s.
Proof.
  intros Hgt. unfold jump_step. rewrite Hgt. unfold_actions. cbn.
  eexists. split.
  - destruct (int_of_float (mul d lit_1e9)); [reflexivity |].
    destruct (tib =? 0); cbn; rewrite <- ?app_assoc; reflexivity.
  - unfold queues_at. cbn. rewrite !deque_of_insert.
    split; [reflexivity |]. split; [| reflexivity].
    intros tel Hne. rewrite !deque_of_insert_ne by congruence. reflexivity.
Qed.

(** *** The selection *)

Lemma select_timestamp_spec tel_id u d t s l lg :
  select_timestamp tel_id u d t {| self := s; lst := l; log := lg |} =
    match selected_time (timestamp (trait s) tel_id) u d t with
    | inr time =>
        (inr time, {| self := s; lst := l; log := lg ++ [(DEBUG, msg_times t d u)] |})
    | inl e => (inl e, {| self := s; lst := l; log := lg |})
    end.
Proof.
  unfold select_timestamp, selected_time. unfold_actions. cbn.
  destruct (String.eqb (timestamp (trait s) tel_id) "ucts");
    [destruct (Time_of_unix_tai u); reflexivity |].
  destruct (String.eqb (timestamp (trait s) tel_id) "dragon");
    [destruct (Time_of_unix_tai d); reflexivity |].
  destruct (String.eqb (timestamp (trait s) tel_id) "tib");
    [destruct (Time_of_unix_tai t); reflexivity | reflexivity].
Qed.

Lemma Time_of_unix_tai_finite (val : float) :
  isfinite val = true -> Time_of_unix_tai val = inr (Time_unix_tai val).
Proof. intros H. unfold Time_of_unix_tai. rewrite H. reflexivity. Qed.

Lemma Time_of_unix_tai_returned (val : float) (time : Time) :
  Time_of_unix_tai val = inr time -> time = Time_unix_tai val /\ isfinite val = true.
Proof.
  unfold Time_of_unix_tai. destruct (isfinite val); [| discriminate].
  intros [= <-]. split; reflexivity.
Qed.

Lemma select_timestamp_frame tel_id u d t w r w' :
  select_timestamp tel_id u d t w = (r, w') ->
  self w' = self w /\ lst w' = lst w /\
  (log w' = log w \/ log w' = log w ++ [(DEBUG, msg_times t d u)]).
Proof.
  destruct w as [s l lg]. rewrite select_timestamp_spec.
  destruct (selected_time _ _ _ _); intros [= <- <-]; cbn; auto.
Qed.

(** *** The call as the sequence of its steps *)

Lemma call_unfold s tel_id index l :
  call s tel_id index l =
    match index_of (dragon_module_id (trait s) tel_id) (module_ids (svc l)) with
    | None => (inl IndexError, {| self := s; lst := l; log := [] |})
    | Some i =>
        match extdevices_presence (evt l) with
        | None => (inl TypeError, {| self := s; lst := l; log := [] |})
        | Some presence =>
            if Z.land presence 2 =? 0 then
              (inr NAN_TIME,
               {| self := s; lst := l;
                  log := [(WARNING,
                           msg_ucts_unavailable (obs_id index) (event_id index) tel_id)] |})
            else
              match float_of_int (ucts_timestamp (evt l)) with
              | inl e => (inl e, {| self := s; lst := l; log := [] |})
              | inr f =>
                  bind (reference_step tel_id i (ucts_timestamp (evt l)) (mul f lit_1e_9)
                          (Z.land presence 1))
                       (fun times =>
                          jumps_and_selection tel_id index (ucts_timestamp (evt l))
                            (mul f lit_1e_9) (fst times) (snd times)
                            (Z.land presence 1))
                       {| self := s; lst := l; log := [] |}
              end
        end
    end.
Proof.
  unfold call, __call__.
  unfold from_option, from_sum, emit. unfold bind at 1 2, get, ret, raise, modify. cbn.
  destruct (index_of _ _); [| reflexivity]. cbn.
  unfold bind at 1. destruct (extdevices_presence (evt l)) as [presence |]; [| reflexivity].
  cbn. destruct (_ =? 0); [reflexivity |].
  unfold bind at 1. destruct (float_of_int _); reflexivity.
Qed.

(** The first position of the module, where there is one. *)
Lemma index_of_Some (x : Z) (ids : list Z) (i : nat) :
  index_of x ids = Some i <->
  ids !! i = Some x /\ forall j, (j < i)%nat -> ids !! j <> Some x.
Proof.
  revert i. induction ids as [| y ids IH]; intros i; cbn [index_of].
  - split; [discriminate | intros [[=] _]].
  - destruct (Z.eqb_spec x y) as [-> | Hne].
    + split.
      * intros [= <-]. split; [reflexivity | lia].
      * intros [Hi Hfirst]. destruct i as [| i]; [reflexivity |].
        exfalso. apply (Hfirst 0%nat); [lia | reflexivity].
    + destruct i as [| i].
      * split; [destruct (index_of x ids); discriminate |].
        intros [[= ->] _]. contradiction.
      * split.
        -- destruct (index_of x ids) as [k |] eqn:Hk; [| discriminate].
           intros [= ->]. destruct (proj1 (IH i) eq_refl) as [Hi Hfirst].
           split; [exact Hi |]. intros [| j] Hj; cbn; [congruence | apply Hfirst; lia].
        -- intros [Hi Hfirst]. cbn in Hi.
           rewrite (proj2 (IH i)); [reflexivity |].
           split; [exact Hi |]. intros j Hj. apply (Hfirst (S j)). lia.
Qed.

Lemma index_of_None (x : Z) (ids : list Z) : index_of x ids = None <-> x ∉ ids.
Proof.
  induction ids as [| y ids IH]; cbn [index_of].
  - split; [intros _; apply not_elem_of_nil | reflexivity].
  - rewrite not_elem_of_cons. destruct (Z.eqb_spec x y) as [-> | Hne].
    + split; [discriminate | intros [H _]; contradiction].
    + destruct (index_of x ids); cbn.
      * split; [discriminate |]. intros [_ H]. apply IH in H. discriminate.
      * split; [| reflexivity]. intros _. split; [exact Hne | apply IH; reflexivity].
Qed.

(** An event whose presence mask was never filled: [None & 1] raises. *)
Lemma call_without_presence s tel_id index l i :
  index_of (dragon_module_id (trait s) tel_id) (module_ids (svc l)) = Some i ->
  extdevices_presence (evt l) = None ->
  call s tel_id index l = (inl TypeError, {| self := s; lst := l; log := [] |}).
Proof. intros Hi Hp. rewrite call_unfold, Hi, Hp. reflexivity. Qed.

Lemma jumps_and_selection_unfold tel_id index ts u d t tib w :
  jumps_and_selection tel_id index ts u d t tib w =
    bind (queue_step tel_id ts (ucts_trigger_type (evt (lst w))) u)
         (fun sample =>
            bind (jump_step tel_id index (fst (fst sample)) (snd (fst sample)) (snd sample)
                    d tib)
                 (fun u' => select_timestamp tel_id u' d t)) w.
Proof. reflexivity. Qed.

Lemma call_outcomes s tel_id index l r w :
  call s tel_id index l = (r, w) -> call_outcome s tel_id index l r w.
Proof.
  rewrite call_unfold.
  destruct (index_of _ _) as [i |] eqn:Hi;
    [| intros [= <- <-]; apply outcome_no_module; auto].
  destruct (extdevices_presence (evt l)) as [presence |] eqn:Hp;
    [| intros [= <- <-]; eapply outcome_no_presence; eauto].
  destruct (Z.eqb_spec (Z.land presence 2) 0) as [Hu | Hu];
    [intros [= <- <-]; eapply outcome_no_ucts; eauto |].
  destruct (float_of_int _) as [e | f] eqn:Hf;
    [intros [= <- <-]; eapply outcome_overflow; eauto |].
  intros H.
  destruct (reference_step tel_id i (ucts_timestamp (evt l)) (mul f lit_1e_9)
              (Z.land presence 1) {| self := s; lst := l; log := [] |})
    as [rr w1] eqn:Hr.
  eapply outcome_steps; eauto.
  apply bind_cases in H as [(e & H & ->) | ([d t] & w1' & H1 & H)].
  - rewrite Hr in H. injection H as -> ->. eapply steps_reference_raised; eauto.
  - rewrite Hr in H1. injection H1 as -> ->. cbn [fst snd] in H.
    rewrite jumps_and_selection_unfold in H.
    apply bind_cases in H as [(e & H & ->) | ([[ts' tt'] u'] & w2 & H2 & H)].
    + eapply steps_queue_raised; eauto.
    + cbn [fst snd] in H.
      apply bind_cases in H as [(e & H & ->) | (u'' & w3 & H3 & H)].
      * eapply steps_jump_raised; eauto.
      * eapply steps_selected; eauto.
Qed.

(** *** An event without the external clock *)

(** C5, as the code has it. For an event whose module table holds the
    configured module and whose presence mask has bit 1 clear, the call
    returns [NAN_TIME] and logs a warning; the calculator and the container
    of the event are as before. *)
Theorem ucts_unavailable_nan_time s tel_id index l i presence :
  index_of (dragon_module_id (trait s) tel_id) (module_ids (svc l)) = Some i ->
  extdevices_presence (evt l) = Some presence ->
  Z.land presence 2 = 0 ->
  call s tel_id index l =
    (inr NAN_TIME,
     {| self := s; lst := l;
        log := [(WARNING, msg_ucts_unavailable (obs_id index) (event_id index) tel_id)] |}).
Proof.
  intros Hi Hp Hu. rewrite call_unfold, Hi, Hp, Hu. reflexivity.
Qed.

Lemma ucts_unavailable_nan_time_witness :
  index_of (dragon_module_id (trait (calculator default_traits)) 1)
           (module_ids (svc (container 132 1 0 0 0 0))) = Some 0%nat /\
  extdevices_presence (evt (container 132 1 0 0 0 0)) = Some 1 /\
  Z.land 1 2 = 0 /\
  fst (call (calculator default_traits) 1 index_1 (container 132 1 0 0 0 0)) = inr NAN_TIME.
Proof.
  split; [reflexivity |]. split; [reflexivity |]. split; [reflexivity |].
  exact (f_equal fst (ucts_unavailable_nan_time (calculator default_traits) 1 index_1
                        (container 132 1 0 0 0 0) 0%nat 1 eq_refl eq_refl eq_refl)).
Defined.

(** C5, as stated, fails: with bit 1 clear and the configured module 132
    absent from the module table, the call raises [IndexError]. *)
Lemma ucts_unavailable_counterexample :
  extdevices_presence (evt (container 7 1 0 0 0 0)) = Some 1 /\
  Z.land 1 2 = 0 /\
  fst (call (calculator default_traits) 1 index_1 (container 7 1 0 0 0 0)) = inl IndexError /\
  fst (call (calculator default_traits) 1 index_1 (container 7 1 0 0 0 0)) <> inr NAN_TIME.
Proof.
  split; [reflexivity |]. split; [reflexivity |]. split; [reflexivity | discriminate].
Qed.

(** *** The substitution from the queue *)

(** C2. In a call with the external clock available that finds the queue
    of the telescope not empty when the jump processing starts, the pair
    just read goes to the tail of the queue, the pair at the head is popped
    and becomes the sample of the event, both fields of the event are
    overwritten with the popped values, and the call goes on with them; the
    depth of the queue is as before. *)
Theorem queue_substitution s tel_id index l i presence f d t w1 t0 q g0 r0 f0 :
  index_of (dragon_module_id (trait s) tel_id) (module_ids (svc l)) = Some i ->
  extdevices_presence (evt l) = Some presence ->
  Z.land presence 2 <> 0 ->
  float_of_int (ucts_timestamp (evt l)) = inr f ->
  reference_step tel_id i (ucts_timestamp (evt l)) (mul f lit_1e_9)
    (Z.land presence 1) {| self := s; lst := l; log := [] |}
  = (inr (d, t), w1) ->
  queues_at (self w1) tel_id = (t0 :: q, g0 :: r0) ->
  float_of_int t0 = inr f0 ->
  exists s2 l2,
    queue_step tel_id (ucts_timestamp (evt l)) (ucts_trigger_type (evt l))
      (mul f lit_1e_9) w1
    = (inr (t0, g0, mul f0 lit_1e_9), {| self := s2; lst := l2; log := log w1 |}) /\
    queues_at s2 tel_id = (q ++ [ucts_timestamp (evt l)], r0 ++ [ucts_trigger_type (evt l)]) /\
    length (fst (queues_at s2 tel_id)) = length (fst (queues_at (self w1) tel_id)) /\
    (forall tel, tel <> tel_id -> queues_at s2 tel = queues_at (self w1) tel) /\
    references_of s2 = references_of (self w1) /\
    l2 = set_ucts_timestamp (set_ucts_trigger_type l g0) t0 /\
    ucts_timestamp (evt l2) = t0 /\ ucts_trigger_type (evt l2) = g0 /\
    call s tel_id index l =
      bind (jump_step tel_id index t0 g0 (mul f0 lit_1e_9) d
              (Z.land presence 1))
           (fun ucts_time => select_timestamp tel_id ucts_time d t)
           {| self := s2; lst := l2; log := log w1 |}.
Proof.
  intros Hi Hp Hu Hf Hr Hq Hf0.
  destruct (reference_step_frame _ _ _ _ _ _ _ _ Hr) as [(Hl & _) _].
  destruct w1 as [s1 l1 lg1]. cbn [self lst log] in *. subst l1.
  destruct (queue_step_shift tel_id (ucts_timestamp (evt l)) (ucts_trigger_type (evt l))
              (mul f lit_1e_9) s1 l lg1 t0 q g0 r0 Hq) as (s2 & Hrun & Hq2 & Hother & Href).
  rewrite Hf0 in Hrun.
  exists s2, (set_ucts_timestamp (set_ucts_trigger_type l g0) t0).
  split; [exact Hrun |]. split; [exact Hq2 |]. split.
  { rewrite Hq2, Hq. cbn. rewrite length_app. cbn. lia. }
  split; [exact Hother |]. split; [exact Href |].
  split; [reflexivity |]. split; [reflexivity |]. split; [reflexivity |].
  rewrite call_unfold, Hi, Hp. destruct (Z.eqb_spec (Z.land presence 2) 0);
    [contradiction |].
  rewrite Hf. rewrite (bind_returned _ _ _ _ _ Hr). cbn [fst snd].
  rewrite jumps_and_selection_unfold. cbn [lst].
  rewrite (bind_returned _ _ _ _ _ Hrun). reflexivity.
Qed.

(** *** The check for a jump *)

(** C1. In a call with the external clock available, once the sample of the
    event is settled, a jump is declared exactly when the UCTS time minus
    the Dragon time is above [1e-6]. A declared jump is logged with the
    event id and the difference, the sample goes to the head of the queue,
    the Dragon time stands in for the UCTS time, [ucts_timestamp] becomes
    the Dragon time in nanoseconds and [ucts_trigger_type] the masked TIB
    trigger, or 0 without the TIB. ([int] raises on an infinite Dragon
    time.) *)
Theorem jump_declared s tel_id index l i presence f d t w1 ts' tt' u' s2 l2 lg2 :
  index_of (dragon_module_id (trait s) tel_id) (module_ids (svc l)) = Some i ->
  extdevices_presence (evt l) = Some presence ->
  Z.land presence 2 <> 0 ->
  float_of_int (ucts_timestamp (evt l)) = inr f ->
  reference_step tel_id i (ucts_timestamp (evt l)) (mul f lit_1e_9)
    (Z.land presence 1) {| self := s; lst := l; log := [] |}
  = (inr (d, t), w1) ->
  queue_step tel_id (ucts_timestamp (evt l)) (ucts_trigger_type (evt l))
    (mul f lit_1e_9) w1
  = (inr (ts', tt', u'), {| self := s2; lst := l2; log := lg2 |}) ->
  exists r w,
    call s tel_id index l = (r, w) /\
    (gt (sub u' d) lit_1e_6 = true <-> exists rec, rec ∈ log w /\ is_jump_record rec) /\
    (gt (sub u' d) lit_1e_6 = false -> self w = s2 /\ lst w = l2) /\
    (gt (sub u' d) lit_1e_6 = true ->
     (WARNING, msg_ucts_jump (event_id index) d (mul (sub u' d) lit_1e6)) ∈ log w /\
     queues_at (self w) tel_id
     = (ts' :: fst (queues_at s2 tel_id), tt' :: snd (queues_at s2 tel_id)) /\
     (forall tel, tel <> tel_id -> queues_at (self w) tel = queues_at s2 tel) /\
     references_of (self w) = references_of s2 /\
     match int_of_float (mul d lit_1e9) with
     | inl e => r = inl e /\ lst w = l2
     | inr ns =>
         lst w = set_ucts_trigger_type (set_ucts_timestamp l2 ns)
                   (if Z.land presence 1 =? 0 then 0
                    else tib_masked_trigger (evt l2)) /\
         (forall time, r = inr time -> (DEBUG, msg_times t d d) ∈ log w) /\
         (timestamp (trait s) tel_id = "ucts" -> r = inr (Time_unix_tai d))
     end).
Proof.
  intros Hi Hp Hu Hf Hr Hq.
  destruct (reference_step_frame _ _ _ _ _ _ _ _ Hr) as [(Hl & Htr & _ & _ & _ & _ & Hlog) _].
  destruct (queue_step_frame _ _ _ _ _ _ _ Hq) as (Href & Hlg & _ & _).
  cbn [self lst log] in *.
  assert (Hnojump : forall rec, rec ∈ lg2 -> ~ is_jump_record rec).
  { intros rec Hrec. rewrite Hlg in Hrec.
    destruct (Hlog rec Hrec) as [Hin | (a & b & [-> | ->])].
    - apply elem_of_nil in Hin. destruct Hin.
    - intros (? & ? & ? & [=]).
    - intros (? & ? & ? & [=]). }
  assert (Htrait : trait s2 = trait s).
  { unfold references_of in Href. injection Href as _ _ _ _ _ _ -> _. exact Htr. }
  assert (Hcall : call s tel_id index l =
            bind (jump_step tel_id index ts' tt' u' d
                    (Z.land presence 1))
                 (fun ucts_time => select_timestamp tel_id ucts_time d t)
                 {| self := s2; lst := l2; log := lg2 |}).
  { rewrite call_unfold, Hi, Hp.
    destruct (Z.eqb_spec (Z.land presence 2) 0); [contradiction |].
    rewrite Hf. rewrite (bind_returned _ _ _ _ _ Hr). cbn [fst snd].
    rewrite jumps_and_selection_unfold. rewrite Hl.
    rewrite (bind_returned _ _ _ _ _ Hq). reflexivity. }
  destruct (gt (sub u' d) lit_1e_6) eqn:Hgt.
  - (* a jump *)
    destruct (jump_step_jump tel_id index ts' tt' u' d
                (Z.land presence 1) s2 l2 lg2 Hgt)
      as (s3 & Hjump & Hq3 & Hother & Href3).
    destruct (int_of_float (mul d lit_1e9)) as [e | ns] eqn:Hns.
    + rewrite (bind_raised _ _ _ _ _ Hjump) in Hcall.
      eexists _, _. split; [exact Hcall |]. cbn [self lst log].
      assert (Hin : (WARNING, msg_ucts_jump (event_id index) d (mul (sub u' d) lit_1e6))
                    ∈ lg2 ++ [(WARNING, msg_ucts_jump (event_id index) d
                                          (mul (sub u' d) lit_1e6))]).
      { apply elem_of_app. right. apply list_elem_of_here. }
      split; [split; [intros _ | reflexivity] |].
      { eexists. split; [exact Hin |]. eexists _, _, _. reflexivity. }
      split; [discriminate |]. intros _.
      split; [exact Hin |]. split; [exact Hq3 |]. split; [exact Hother |].
      split; [exact Href3 |]. split; reflexivity.
    + rewrite (bind_returned _ _ _ _ _ Hjump) in Hcall.
      rewrite select_timestamp_spec in Hcall.
      assert (Htrait3 : trait s3 = trait s).
      { unfold references_of in Href3. injection Href3 as _ _ _ _ _ _ -> _. exact Htrait. }
      rewrite Htrait3 in Hcall.
      set (lg3 := lg2 ++ (WARNING, msg_ucts_jump (event_id index) d (mul (sub u' d) lit_1e6))
                     :: (if Z.land presence 1 =? 0
                         then [(WARNING, msg_no_tib_trigger)] else [])) in *.
      assert (Hin : forall lg', (WARNING, msg_ucts_jump (event_id index) d
                                            (mul (sub u' d) lit_1e6)) ∈ lg3 ++ lg').
      { intros lg'. apply elem_of_app. left. apply elem_of_app. right.
        apply list_elem_of_here. }
      assert (Hin0 : (WARNING, msg_ucts_jump (event_id index) d (mul (sub u' d) lit_1e6))
                     ∈ lg3).
      { rewrite <- (app_nil_r lg3). apply Hin. }
      assert (Hrec : forall lg' : list log_record, (WARNING, msg_ucts_jump (event_id index) d
                                             (mul (sub u' d) lit_1e6)) ∈ lg' ->
                                 exists rec, rec ∈ lg' /\ is_jump_record rec).
      { intros lg' H. eexists. split; [exact H |]. eexists _, _, _. reflexivity. }
      assert (Hdebug : (DEBUG, msg_times t d d) ∈ lg3 ++ [(DEBUG, msg_times t d d)]).
      { apply elem_of_app. right. apply list_elem_of_here. }
      assert (Hucts : timestamp (trait s) tel_id = "ucts" ->
                      selected_time (timestamp (trait s) tel_id) d d t
                      = inr (Time_unix_tai d)).
      { intros ->. apply Time_of_unix_tai_finite, (int_of_float_mul_finite _ _ Hns). }
      destruct (selected_time (timestamp (trait s) tel_id) d d t) as [e | time0] eqn:Hsel.
      all: eexists _, _; (split; [exact Hcall |]); cbn [self lst log].
      all: split; [split; [intros _; apply Hrec; auto | reflexivity] |].
      all: split; [discriminate |]; intros _.
      all: split; [auto |]; split; [exact Hq3 |]; split; [exact Hother |].
      all: split; [exact Href3 |]; split; [reflexivity |].
      all: split; [intros time Htime; auto; try discriminate
                  | intros Hsel'; specialize (Hucts Hsel'); congruence].
  - (* no jump *)
    rewrite (bind_returned _ _ _ _ _ (jump_step_quiet _ _ _ _ _ _ _ _ Hgt)) in Hcall.
    rewrite select_timestamp_spec, Htrait in Hcall.
    assert (Hno : forall lg' : list log_record, lg' = lg2 \/ lg' = lg2 ++ [(DEBUG, msg_times t d u')] ->
                  (exists rec, rec ∈ lg' /\ is_jump_record rec) -> false = true).
    { intros lg' Hlg' (rec & Hrec & Hj). exfalso.
      destruct Hlg' as [-> | ->]; [exact (Hnojump rec Hrec Hj) |].
      apply elem_of_app in Hrec as [Hrec | Hrec]; [exact (Hnojump rec Hrec Hj) |].
      apply list_elem_of_singleton in Hrec as ->. destruct Hj as (? & ? & ? & [=]). }
    destruct (selected_time (timestamp (trait s) tel_id) u' d t).
    all: eexists _, _; (split; [exact Hcall |]); cbn [self lst log].
    all: split; [split; [discriminate | apply Hno; auto] |].
    all: split; [intros _; split; reflexivity | discriminate].
Qed.

(** *** What a call leaves alone *)

Lemma jump_step_frame tel_id index ts tt u d tib w r w' :
  jump_step tel_id index ts tt u d tib w = (r, w') ->
  references_of (self w') = references_of (self w) /\
  (forall tel, tel <> tel_id -> queues_at (self w') tel = queues_at (self w) tel) /\
  (gt (sub u d) lit_1e_6 = false -> w' = w /\ r = inr u) /\
  (forall rec, rec ∈ log w' -> rec ∈ log w \/ gt (sub u d) lit_1e_6 = true).
Proof.
  destruct (gt (sub u d) lit_1e_6) eqn:Hgt.
  - destruct w as [s l lg].
    destruct (jump_step_jump tel_id index ts tt u d tib s l lg Hgt)
      as (s' & Hrun & _ & Hother & Href).
    rewrite Hrun. destruct (int_of_float _); intros [= <- <-]; cbn [self log];
      (split; [exact Href |]); (split; [exact Hother |]);
      (split; [discriminate |]); intros rec _; right; reflexivity.
  - rewrite jump_step_quiet by exact Hgt. intros [= <- <-].
    split; [reflexivity |]. split; [reflexivity |]. split; [split; reflexivity |].
    intros rec Hrec. left. exact Hrec.
Qed.

Lemma references_state_at s s' tel :
  references_of s' = references_of s -> queues_at s' tel = queues_at s tel ->
  state_at s' tel = state_at s tel.
Proof.
  intros Href Hq. unfold references_of in Href. unfold state_at. rewrite Hq.
  injection Href as -> -> -> -> -> -> _ _. reflexivity.
Qed.

Lemma state_at_queues s s' tel :
  state_at s' tel = state_at s tel ->
  queues_at s' tel = queues_at s tel /\
  _has_dragon_reference s' !! tel = _has_dragon_reference s !! tel /\
  _has_tib_reference s' !! tel = _has_tib_reference s !! tel.
Proof.
  unfold state_at. intros H.
  split; [exact (f_equal snd H) |]. split.
  - exact (f_equal (fun x => fst (fst (fst (fst (fst (fst x)))))) H).
  - exact (f_equal (fun x => snd (fst (fst (fst (fst (fst x)))))) H).
Qed.

(** A call on one telescope leaves what is held for another as it was. *)
Lemma call_other_telescope s tel_id index l r w tel :
  call s tel_id index l = (r, w) -> tel <> tel_id ->
  state_at (self w) tel = state_at s tel.
Proof.
  intros Hcall Hne. apply call_outcomes in Hcall.
  destruct Hcall as [_ _ -> | i _ _ _ -> | i presence _ _ _ _ -> | i presence e _ _ _ _ _ ->
                   | i presence f rr w1 _ _ _ _ Href Hsteps];
    try reflexivity.
  destruct (reference_step_frame _ _ _ _ _ _ _ _ Href) as [(_ & _ & _ & _ & H1 & _) _].
  specialize (H1 tel Hne). cbn [self] in H1.
  destruct Hsteps as [e _ _ -> | d t e _ Hq _ | d t ts' tt' u' w2 e _ Hq Hj _
                      | d t ts' tt' u' w2 u'' w3 _ Hq Hj Hsel].
  - exact H1.
  - destruct (queue_step_frame _ _ _ _ _ _ _ Hq) as (Hr2 & _ & Hq2 & _).
    rewrite <- H1. apply references_state_at; [exact Hr2 | apply Hq2, Hne].
  - destruct (queue_step_frame _ _ _ _ _ _ _ Hq) as (Hr2 & _ & Hq2 & _).
    destruct (jump_step_frame _ _ _ _ _ _ _ _ _ _ Hj) as (Hr3 & Hq3 & _).
    rewrite <- H1. apply references_state_at.
    + rewrite Hr3. exact Hr2.
    + rewrite (Hq3 tel Hne). apply Hq2, Hne.
  - destruct (queue_step_frame _ _ _ _ _ _ _ Hq) as (Hr2 & _ & Hq2 & _).
    destruct (jump_step_frame _ _ _ _ _ _ _ _ _ _ Hj) as (Hr3 & Hq3 & _).
    destruct (select_timestamp_frame _ _ _ _ _ _ _ Hsel) as (-> & _).
    rewrite <- H1. apply references_state_at.
    + rewrite Hr3. exact Hr2.
    + rewrite (Hq3 tel Hne). apply Hq2, Hne.
Qed.

(** A call never puts a sample in the deques of a telescope that has no
    Dragon reference. *)
Lemma call_no_jump_before_reference s tel_id index l r w :
  no_jump_before_reference s -> call s tel_id index l = (r, w) ->
  no_jump_before_reference (self w).
Proof.
  intros Hinv Hcall. apply call_outcomes in Hcall.
  destruct Hcall as [_ _ -> | i _ _ _ -> | i presence _ _ _ _ -> | i presence e _ _ _ _ _ ->
                   | i presence f rr w1 _ _ _ _ Href Hsteps];
    try exact Hinv.
  destruct (reference_step_frame _ _ _ _ _ _ _ _ Href)
    as [(_ & _ & Hts & Htt & _ & Hmono & _) Hdragon].
  cbn [self] in *.
  assert (Hinv1 : no_jump_before_reference (self w1)).
  { intros tel Htel. unfold queues_at. rewrite Hts, Htt. apply Hinv.
    intros Hs. apply Htel, Hmono, Hs. }
  assert (Hstep : forall rq w2, queue_step tel_id (ucts_timestamp (evt l))
                    (ucts_trigger_type (evt (lst w1))) (mul f lit_1e_9) w1 = (rq, w2) ->
                  no_jump_before_reference (self w2) /\
                  _has_dragon_reference (self w2) = _has_dragon_reference (self w1)).
  { intros rq w2 Hq. destruct (queue_step_frame _ _ _ _ _ _ _ Hq) as (Hr2 & _ & Hq2 & Hempty).
    assert (Hhd : _has_dragon_reference (self w2) = _has_dragon_reference (self w1)).
    { unfold references_of in Hr2. injection Hr2 as -> _. reflexivity. }
    split; [| exact Hhd].
    intros tel Htel. rewrite Hhd in Htel.
    destruct (decide (tel = tel_id)) as [-> | Hne].
    - rewrite Hempty; [apply Hinv1, Htel |].
      specialize (Hinv1 tel_id Htel). unfold queues_at in Hinv1.
      injection Hinv1 as -> _. reflexivity.
    - rewrite (Hq2 tel Hne). apply Hinv1, Htel. }
  assert (Hjump : forall d t ts' tt' u' w2 rj w3,
            rr = inr (d, t) -> no_jump_before_reference (self w2) ->
            _has_dragon_reference (self w2) = _has_dragon_reference (self w1) ->
            jump_step tel_id index ts' tt' u' d (Z.land presence 1) w2
            = (rj, w3) ->
            no_jump_before_reference (self w3)).
  { intros d t ts' tt' u' w2 rj w3 Hrr Hinv2 Hhd Hj.
    destruct (jump_step_frame _ _ _ _ _ _ _ _ _ _ Hj) as (Hr3 & Hq3 & Hquiet & _).
    assert (Hhd3 : _has_dragon_reference (self w3) = _has_dragon_reference (self w1)).
    { unfold references_of in Hr3. injection Hr3 as -> _. exact Hhd. }
    destruct (gt (sub u' d) lit_1e_6) eqn:Hgt.
    - intros tel Htel. rewrite Hhd3 in Htel.
      destruct (decide (tel = tel_id)) as [-> | Hne].
      + exfalso. apply Htel, (Hdragon d t Hrr).
        intros ->. rewrite sub_nan_r, gt_nan_l in Hgt. discriminate.
      + rewrite (Hq3 tel Hne). apply Hinv2. rewrite Hhd. exact Htel.
    - destruct (Hquiet eq_refl) as [-> _]. exact Hinv2. }
  destruct Hsteps as [e _ _ -> | d t e _ Hq _ | d t ts' tt' u' w2 e Hrr Hq Hj _
                      | d t ts' tt' u' w2 u'' w3 Hrr Hq Hj Hsel].
  - exact Hinv1.
  - apply (Hstep _ _ Hq).
  - destruct (Hstep _ _ Hq) as [Hinv2 Hhd]. exact (Hjump _ _ _ _ _ _ _ _ Hrr Hinv2 Hhd Hj).
  - destruct (Hstep _ _ Hq) as [Hinv2 Hhd].
    destruct (select_timestamp_frame _ _ _ _ _ _ _ Hsel) as (-> & _).
    exact (Hjump _ _ _ _ _ _ _ _ Hrr Hinv2 Hhd Hj).
Qed.

(** *** Construction *)

(** One round of the loop of [__init__]: it never raises. *)
Lemma init_tel_spec tel_id s lg :
  exists s',
    init_tel tel_id (s, lg) = (inr tt, (s', lg)) /\
    _has_dragon_reference s' =
      <[tel_id := supplied (ucts_t0_dragon (trait s) tel_id) (dragon_counter0 (trait s) tel_id)]>
        (_has_dragon_reference s) /\
    _has_tib_reference s' =
      <[tel_id := supplied (ucts_t0_tib (trait s) tel_id) (tib_counter0 (trait s) tel_id)]>
        (_has_tib_reference s) /\
    previous_ucts_timestamps s' = previous_ucts_timestamps s /\
    previous_ucts_trigger_types s' = previous_ucts_trigger_types s /\
    trait s' = trait s /\ subarray_tel s' = subarray_tel s.
Proof.
  unfold init_tel, TelescopeParameter_eq_str, init_update, init_log, supplied.
  unfold when, bind, ret, raise, get, modify. cbn.
  destruct (is_not_None (ucts_t0_dragon (trait s) tel_id)
            && is_not_None (dragon_counter0 (trait s) tel_id)); cbn.
  - rewrite bool_decide_eq_false_2 by apply insert_non_empty. cbn.
    eexists. split; [reflexivity |]. cbn. repeat split.
  - rewrite bool_decide_eq_false_2 by apply insert_non_empty. cbn.
    eexists. split; [reflexivity |]. cbn. repeat split.
Qed.

Lemma for_each_init_tel tels s0 lg :
  exists s,
    for_each init_tel tels (s0, lg) = (inr tt, (s, lg)) /\
    (forall tel,
       _has_dragon_reference s !! tel =
         if decide (tel ∈ tels)
         then Some (supplied (ucts_t0_dragon (trait s0) tel) (dragon_counter0 (trait s0) tel))
         else _has_dragon_reference s0 !! tel) /\
    (forall tel,
       _has_tib_reference s !! tel =
         if decide (tel ∈ tels)
         then Some (supplied (ucts_t0_tib (trait s0) tel) (tib_counter0 (trait s0) tel))
         else _has_tib_reference s0 !! tel) /\
    previous_ucts_timestamps s = previous_ucts_timestamps s0 /\
    previous_ucts_trigger_types s = previous_ucts_trigger_types s0 /\
    trait s = trait s0.
Proof.
  revert s0. induction tels as [| tel_id tels IH]; intros s0.
  - exists s0. split; [reflexivity |].
    split; [| split]; [intros tel; destruct (decide (tel ∈ [])) as [H | _];
                       [apply elem_of_nil in H; destruct H | reflexivity] .. |].
    repeat split.
  - destruct (init_tel_spec tel_id s0 lg) as (s1 & Hrun & Hd & Ht & Hq1 & Hq2 & Htr & _).
    destruct (IH s1) as (s & Hloop & Hds & Hts & Hqs1 & Hqs2 & Htrs).
    exists s. split.
    { cbn [for_each]. rewrite (bind_returned _ _ _ _ _ Hrun). exact Hloop. }
    rewrite Htr in Hds, Hts.
    split; [| split; [| split; [congruence | split; congruence]]].
    + intros tel. rewrite Hds, Hd.
      destruct (decide (tel ∈ tels)) as [Hin | Hout];
        destruct (decide (tel ∈ tel_id :: tels)) as [Hin' | Hout']; try reflexivity.
      * exfalso. apply Hout', list_elem_of_further, Hin.
      * apply elem_of_cons in Hin' as [-> | Hin']; [apply lookup_insert_eq | contradiction].
      * apply lookup_insert_ne. intros ->. apply Hout', list_elem_of_here.
    + intros tel. rewrite Hts, Ht.
      destruct (decide (tel ∈ tels)) as [Hin | Hout];
        destruct (decide (tel ∈ tel_id :: tels)) as [Hin' | Hout']; try reflexivity.
      * exfalso. apply Hout', list_elem_of_further, Hin.
      * apply elem_of_cons in Hin' as [-> | Hin']; [apply lookup_insert_eq | contradiction].
      * apply lookup_insert_ne. intros ->. apply Hout', list_elem_of_here.
Qed.

(** What [__init__] builds: it returns for every configuration, with a
    Dragon and a TIB reference for the telescopes they are supplied for,
    and with empty deques. *)
Lemma init_spec tels t :
  exists s lg,
    __init__ tels t = (inr tt, (s, lg)) /\
    (forall tel, tel ∈ tels ->
       _has_dragon_reference s !! tel
       = Some (supplied (ucts_t0_dragon t tel) (dragon_counter0 t tel)) /\
       _has_tib_reference s !! tel
       = Some (supplied (ucts_t0_tib t tel) (tib_counter0 t tel))) /\
    (forall tel, queues_at s tel = ([], [])) /\
    trait s = t.
Proof.
  unfold __init__. destruct (for_each_init_tel tels (blank tels t) [])
    as (s & Hrun & Hd & Ht & Hq1 & Hq2 & Htr).
  exists s, []. split; [exact Hrun |]. split; [| split; [| exact Htr]].
  - intros tel Hin. rewrite Hd, Ht. rewrite !decide_True by exact Hin.
    split; reflexivity.
  - intros tel. unfold queues_at, deque_of. rewrite Hq1, Hq2. cbn.
    rewrite !lookup_empty. reflexivity.
Qed.

(** *** Reachable calculators *)

Lemma reachable_trait tels t s : reachable tels t s -> trait s = t.
Proof.
  induction 1 as [s lg Hinit | s tel_id index l r w Hs IH Hcall].
  - destruct (init_spec tels t) as (s' & lg' & Hrun & _ & _ & Htr).
    rewrite Hrun in Hinit. injection Hinit as <- _. exact Htr.
  - rewrite <- IH. apply call_outcomes in Hcall.
    destruct Hcall as [_ _ -> | i _ _ _ -> | i presence _ _ _ _ -> | i presence e _ _ _ _ _ ->
                   | i presence f rr w1 _ _ _ _ Href Hsteps];
      try reflexivity.
    destruct (reference_step_frame _ _ _ _ _ _ _ _ Href) as [(_ & Htr & _) _].
    cbn [self] in Htr. rewrite <- Htr.
    assert (Hkeep : forall s1 s2, references_of s2 = references_of s1 -> trait s2 = trait s1).
    { intros s1 s2 H. unfold references_of in H. injection H as _ _ _ _ _ _ -> _.
      reflexivity. }
    destruct Hsteps as [e _ _ -> | d t' e _ Hq _ | d t' ts' tt' u' w2 e _ Hq Hj _
                        | d t' ts' tt' u' w2 u'' w3 _ Hq Hj Hsel].
    + reflexivity.
    + apply Hkeep, (queue_step_frame _ _ _ _ _ _ _ Hq).
    + rewrite (Hkeep _ _ (proj1 (jump_step_frame _ _ _ _ _ _ _ _ _ _ Hj))).
      apply Hkeep, (queue_step_frame _ _ _ _ _ _ _ Hq).
    + destruct (select_timestamp_frame _ _ _ _ _ _ _ Hsel) as (-> & _).
      rewrite (Hkeep _ _ (proj1 (jump_step_frame _ _ _ _ _ _ _ _ _ _ Hj))).
      apply Hkeep, (queue_step_frame _ _ _ _ _ _ _ Hq).
Qed.

Lemma reachable_no_jump_before_reference tels t s :
  reachable tels t s -> no_jump_before_reference s.
Proof.
  induction 1 as [s lg Hinit | s tel_id index l r w Hs IH Hcall].
  - destruct (init_spec tels t) as (s' & lg' & Hrun & _ & Hq & _).
    rewrite Hrun in Hinit. injection Hinit as <- _. intros tel _. apply Hq.
  - exact (call_no_jump_before_reference _ _ _ _ _ _ IH Hcall).
Qed.

(** *** The first event as reference *)

Lemma reference_step_no_reference tel_id i ts u tib w :
  _has_dragon_reference (self w) !! tel_id = Some false ->
  _has_tib_reference (self w) !! tel_id = Some false ->
  reference_step tel_id i ts u tib w = first_event_reference tel_id i ts u tib w.
Proof.
  intros Hd Ht. unfold reference_step, from_option, bind, get, ret.
  cbn -[first_event_reference times_from_references]. rewrite Hd, Ht. reflexivity.
Qed.

Lemma reference_step_with_reference tel_id i ts u tib w :
  _has_dragon_reference (self w) !! tel_id = Some true \/
  (_has_dragon_reference (self w) !! tel_id = Some false /\
   _has_tib_reference (self w) !! tel_id = Some true) ->
  reference_step tel_id i ts u tib w = times_from_references tel_id i tib w.
Proof.
  intros [Hd | [Hd Ht]]; unfold reference_step, from_option, bind, get, ret;
    cbn -[first_event_reference times_from_references]; rewrite Hd.
  - reflexivity.
  - rewrite Ht. reflexivity.
Qed.

(** C4. On a calculator that holds neither reference for the telescope, an
    event with the external clock available becomes the reference: the
    Dragon reference is the UCTS timestamp with
    [10^9 * pps_counter + 100 * tenMHz_counter] of the configured module,
    the TIB reference is set likewise from the TIB counters when the TIB is
    present, each is logged as critical, the Dragon time of the event is its
    UCTS time, and no jump is declared: the deques stay empty and the event
    is as it was. The call ends with [Time] of the selected clock, which
    for the TIB clock on an event without the TIB is NaN: [Time] raises
    [ValueError] then, with the reference taken. (The code does not look at
    [use_first_event] here.) *)
Theorem first_event_is_reference tels t s tel_id index l i presence pps tenMHz :
  reachable tels t s ->
  _has_dragon_reference s !! tel_id = Some false ->
  _has_tib_reference s !! tel_id = Some false ->
  extdevices_presence (evt l) = Some presence ->
  Z.land presence 2 <> 0 ->
  index_of (dragon_module_id (trait s) tel_id) (module_ids (svc l)) = Some i ->
  item (pps_counter (evt l)) i = inr pps ->
  item (tenMHz_counter (evt l)) i = inr tenMHz ->
  0 <= ucts_timestamp (evt l) < 2 ^ 64 ->
  let ts := ucts_timestamp (evt l) in
  let tib := Z.land presence 1 in
  let ucts_time := mul (round_int ts) lit_1e_9 in
  let tib_time := if tib =? 0 then nan else ucts_time in
  let tib_counter := 1000000000 * tib_pps_counter (evt l) + 100 * tib_tenMHz_counter (evt l) in
  exists r w,
    call s tel_id index l = (r, w) /\
    (* the Dragon reference *)
    _has_dragon_reference (self w) !! tel_id = Some true /\
    _ucts_t0_dragon (self w) !! tel_id = Some (Some ts) /\
    _dragon_counter0 (self w) !! tel_id = Some (Some (1000000000 * pps + 100 * tenMHz)) /\
    (CRITICAL, msg_dragon_reference ts (1000000000 * pps + 100 * tenMHz)) ∈ log w /\
    (* the TIB reference *)
    (tib <> 0 ->
     _has_tib_reference (self w) !! tel_id = Some true /\
     _ucts_t0_tib (self w) !! tel_id = Some (Some ts) /\
     _tib_counter0 (self w) !! tel_id = Some (Some tib_counter) /\
     (CRITICAL, msg_tib_reference ts tib_counter) ∈ log w) /\
    (tib = 0 ->
     _has_tib_reference (self w) !! tel_id = Some false /\
     _ucts_t0_tib (self w) !! tel_id = _ucts_t0_tib s !! tel_id /\
     _tib_counter0 (self w) !! tel_id = _tib_counter0 s !! tel_id) /\
    (* no jump *)
    queues_at (self w) tel_id = ([], []) /\
    lst w = l /\
    (forall rec, rec ∈ log w -> ~ is_jump_record rec) /\
    (* the times: the Dragon time and, with the TIB, the TIB time are the
       UCTS time *)
    r = (if String.eqb (timestamp t tel_id) "ucts" then Time_of_unix_tai ucts_time
         else if String.eqb (timestamp t tel_id) "dragon" then Time_of_unix_tai ucts_time
         else if String.eqb (timestamp t tel_id) "tib" then Time_of_unix_tai tib_time
         else inl (ValueError "Unknown timestamp requested")) /\
    (timestamp t tel_id = "tib" -> tib = 0 ->
     r = inl (ValueError "Input values did not match the format class unix_tai")) /\
    (forall time, r = inr time ->
       (DEBUG, msg_times tib_time ucts_time ucts_time) ∈ log w).
Proof.
  intros Hreach Hd Ht Hp Hu Hi Hpps Hten Hts ts tib ucts_time tib_time tib_counter.
  subst tib_counter tib_time.
  pose proof (reachable_trait _ _ _ Hreach) as Htrait.
  pose proof (reachable_no_jump_before_reference _ _ _ Hreach tel_id) as Hempty.
  rewrite Hd in Hempty. specialize (Hempty ltac:(discriminate)).
  destruct (first_event_reference_spec tel_id i ts ucts_time tib s l [] pps tenMHz Hpps Hten)
    as (s1 & Hrun & Hhd & Ht0 & Hc0 & Hht & Htt0 & Htc0 & Hq1 & Hq2 & Htr & _).
  assert (Hqueue : queues_at s1 tel_id = ([], [])).
  { unfold queues_at. rewrite Hq1, Hq2. exact Hempty. }
  rewrite call_unfold, Hi, Hp.
  destruct (Z.eqb_spec (Z.land presence 2) 0); [contradiction |].
  rewrite float_of_int_small by (fold ts; lia).
  fold ts. fold ucts_time. fold tib.
  rewrite (bind_returned _ _ _ _ _
             (eq_trans (reference_step_no_reference tel_id i ts ucts_time tib
                          {| self := s; lst := l; log := [] |} Hd Ht) Hrun)).
  cbn [fst snd]. rewrite jumps_and_selection_unfold. cbn [lst app].
  assert (Hq0 : deque_of (previous_ucts_timestamps s1) tel_id = [])
    by exact (f_equal fst Hqueue).
  match goal with
  | |- context [bind (queue_step ?a ?b ?c ?d) ?k ?w] =>
      rewrite (bind_returned (queue_step a b c d) k w w (b, c, d)
                 (queue_step_empty a b c d w Hq0))
  end.
  cbn [fst snd].
  rewrite (bind_returned _ _ _ _ _
             (jump_step_quiet tel_id index ts _ ucts_time ucts_time tib _
                (gt_sub_diag ucts_time))).
  rewrite select_timestamp_spec, Htr, Htrait.
  set (tib_counter := 1000000000 * tib_pps_counter (evt l)
                      + 100 * tib_tenMHz_counter (evt l)) in *.
  set (lg1 := (CRITICAL, msg_dragon_reference ts (1000000000 * pps + 100 * tenMHz))
              :: (if tib =? 0 then []
                  else [(CRITICAL, msg_tib_reference ts tib_counter)])).
  assert (Hin1 : forall lg', (CRITICAL, msg_dragon_reference ts
                                (1000000000 * pps + 100 * tenMHz)) ∈ lg1 ++ lg').
  { intros lg'. apply elem_of_app. left. apply list_elem_of_here. }
  assert (Hin2 : tib <> 0 -> forall lg', (CRITICAL, msg_tib_reference ts tib_counter)
                                         ∈ lg1 ++ lg').
  { intros Htib lg'. apply elem_of_app. left. unfold lg1.
    destruct (Z.eqb_spec tib 0); [contradiction |].
    apply list_elem_of_further, list_elem_of_here. }
  assert (Hnojump : forall lg', lg' = [] \/ lg' = [(DEBUG, msg_times
                      (if tib =? 0 then nan else ucts_time) ucts_time ucts_time)] ->
                    forall rec, rec ∈ lg1 ++ lg' -> ~ is_jump_record rec).
  { intros lg' Hlg' rec Hrec (a & b & c & ->).
    apply elem_of_app in Hrec as [Hrec | Hrec].
    - unfold lg1 in Hrec. apply elem_of_cons in Hrec as [[=] | Hrec].
      destruct (tib =? 0); [apply elem_of_nil in Hrec; destruct Hrec |].
      apply list_elem_of_singleton in Hrec. discriminate.
    - destruct Hlg' as [-> | ->]; [apply elem_of_nil in Hrec; destruct Hrec |].
      apply list_elem_of_singleton in Hrec. discriminate. }
  assert (Hdebug : (DEBUG, msg_times (if tib =? 0 then nan else ucts_time) ucts_time ucts_time)
                   ∈ lg1 ++ [(DEBUG, msg_times (if tib =? 0 then nan else ucts_time)
                                       ucts_time ucts_time)]).
  { apply elem_of_app. right. apply list_elem_of_here. }
  assert (Htib1 : tib <> 0 ->
            _has_tib_reference s1 !! tel_id = Some true /\
            _ucts_t0_tib s1 !! tel_id = Some (Some ts) /\
            _tib_counter0 s1 !! tel_id = Some (Some tib_counter)).
  { intros Htib. rewrite Hht, Htt0, Htc0. destruct (Z.eqb_spec tib 0); [contradiction |].
    rewrite !lookup_insert_eq. repeat split. }
  assert (Htib0 : tib = 0 ->
            _has_tib_reference s1 !! tel_id = Some false /\
            _ucts_t0_tib s1 !! tel_id = _ucts_t0_tib s !! tel_id /\
            _tib_counter0 s1 !! tel_id = _tib_counter0 s !! tel_id).
  { intros Htib. rewrite Hht, Htt0, Htc0, Htib. cbn. repeat split. exact Ht. }
  assert (Hdragon1 : _has_dragon_reference s1 !! tel_id = Some true /\
            _ucts_t0_dragon s1 !! tel_id = Some (Some ts) /\
            _dragon_counter0 s1 !! tel_id = Some (Some (1000000000 * pps + 100 * tenMHz))).
  { rewrite Hhd, Ht0, Hc0, !lookup_insert_eq. repeat split. }
  destruct Hdragon1 as (Hd1 & Hd2 & Hd3).
  destruct (selected_time _ _ _ _) as [e | time0] eqn:Hsel.
  all: eexists _, _; (split; [reflexivity |]); cbn [self lst log].
  all: split; [exact Hd1 |]; split; [exact Hd2 |]; split; [exact Hd3 |].
  all: split; [first [apply Hin1 | rewrite <- (app_nil_r lg1); apply Hin1] |].
  all: split; [intros Htib; destruct (Htib1 Htib) as (? & ? & ?);
               split_and!; try assumption;
               first [apply Hin2; assumption
                     | rewrite <- (app_nil_r lg1); apply Hin2; assumption] |].
  all: split; [exact Htib0 |]; split; [exact Hqueue |]; split; [reflexivity |].
  all: split; [first [apply Hnojump; auto
                     | rewrite <- (app_nil_r lg1); apply Hnojump; auto] |].
  all: split; [symmetry; exact Hsel |].
  all: split; [intros Hsel' Htib; rewrite Hsel', Htib in Hsel; cbn in Hsel; congruence |].
  all: intros time Htime; first [exact Hdebug | discriminate].
Qed.

(** *** A TIB reference without a Dragon reference *)

(** A call for a telescope that has the TIB reference only. *)
Lemma call_tib_reference_only s tel_id index l r w :
  _has_dragon_reference s !! tel_id = Some false ->
  _has_tib_reference s !! tel_id = Some true ->
  queues_at s tel_id = ([], []) ->
  call s tel_id index l = (r, w) ->
  self w = s /\ lst w = l /\
  (forall rec, rec ∈ log w -> ~ is_jump_record rec /\ ~ is_reference_record rec) /\
  (forall tib dragon ucts, (DEBUG, msg_times tib dragon ucts) ∈ log w -> dragon = nan).
Proof.
  intros Hd Ht Hq Hcall. apply call_outcomes in Hcall.
  assert (Hnil : forall rec : log_record,
            rec ∈ [] -> ~ is_jump_record rec /\ ~ is_reference_record rec).
  { intros rec Hrec. apply elem_of_nil in Hrec. destruct Hrec. }
  assert (Hnil' : forall tib dragon ucts,
            (DEBUG, msg_times tib dragon ucts) ∈ ([] : list log_record) -> dragon = nan).
  { intros tib dragon ucts Hrec. apply elem_of_nil in Hrec. destruct Hrec. }
  destruct Hcall as [_ -> -> | i _ _ -> -> | i presence _ _ _ -> -> | i presence e _ _ _ _ -> ->
                   | i presence f rr w1 _ _ _ _ Href Hsteps];
    cbn [self lst log].
  - repeat split; auto; apply (Hnil rec); assumption.
  - repeat split; auto; apply (Hnil rec); assumption.
  - split; [reflexivity |]. split; [reflexivity |]. split.
    + intros rec Hrec. apply list_elem_of_singleton in Hrec as ->.
      split; [intros (? & ? & ? & [=]) | intros (? & ? & [[=] | [=]])].
    + intros tib dragon ucts Hrec. apply list_elem_of_singleton in Hrec. discriminate.
  - repeat split; auto; apply (Hnil rec); assumption.
  - rewrite reference_step_with_reference in Href by (right; split; assumption).
    destruct (times_from_references_spec _ _ _ _ _ _ Href) as [-> Htimes].
    cbn [self lst log] in *.
    assert (Hqueue : forall ts tt u, queue_step tel_id ts tt u {| self := s; lst := l; log := [] |}
                                     = (inr (ts, tt, u), {| self := s; lst := l; log := [] |})).
    { intros ts tt u. apply queue_step_empty. cbn [self]. exact (f_equal fst Hq). }
    destruct Hsteps as [e _ _ -> | d t e _ Hqs _ | d t ts' tt' u' w2 e Hrr Hqs Hj _
                        | d t ts' tt' u' w2 u'' w3 Hrr Hqs Hj Hsel].
    + cbn [self lst log]. repeat split; auto; apply (Hnil rec); assumption.
    + rewrite Hqueue in Hqs. discriminate.
    + rewrite Hqueue in Hqs. injection Hqs as <- <- <- <-.
      pose proof (proj2 (Htimes d t Hrr) Hd) as ->.
      rewrite jump_step_quiet in Hj by (rewrite sub_nan_r; apply gt_nan_l). discriminate.
    + rewrite Hqueue in Hqs. injection Hqs as <- <- <- <-.
      pose proof (proj2 (Htimes d t Hrr) Hd) as ->.
      rewrite jump_step_quiet in Hj by (rewrite sub_nan_r; apply gt_nan_l).
      injection Hj as <- <-.
      rewrite select_timestamp_spec in Hsel.
      assert (Hdebug : forall rec, rec ∈ [] ++ [(DEBUG, msg_times t nan (mul f lit_1e_9))] ->
                (~ is_jump_record rec /\ ~ is_reference_record rec) /\
                (forall tib dragon ucts, rec = (DEBUG, msg_times tib dragon ucts) ->
                                         dragon = nan)).
      { intros rec Hrec. apply list_elem_of_singleton in Hrec as ->.
        split; [split; [intros (? & ? & ? & [=]) | intros (? & ? & [[=] | [=]])] |].
        intros tib dragon ucts [= _ <- _]. reflexivity. }
      destruct (selected_time _ _ _ _); injection Hsel as <- <-; cbn [self lst log];
        (split; [reflexivity |]); (split; [reflexivity |]);
        first [ split; [intros rec Hrec; apply (Hdebug rec Hrec) |];
                intros tib dragon ucts Hrec; exact (proj2 (Hdebug _ Hrec) _ _ _ eq_refl)
              | split; [exact Hnil | exact Hnil'] ].
Qed.

(** C10. A telescope for which the TIB reference is supplied and the
    Dragon reference is not keeps, in every calculator the program can
    reach, no Dragon reference, the TIB reference and empty deques; a call
    for it takes no event as reference, gives NaN as the Dragon time,
    declares no jump and leaves the calculator and the fields of the event
    as they were. *)
Theorem tib_reference_only_never_jumps tels t tel_id a b s :
  tel_id ∈ tels ->
  ucts_t0_tib t tel_id = Some a -> tib_counter0 t tel_id = Some b ->
  supplied (ucts_t0_dragon t tel_id) (dragon_counter0 t tel_id) = false ->
  reachable tels t s ->
  (_has_dragon_reference s !! tel_id = Some false /\
   _has_tib_reference s !! tel_id = Some true /\
   queues_at s tel_id = ([], [])) /\
  forall index l r w,
    call s tel_id index l = (r, w) ->
    self w = s /\ lst w = l /\
    (forall rec, rec ∈ log w -> ~ is_jump_record rec /\ ~ is_reference_record rec) /\
    (forall tib dragon ucts, (DEBUG, msg_times tib dragon ucts) ∈ log w -> dragon = nan).
Proof.
  intros Hin Ha Hb Hdragon Hreach.
  assert (Hinv : _has_dragon_reference s !! tel_id = Some false /\
                 _has_tib_reference s !! tel_id = Some true /\
                 queues_at s tel_id = ([], [])).
  { induction Hreach as [s lg Hinit | s tel_id' index l r w Hs IH Hcall].
    - destruct (init_spec tels t) as (s' & lg' & Hrun & Href & Hq & _).
      rewrite Hrun in Hinit. injection Hinit as <- _.
      destruct (Href tel_id Hin) as [Hd Ht]. rewrite Hd, Ht, Hdragon.
      unfold supplied. rewrite Ha, Hb. repeat split. apply Hq.
    - destruct IH as (Hd & Ht & Hq).
      destruct (decide (tel_id = tel_id')) as [<- | Hne].
      + destruct (call_tib_reference_only _ _ _ _ _ _ Hd Ht Hq Hcall) as (-> & _).
        repeat split; assumption.
      + destruct (state_at_queues _ _ _ (call_other_telescope _ _ _ _ _ _ _ Hcall Hne))
          as (-> & -> & ->).
        repeat split; assumption. }
  split; [exact Hinv |].
  destruct Hinv as (Hd & Ht & Hq). intros index l r w Hcall.
  exact (call_tib_reference_only _ _ _ _ _ _ Hd Ht Hq Hcall).
Qed.

(** *** The missing reference *)

(** [__init__] returns whatever the configuration is. *)
Lemma init_never_raises tels t : fst (__init__ tels t) = inr tt.
Proof. destruct (init_spec tels t) as (s & lg & -> & _). reflexivity. Qed.

(** C6, on the code. With Dragon or TIB selected, no reference supplied and
    [use_first_event] disabled, [__init__] returns instead of raising; and
    with TIB selected, the call on a first event without the TIB does not
    raise the error of line 250 for it. *)
Theorem missing_reference_is_not_raised :
  fst (__init__ [1] (with_references "dragon" None None false)) = inr tt /\
  fst (__init__ [1] (with_references "tib" None None false)) = inr tt /\
  fst (call (calculator (with_references "tib" None None true)) 1 index_1
         (container 132 2 1600000000000000000 1 10 0))
  <> inl (ValueError
      "TIB is selected for timestamp, no external reference given and first event has not TIB info").
Proof. split; [reflexivity |]. split; [reflexivity |]. vm_compute. discriminate. Qed.

(** *** The two deques as one queue of pairs *)

Lemma call_deques_in_step s tel_id index l r w :
  deques_in_step s -> call s tel_id index l = (r, w) -> deques_in_step (self w).
Proof.
  intros Hinv Hcall. apply call_outcomes in Hcall.
  destruct Hcall as [_ _ -> | i _ _ _ -> | i presence _ _ _ _ -> | i presence e _ _ _ _ _ ->
                   | i presence f rr w1 _ _ _ _ Href Hsteps];
    try exact Hinv.
  destruct (reference_step_frame _ _ _ _ _ _ _ _ Href) as [(_ & _ & Hts & Htt & _) _].
  cbn [self] in *.
  assert (Hinv1 : deques_in_step (self w1)).
  { intros tel. unfold queues_at. rewrite Hts, Htt. apply Hinv. }
  assert (Hstep : forall rq w2, queue_step tel_id (ucts_timestamp (evt l))
                    (ucts_trigger_type (evt (lst w1))) (mul f lit_1e_9) w1 = (rq, w2) ->
                  deques_in_step (self w2)).
  { intros rq w2 Hq. destruct (queue_step_frame _ _ _ _ _ _ _ Hq) as (_ & _ & Hq2 & Hempty).
    intros tel. destruct (decide (tel = tel_id)) as [-> | Hne];
      [| rewrite (Hq2 tel Hne); apply Hinv1].
    pose proof (Hinv1 tel_id) as Hlen.
    destruct (queues_at (self w1) tel_id) as [[| t0 q] [| g0 r0]] eqn:Hqueues;
      cbn [fst snd length] in Hlen; try discriminate.
    - rewrite Hempty by exact (f_equal fst Hqueues). rewrite Hqueues. reflexivity.
    - destruct w1 as [s1 l1 lg1]. cbn [self lst] in *.
      destruct (queue_step_shift tel_id (ucts_timestamp (evt l)) (ucts_trigger_type (evt l1))
                  (mul f lit_1e_9) s1 l1 lg1 t0 q g0 r0 Hqueues) as (s2 & Hrun & Hq' & _).
      rewrite Hrun in Hq.
      assert (Hs2 : self w2 = s2) by (destruct (float_of_int t0); injection Hq as _ <-; reflexivity).
      rewrite Hs2, Hq'. cbn [fst snd]. rewrite !length_app. cbn [length]. lia. }
  assert (Hjump : forall d ts' tt' u' w2 rj w3,
            deques_in_step (self w2) ->
            jump_step tel_id index ts' tt' u' d (Z.land presence 1) w2
            = (rj, w3) ->
            deques_in_step (self w3)).
  { intros d ts' tt' u' w2 rj w3 Hinv2 Hj.
    destruct (gt (sub u' d) lit_1e_6) eqn:Hgt.
    - destruct w2 as [s2 l2 lg2]. cbn [self] in *.
      destruct (jump_step_jump tel_id index ts' tt' u' d
                  (Z.land presence 1) s2 l2 lg2 Hgt)
        as (s3 & Hrun & Hq3 & Hother & _).
      rewrite Hrun in Hj.
      assert (Hs3 : self w3 = s3)
        by (destruct (int_of_float _); injection Hj as _ <-; reflexivity).
      rewrite Hs3. intros tel. destruct (decide (tel = tel_id)) as [-> | Hne].
      + rewrite Hq3. cbn [fst snd length]. rewrite (Hinv2 tel_id). reflexivity.
      + rewrite (Hother tel Hne). apply Hinv2.
    - rewrite jump_step_quiet in Hj by exact Hgt. injection Hj as _ <-. exact Hinv2. }
  destruct Hsteps as [e _ _ -> | d t e _ Hq _ | d t ts' tt' u' w2 e Hrr Hq Hj _
                      | d t ts' tt' u' w2 u'' w3 Hrr Hq Hj Hsel].
  - exact Hinv1.
  - exact (Hstep _ _ Hq).
  - exact (Hjump _ _ _ _ _ _ _ (Hstep _ _ Hq) Hj).
  - destruct (select_timestamp_frame _ _ _ _ _ _ _ Hsel) as (-> & _).
    exact (Hjump _ _ _ _ _ _ _ (Hstep _ _ Hq) Hj).
Qed.

(** In every calculator a program can reach the two deques of a telescope
    are empty together. *)
Lemma reachable_deques_in_step tels t s : reachable tels t s -> deques_in_step s.
Proof.
  induction 1 as [s lg Hinit | s tel_id index l r w Hs IH Hcall].
  - destruct (init_spec tels t) as (s' & lg' & Hrun & _ & Hq & _).
    rewrite Hrun in Hinit. injection Hinit as <- _. intros tel. rewrite Hq. reflexivity.
  - exact (call_deques_in_step _ _ _ _ _ _ IH Hcall).
Qed.

(** *** The properties at concrete events *)

(** [after_event_10] is the calculator the call on [event_10] leaves. *)
Lemma after_event_10_reached :
  self (snd (call referenced 1 index_1 event_10)) = after_event_10.
Proof. vm_compute. reflexivity. Qed.

Lemma jump_declared_witness :
  exists f d t w1 s2 l2 lg2,
    index_of (dragon_module_id (trait referenced) 1) (module_ids (svc event_10)) = Some 0%nat /\
    extdevices_presence (evt event_10) = Some 3 /\
    Z.land 3 2 <> 0 /\
    float_of_int (ucts_timestamp (evt event_10)) = inr f /\
    reference_step 1 0 (ucts_timestamp (evt event_10)) (mul f lit_1e_9)
      (Z.land 3 1)
      {| self := referenced; lst := event_10; log := [] |}
    = (inr (d, t), w1) /\
    queue_step 1 (ucts_timestamp (evt event_10)) (ucts_trigger_type (evt event_10))
      (mul f lit_1e_9) w1
    = (inr (ucts_timestamp (evt event_10), ucts_trigger_type (evt event_10), mul f lit_1e_9),
       {| self := s2; lst := l2; log := lg2 |}) /\
    gt (sub (mul f lit_1e_9) d) lit_1e_6 = true /\
    queues_at (self (snd (call referenced 1 index_1 event_10))) 1
    = ([t_ref + 11000000000], [1]) /\
    ucts_timestamp (evt (lst (snd (call referenced 1 index_1 event_10)))) = t_ref + 10000000000 /\
    ucts_trigger_type (evt (lst (snd (call referenced 1 index_1 event_10)))) = 32.
Proof.
  eexists _, _, _, _, _, _, _.
  split; [reflexivity |]. split; [reflexivity |]. split; [discriminate |].
  split; [reflexivity |].
  split; [reflexivity |]. split; [reflexivity |]. split; [vm_compute; reflexivity |].
  assert (Hne : Z.land 3 2 <> 0) by discriminate.
  destruct (jump_declared referenced 1 index_1 event_10 0%nat 3 _ _ _ _ _ _ _ _ _ _
              eq_refl eq_refl Hne eq_refl eq_refl eq_refl)
    as (r & w & Hcall & _ & _ & Hjump).
  destruct (Hjump ltac:(vm_compute; reflexivity)) as (_ & Hq & _ & _ & Hns).
  rewrite Hcall. cbn [snd]. split; [exact Hq |].
  destruct (int_of_float _) as [e | ns] eqn:Hint; vm_compute in Hint; [discriminate |].
  injection Hint as <-. destruct Hns as (-> & _). split; reflexivity.
Defined.

Lemma queue_substitution_witness :
  exists f d t w1 f0,
    index_of (dragon_module_id (trait after_event_10) 1) (module_ids (svc event_11))
    = Some 0%nat /\
    extdevices_presence (evt event_11) = Some 3 /\
    Z.land 3 2 <> 0 /\
    float_of_int (ucts_timestamp (evt event_11)) = inr f /\
    reference_step 1 0 (ucts_timestamp (evt event_11)) (mul f lit_1e_9)
      (Z.land 3 1)
      {| self := after_event_10; lst := event_11; log := [] |}
    = (inr (d, t), w1) /\
    queues_at (self w1) 1 = ([t_ref + 11000000000], [1]) /\
    float_of_int (t_ref + 11000000000) = inr f0 /\
    exists s2 l2,
      queue_step 1 (ucts_timestamp (evt event_11)) (ucts_trigger_type (evt event_11))
        (mul f lit_1e_9) w1
      = (inr (t_ref + 11000000000, 1, mul f0 lit_1e_9),
         {| self := s2; lst := l2; log := log w1 |}) /\
      queues_at s2 1 = ([t_ref + 12000000000], [2]) /\
      ucts_timestamp (evt l2) = t_ref + 11000000000 /\
      ucts_trigger_type (evt l2) = 1.
Proof.
  eexists _, _, _, _, _.
  split; [reflexivity |]. split; [reflexivity |]. split; [discriminate |].
  split; [reflexivity |].
  split; [reflexivity |]. split; [reflexivity |]. split; [reflexivity |].
  assert (Hne : Z.land 3 2 <> 0) by discriminate.
  destruct (queue_substitution after_event_10 1 index_2 event_11 0%nat 3 _ _ _ _
              (t_ref + 11000000000) [] 1 [] _
              eq_refl eq_refl Hne eq_refl eq_refl eq_refl eq_refl)
    as (s2 & l2 & Hrun & Hq & _ & _ & _ & _ & Hts & Htt & _).
  exists s2, l2. split; [exact Hrun |]. split; [exact Hq |]. split; assumption.
Defined.

Lemma first_event_is_reference_witness :
  reachable [1] default_traits (calculator default_traits) /\
  _has_dragon_reference (calculator default_traits) !! 1 = Some false /\
  _has_tib_reference (calculator default_traits) !! 1 = Some false /\
  extdevices_presence (evt event_10) = Some 3 /\
  Z.land 3 2 <> 0 /\
  index_of (dragon_module_id (trait (calculator default_traits)) 1)
           (module_ids (svc event_10)) = Some 0%nat /\
  item (pps_counter (evt event_10)) 0 = inr 10 /\
  item (tenMHz_counter (evt event_10)) 0 = inr 0 /\
  0 <= ucts_timestamp (evt event_10) < 2 ^ 64 /\
  exists r w,
    call (calculator default_traits) 1 index_1 event_10 = (r, w) /\
    _ucts_t0_dragon (self w) !! 1 = Some (Some (t_ref + 11000000000)) /\
    _dragon_counter0 (self w) !! 1 = Some (Some 10000000000) /\
    queues_at (self w) 1 = ([], []) /\
    r = inr (Time_unix_tai (mul (round_int (t_ref + 11000000000)) lit_1e_9)).
Proof.
  assert (Hreach : reachable [1] default_traits (calculator default_traits)).
  { apply (reachable_init [1] default_traits (calculator default_traits) []). reflexivity. }
  assert (Hne : Z.land 3 2 <> 0) by discriminate.
  assert (Hts : 0 <= ucts_timestamp (evt event_10) < 2 ^ 64) by (cbn; unfold t_ref; lia).
  split; [exact Hreach |]. split; [reflexivity |]. split; [reflexivity |].
  split; [reflexivity |].
  split; [exact Hne |]. split; [reflexivity |]. split; [reflexivity |].
  split; [reflexivity |]. split; [exact Hts |].
  destruct (first_event_is_reference [1] default_traits (calculator default_traits) 1 index_1
              event_10 0%nat 3 10 0 Hreach eq_refl eq_refl eq_refl Hne eq_refl eq_refl eq_refl
              Hts)
    as (r & w & Hcall & _ & Ht0 & Hc0 & _ & _ & _ & Hq & _ & _ & Hr & _).
  exists r, w. split; [exact Hcall |]. split; [exact Ht0 |]. split; [exact Hc0 |].
  split; [exact Hq |]. rewrite Hr. vm_compute. reflexivity.
Defined.

Lemma tib_reference_only_never_jumps_witness :
  1 ∈ [1] /\
  ucts_t0_tib tib_referenced 1 = Some t_ref /\
  tib_counter0 tib_referenced 1 = Some 0 /\
  supplied (ucts_t0_dragon tib_referenced 1) (dragon_counter0 tib_referenced 1) = false /\
  reachable [1] tib_referenced (calculator tib_referenced) /\
  queues_at (calculator tib_referenced) 1 = ([], []) /\
  self (snd (call (calculator tib_referenced) 1 index_1 event_10)) = calculator tib_referenced /\
  lst (snd (call (calculator tib_referenced) 1 index_1 event_10)) = event_10.
Proof.
  assert (Hin : 1 ∈ [1]) by apply list_elem_of_here.
  assert (Hreach : reachable [1] tib_referenced (calculator tib_referenced)).
  { apply (reachable_init [1] tib_referenced (calculator tib_referenced) []). reflexivity. }
  split; [exact Hin |]. split; [reflexivity |]. split; [reflexivity |].
  split; [reflexivity |]. split; [exact Hreach |].
  destruct (tib_reference_only_never_jumps [1] tib_referenced 1 t_ref 0
              (calculator tib_referenced) Hin eq_refl eq_refl eq_refl Hreach)
    as ((_ & _ & Hq) & Hcalls).
  split; [exact Hq |].
  destruct (Hcalls index_1 event_10 _ _ (surjective_pairing _)) as (Hs & Hl & _).
  split; assumption.
Defined.

(** *** The sentinel time *)

Lemma select_timestamp_not_nan_time tel_id u d t w r w' :
  select_timestamp tel_id u d t w = (r, w') -> r <> inr NAN_TIME.
Proof.
  destruct w as [s l lg]. rewrite select_timestamp_spec.
  destruct (selected_time _ _ _ _) as [e | time] eqn:Hsel; intros [= <- <-]; [discriminate |].
  unfold selected_time, Time_of_unix_tai in Hsel.
  repeat case_match; simplify_eq; discriminate.
Qed.

(** X7. A call raises [IndexError] and changes nothing when the module
    table of the event lacks the configured module; and it returns
    [NAN_TIME] exactly when the module is there and bit 1 of the presence
    mask is clear: a call that goes on with the UCTS never returns the
    sentinel. *)
Theorem nan_time_only_without_ucts s tel_id index l :
  (index_of (dragon_module_id (trait s) tel_id) (module_ids (svc l)) = None ->
   call s tel_id index l = (inl IndexError, {| self := s; lst := l; log := [] |})) /\
  (fst (call s tel_id index l) = inr NAN_TIME <->
   is_Some (index_of (dragon_module_id (trait s) tel_id) (module_ids (svc l))) /\
   exists presence, extdevices_presence (evt l) = Some presence /\ Z.land presence 2 = 0).
Proof.
  split.
  { intros Hi. rewrite call_unfold, Hi. reflexivity. }
  split.
  - destruct (call s tel_id index l) as [r w] eqn:Hcall. cbn [fst]. intros ->.
    apply call_outcomes in Hcall.
    destruct Hcall as [_ [=] _ | i _ _ [=] _ | i presence Hi Hp Hu _ _
                       | i presence e _ _ _ _ [=] _ | i presence f rr w1 _ _ _ _ Href Hsteps].
    + split; [eexists; exact Hi | exists presence; split; assumption].
    + exfalso.
      destruct Hsteps as [e _ [=] _ | d t e _ _ [=] | d t ts' tt' u' w2 e _ _ _ [=]
                          | d t ts' tt' u' w2 u'' w3 _ _ _ Hsel].
      exact (select_timestamp_not_nan_time _ _ _ _ _ _ _ Hsel eq_refl).
  - intros [[i Hi] (presence & Hp & Hu)]. rewrite call_unfold, Hi, Hp, Hu. reflexivity.
Qed.

(** *** The references are written once *)

Lemma reference_step_kept tel_id i ts u tib w r w' :
  reference_step tel_id i ts u tib w = (r, w') ->
  _has_dragon_reference (self w) !! tel_id <> Some false \/
  _has_tib_reference (self w) !! tel_id <> Some false ->
  w' = w.
Proof.
  intros H Href.
  destruct (_has_dragon_reference (self w) !! tel_id) as [[|] |] eqn:Hd.
  - rewrite reference_step_with_reference in H by (left; exact Hd).
    apply (times_from_references_spec _ _ _ _ _ _ H).
  - destruct Href as [Href | Href]; [congruence |].
    destruct (_has_tib_reference (self w) !! tel_id) as [[|] |] eqn:Ht.
    + rewrite reference_step_with_reference in H by (right; split; assumption).
      apply (times_from_references_spec _ _ _ _ _ _ H).
    + congruence.
    + unfold reference_step, from_option, bind, get, ret, raise in H.
      cbn -[first_event_reference times_from_references] in H. rewrite Hd, Ht in H.
      injection H as _ <-. reflexivity.
  - unfold reference_step, from_option, bind, get, ret, raise in H.
    cbn -[first_event_reference times_from_references] in H. rewrite Hd in H.
    injection H as _ <-. reflexivity.
Qed.

Lemma steps_references s tel_id index l tib r w f rr w1 :
  steps_outcome s tel_id index l tib r w f rr w1 ->
  references_of (self w) = references_of (self w1).
Proof.
  intros [e _ _ -> | d t e _ Hq _ | d t ts' tt' u' w2 e _ Hq Hj _
          | d t ts' tt' u' w2 u'' w3 _ Hq Hj Hsel].
  - reflexivity.
  - apply (queue_step_frame _ _ _ _ _ _ _ Hq).
  - rewrite (proj1 (jump_step_frame _ _ _ _ _ _ _ _ _ _ Hj)).
    apply (queue_step_frame _ _ _ _ _ _ _ Hq).
  - destruct (select_timestamp_frame _ _ _ _ _ _ _ Hsel) as (-> & _).
    rewrite (proj1 (jump_step_frame _ _ _ _ _ _ _ _ _ _ Hj)).
    apply (queue_step_frame _ _ _ _ _ _ _ Hq).
Qed.

Lemma call_references_kept s tel_id index l r w :
  call s tel_id index l = (r, w) ->
  _has_dragon_reference s !! tel_id <> Some false \/
  _has_tib_reference s !! tel_id <> Some false ->
  references_of (self w) = references_of s.
Proof.
  intros Hcall Href. apply call_outcomes in Hcall.
  destruct Hcall as [_ _ -> | i _ _ _ -> | i presence _ _ _ _ -> | i presence e _ _ _ _ _ ->
                   | i presence f rr w1 _ _ _ _ Hstep Hsteps];
    try reflexivity.
  rewrite (steps_references _ _ _ _ _ _ _ _ _ _ Hsteps).
  rewrite (reference_step_kept _ _ _ _ _ _ _ _ Hstep Href). reflexivity.
Qed.

Lemma call_reference_at s tel_id index l r w tel :
  call s tel_id index l = (r, w) ->
  _has_dragon_reference s !! tel = Some true \/ _has_tib_reference s !! tel = Some true ->
  reference_at (self w) tel = reference_at s tel.
Proof.
  intros Hcall Href. destruct (decide (tel = tel_id)) as [-> | Hne].
  - assert (H : references_of (self w) = references_of s).
    { apply (call_references_kept _ _ _ _ _ _ Hcall).
      destruct Href as [Hd | Ht]; [left | right]; congruence. }
    unfold references_of in H. unfold reference_at.
    injection H as -> -> -> -> -> -> _ _. reflexivity.
  - pose proof (call_other_telescope _ _ _ _ _ _ _ Hcall Hne) as H.
    unfold state_at in H. unfold reference_at.
    injection H as -> -> -> -> -> -> _. reflexivity.
Qed.

(** X8. The references of a telescope that has the Dragon or the TIB
    reference are never written again: after any number of calls, for
    whatever telescopes, the two flags and the four reference values held
    for it are as they were. So a telescope whose first event came without
    the TIB never gets a TIB reference. *)
Theorem references_written_once s s' tel :
  later s s' ->
  _has_dragon_reference s !! tel = Some true \/ _has_tib_reference s !! tel = Some true ->
  reference_at s' tel = reference_at s tel.
Proof.
  intros Hlater Href. induction Hlater as [| s' tel_id index l r w Hlater IH Hcall];
    [reflexivity |].
  rewrite <- IH. apply (call_reference_at _ _ _ _ _ _ _ Hcall).
  unfold reference_at in IH. injection IH as -> -> _ _ _ _. exact Href.
Qed.

Lemma references_written_once_witness :
  later referenced after_event_10 /\
  _has_dragon_reference referenced !! 1 = Some true /\
  reference_at after_event_10 1
  = (Some true, Some false, Some (Some t_ref), Some (Some 0), Some None, Some None).
Proof.
  assert (Hlater : later referenced after_event_10).
  { rewrite <- after_event_10_reached.
    eapply later_call; [apply later_now | apply surjective_pairing]. }
  split; [exact Hlater |]. split; [reflexivity |].
  exact (eq_trans (references_written_once referenced after_event_10 1 Hlater
                     (or_introl eq_refl)) eq_refl).
Defined.

(** *** The depth of the queue and the fields of the event *)

Lemma jumps_app (lg lg' : list log_record) : jumps (lg ++ lg') = (jumps lg + jumps lg')%nat.
Proof.
  induction lg as [| [lv m] lg IH]; [reflexivity |].
  cbn [app jumps]. destruct lv, m; rewrite IH; reflexivity.
Qed.

Lemma jumps_none (lg : list log_record) :
  (forall rec, rec ∈ lg -> ~ is_jump_record rec) -> jumps lg = 0%nat.
Proof.
  induction lg as [| [lv m] lg IH]; intros Hno; [reflexivity |].
  assert (Hlg : jumps lg = 0%nat).
  { apply IH. intros rec Hrec. apply Hno, list_elem_of_further, Hrec. }
  destruct lv, m; cbn [jumps]; try exact Hlg.
  exfalso. apply (Hno _ (list_elem_of_here _ _)). eexists _, _, _. reflexivity.
Qed.

Lemma reference_step_jumps tel_id i ts u tib w r w' :
  reference_step tel_id i ts u tib w = (r, w') -> log w = [] -> jumps (log w') = 0%nat.
Proof.
  intros H Hlog. destruct (reference_step_frame _ _ _ _ _ _ _ _ H) as [(_ & _ & _ & _ & _ & _ & Hrec) _].
  apply jumps_none. intros rec Hin. destruct (Hrec rec Hin) as [Hin' | (a & b & [-> | ->])].
  - rewrite Hlog in Hin'. apply elem_of_nil in Hin'. destruct Hin'.
  - intros (? & ? & ? & [=]).
  - intros (? & ? & ? & [=]).
Qed.

Lemma queue_step_depth tel_id ts tt u w r w' :
  queue_step tel_id ts tt u w = (r, w') ->
  length (fst (queues_at (self w') tel_id)) = length (fst (queues_at (self w) tel_id)) /\
  length (snd (queues_at (self w') tel_id)) = length (snd (queues_at (self w) tel_id)) /\
  counters_of (lst w') = counters_of (lst w) /\
  (queues_at (self w) tel_id = ([], []) -> lst w' = lst w).
Proof.
  intros H. destruct (deque_of (previous_ucts_timestamps (self w)) tel_id) as [| t0 q] eqn:Hq.
  - rewrite queue_step_empty in H by exact Hq. injection H as _ <-. repeat split.
  - unfold queue_step in H. unfold_actions. rewrite Hq in H. destruct w as [s l lg].
    unfold queues_at. cbn [self lst fst snd] in *.
    run; cbn; rewrite ?deque_of_insert, ?Hq.
    all: repeat match goal with
                | H : context [deque_of (<[_ := _]> _) _] |- _ =>
                    rewrite ?deque_of_insert, ?Hq in H
                end.
    all: destruct (deque_of (previous_ucts_trigger_types s) tel_id); try discriminate.
    all: cbn [tail app length]; rewrite ?length_app; cbn [length].
    all: split; [lia |]; split; [lia |]; split; [reflexivity | discriminate].
Qed.

Lemma jump_step_depth tel_id index ts tt u d tib w r w' :
  jump_step tel_id index ts tt u d tib w = (r, w') ->
  let n := if gt (sub u d) lit_1e_6 then 1%nat else 0%nat in
  jumps (log w') = (jumps (log w) + n)%nat /\
  length (fst (queues_at (self w') tel_id)) = (length (fst (queues_at (self w) tel_id)) + n)%nat /\
  length (snd (queues_at (self w') tel_id)) = (length (snd (queues_at (self w) tel_id)) + n)%nat /\
  counters_of (lst w') = counters_of (lst w) /\
  (n = 0%nat -> lst w' = lst w).
Proof.
  destruct (gt (sub u d) lit_1e_6) eqn:Hgt; cbv zeta.
  - destruct w as [s l lg].
    destruct (jump_step_jump tel_id index ts tt u d tib s l lg Hgt)
      as (s' & Hrun & Hq & _ & _).
    rewrite Hrun. destruct (int_of_float _); intros [= <- <-]; cbn [self lst log];
      rewrite Hq, jumps_app; cbn [fst snd length].
    + cbn [jumps]. split; [reflexivity |]. split; [lia |]. split; [lia |].
      split; [reflexivity | discriminate].
    + split; [destruct (tib =? 0); cbn [jumps]; reflexivity |].
      split; [lia |]. split; [lia |]. split; [reflexivity | discriminate].
  - rewrite jump_step_quiet by exact Hgt. intros [= <- <-].
    rewrite !Nat.add_0_r. repeat split.
Qed.

Lemma select_timestamp_jumps tel_id u d t w r w' :
  select_timestamp tel_id u d t w = (r, w') ->
  self w' = self w /\ lst w' = lst w /\ jumps (log w') = jumps (log w).
Proof.
  intros H. destruct (select_timestamp_frame _ _ _ _ _ _ _ H) as (Hs & Hl & [-> | ->]).
  - repeat split; assumption.
  - rewrite jumps_app, Nat.add_0_r. repeat split; assumption.
Qed.

(** What a call does to the queue of its telescope and to the container. *)
Lemma call_depth s tel_id index l r w :
  call s tel_id index l = (r, w) ->
  length (fst (queues_at (self w) tel_id))
  = (length (fst (queues_at s tel_id)) + jumps (log w))%nat /\
  length (snd (queues_at (self w) tel_id))
  = (length (snd (queues_at s tel_id)) + jumps (log w))%nat /\
  (jumps (log w) <= 1)%nat /\
  counters_of (lst w) = counters_of l /\
  (queues_at s tel_id = ([], []) -> jumps (log w) = 0%nat -> lst w = l).
Proof.
  intros Hcall. apply call_outcomes in Hcall.
  destruct Hcall as [_ _ -> | i _ _ _ -> | i presence _ _ _ _ -> | i presence e _ _ _ _ _ ->
                   | i presence f rr w1 _ _ _ _ Href Hsteps];
    cbn [self lst log jumps]; rewrite ?Nat.add_0_r; try (repeat split; lia).
  destruct (reference_step_frame _ _ _ _ _ _ _ _ Href) as [(Hl & _ & Hts & Htt & _) _].
  pose proof (reference_step_jumps _ _ _ _ _ _ _ _ Href eq_refl) as Hj1.
  cbn [self lst log] in *.
  assert (Hq1 : queues_at (self w1) tel_id = queues_at s tel_id).
  { unfold queues_at. rewrite Hts, Htt. reflexivity. }
  assert (Hqueue : forall rq w2,
            queue_step tel_id (ucts_timestamp (evt l)) (ucts_trigger_type (evt (lst w1)))
              (mul f lit_1e_9) w1 = (rq, w2) ->
            length (fst (queues_at (self w2) tel_id)) = length (fst (queues_at s tel_id)) /\
            length (snd (queues_at (self w2) tel_id)) = length (snd (queues_at s tel_id)) /\
            jumps (log w2) = 0%nat /\
            counters_of (lst w2) = counters_of l /\
            (queues_at s tel_id = ([], []) -> lst w2 = l)).
  { intros rq w2 Hq. destruct (queue_step_depth _ _ _ _ _ _ _ Hq) as (H1 & H2 & H3 & H4).
    destruct (queue_step_frame _ _ _ _ _ _ _ Hq) as (_ & Hlg & _).
    rewrite Hq1, Hl in *. rewrite Hlg. repeat split; assumption. }
  assert (Hjump : forall d ts' tt' u' w2 rj w3,
            length (fst (queues_at (self w2) tel_id)) = length (fst (queues_at s tel_id)) /\
            length (snd (queues_at (self w2) tel_id)) = length (snd (queues_at s tel_id)) /\
            jumps (log w2) = 0%nat /\
            counters_of (lst w2) = counters_of l /\
            (queues_at s tel_id = ([], []) -> lst w2 = l) ->
            jump_step tel_id index ts' tt' u' d (Z.land presence 1) w2
            = (rj, w3) ->
            length (fst (queues_at (self w3) tel_id))
            = (length (fst (queues_at s tel_id)) + jumps (log w3))%nat /\
            length (snd (queues_at (self w3) tel_id))
            = (length (snd (queues_at s tel_id)) + jumps (log w3))%nat /\
            (jumps (log w3) <= 1)%nat /\
            counters_of (lst w3) = counters_of l /\
            (queues_at s tel_id = ([], []) -> jumps (log w3) = 0%nat -> lst w3 = l)).
  { intros d ts' tt' u' w2 rj w3 (H1 & H2 & H3 & H4 & H5) Hj.
    destruct (jump_step_depth _ _ _ _ _ _ _ _ _ _ Hj) as (G1 & G2 & G3 & G4 & G5).
    rewrite H3 in G1. cbn [Nat.add] in G1. rewrite G1, G2, G3, G4, H1, H2.
    split; [reflexivity |]. split; [reflexivity |].
    split; [destruct (gt _ _); lia |]. split; [exact H4 |].
    intros Hq0 Hn. rewrite (G5 Hn). apply H5, Hq0. }
  destruct Hsteps as [e _ _ -> | d t e _ Hq _ | d t ts' tt' u' w2 e _ Hq Hj _
                      | d t ts' tt' u' w2 u'' w3 _ Hq Hj Hsel].
  - rewrite Hq1, Hj1, Hl, !Nat.add_0_r. repeat split; lia.
  - destruct (Hqueue _ _ Hq) as (H1 & H2 & H3 & H4 & H5).
    rewrite H1, H2, H3, !Nat.add_0_r. repeat split; try lia; auto.
  - exact (Hjump _ _ _ _ _ _ _ (Hqueue _ _ Hq) Hj).
  - destruct (select_timestamp_jumps _ _ _ _ _ _ _ Hsel) as (-> & -> & ->).
    exact (Hjump _ _ _ _ _ _ _ (Hqueue _ _ Hq) Hj).
Qed.

(** X9. A call logs at most one jump and makes both deques of its
    telescope longer by the number of jumps it logs; the deques of the
    other telescopes are as before. So the queue of a telescope never gets
    shorter. *)
Theorem queue_depth_counts_jumps s tel_id index l r w :
  call s tel_id index l = (r, w) ->
  (jumps (log w) <= 1)%nat /\
  length (fst (queues_at (self w) tel_id))
  = (length (fst (queues_at s tel_id)) + jumps (log w))%nat /\
  length (snd (queues_at (self w) tel_id))
  = (length (snd (queues_at s tel_id)) + jumps (log w))%nat /\
  forall tel, tel <> tel_id -> queues_at (self w) tel = queues_at s tel.
Proof.
  intros Hcall. destruct (call_depth _ _ _ _ _ _ Hcall) as (H1 & H2 & H3 & _).
  split; [exact H3 |]. split; [exact H1 |]. split; [exact H2 |].
  intros tel Hne.
  apply (state_at_queues _ _ _ (call_other_telescope _ _ _ _ _ _ _ Hcall Hne)).
Qed.

Lemma queue_depth_counts_jumps_witness :
  exists r w,
    call referenced 1 index_1 event_10 = (r, w) /\
    jumps (log w) = 1%nat /\
    queues_at referenced 1 = ([], []) /\
    length (fst (queues_at (self w) 1)) = 1%nat.
Proof.
  eexists _, _. split; [apply surjective_pairing |].
  split; [vm_compute; reflexivity |]. split; [reflexivity |].
  exact (eq_trans (proj1 (proj2 (queue_depth_counts_jumps referenced 1 index_1 event_10 _ _
                                   (surjective_pairing _))))
                  ltac:(vm_compute; reflexivity)).
Defined.

(** X10. Of the container of the event a call writes [ucts_timestamp] and
    [ucts_trigger_type] only; and when the queue of the telescope is empty
    and the call logs no jump, the container is left as it was. *)
Theorem call_writes_ucts_fields_only s tel_id index l r w :
  call s tel_id index l = (r, w) ->
  counters_of (lst w) = counters_of l /\
  (queues_at s tel_id = ([], []) -> jumps (log w) = 0%nat -> lst w = l).
Proof.
  intros Hcall. destruct (call_depth _ _ _ _ _ _ Hcall) as (_ & _ & _ & H4 & H5).
  split; assumption.
Qed.

Lemma call_writes_ucts_fields_only_witness :
  exists r w,
    call after_event_10 1 index_2 event_11 = (r, w) /\
    lst w <> event_11 /\
    counters_of (lst w) = counters_of event_11.
Proof.
  eexists _, _. split; [apply surjective_pairing |].
  split; [vm_compute; discriminate |].
  exact (proj1 (call_writes_ucts_fields_only after_event_10 1 index_2 event_11 _ _
                  (surjective_pairing _))).
Defined.

(** *** The times from the references *)

Lemma float_of_int_round (n : Z) (f : float) : float_of_int n = inr f -> f = round_int n.
Proof.
  unfold float_of_int. destruct (_ <? _); [intros [= <-]; reflexivity | discriminate].
Qed.

Lemma times_from_references_values tel_id i tib w d t w' :
  times_from_references tel_id i tib w = (inr (d, t), w') ->
  (_has_dragon_reference (self w) !! tel_id = Some true ->
   forall t0 c0,
     _ucts_t0_dragon (self w) !! tel_id = Some (Some t0) ->
     _dragon_counter0 (self w) !! tel_id = Some (Some c0) ->
     exists pps tenMHz,
       item (pps_counter (evt (lst w))) i = inr pps /\
       item (tenMHz_counter (evt (lst w))) i = inr tenMHz /\
       d = add (add (mul lit_1e_9 (round_int (t0 - c0))) (round_int pps))
             (mul (round_int tenMHz) lit_1e_7)) /\
  (_has_tib_reference (self w) !! tel_id = Some true ->
   forall t0 c0,
     _ucts_t0_tib (self w) !! tel_id = Some (Some t0) ->
     _tib_counter0 (self w) !! tel_id = Some (Some c0) ->
     t = if tib =? 0 then nan
         else add (add (mul lit_1e_9 (round_int (t0 - c0)))
                     (round_int (tib_pps_counter (evt (lst w)))))
                (mul (round_int (tib_tenMHz_counter (evt (lst w)))) lit_1e_7)).
Proof.
  intros H. unfold times_from_references, reference_of, calc_dragon_time, calc_tib_time in H.
  unfold_actions. destruct w as [s l lg]. cbn [self lst] in *.
  split.
  - intros Hd t0 c0 Ht0 Hc0. rewrite Hd, Ht0, Hc0 in H.
    run.
    all: eexists _, _; split; [reflexivity |]; split; [reflexivity |].
    all: repeat match goal with
                | H : float_of_int _ = inr _ |- _ => apply float_of_int_round in H; subst
                end.
    all: reflexivity.
  - intros Ht t0 c0 Ht0 Hc0. rewrite Ht, Ht0, Hc0 in H.
    destruct (tib =? 0); run.
    all: repeat match goal with
                | H : float_of_int _ = inr _ |- _ => apply float_of_int_round in H; subst
                end.
    all: reflexivity.
Qed.

Lemma references_of_trait s1 s2 : references_of s2 = references_of s1 -> trait s2 = trait s1.
Proof. unfold references_of. intros H. injection H as _ _ _ _ _ _ -> _. reflexivity. Qed.

(** The time a call returns for an event with the UCTS: one of the three
    times, as the telescope is configured. *)
Lemma call_returned_time s tel_id index l presence time w :
  extdevices_presence (evt l) = Some presence ->
  Z.land presence 2 <> 0 ->
  call s tel_id index l = (inr time, w) ->
  exists i f d t w1 u,
    index_of (dragon_module_id (trait s) tel_id) (module_ids (svc l)) = Some i /\
    float_of_int (ucts_timestamp (evt l)) = inr f /\
    reference_step tel_id i (ucts_timestamp (evt l)) (mul f lit_1e_9)
      (Z.land presence 1) {| self := s; lst := l; log := [] |}
    = (inr (d, t), w1) /\
    time = if String.eqb (timestamp (trait s) tel_id) "ucts" then Time_unix_tai u
           else if String.eqb (timestamp (trait s) tel_id) "dragon" then Time_unix_tai d
           else Time_unix_tai t.
Proof.
  intros Hp Hu Hcall. apply call_outcomes in Hcall.
  destruct Hcall as [_ [=] _ | i _ _ [=] _ | i presence' _ Hp' Hu' _ _
                     | i presence' e _ _ _ _ [=] _ | i presence' f rr w1 Hi Hp' _ Hf Href Hsteps];
    rewrite Hp in Hp'; injection Hp' as <-; [contradiction |].
  destruct Hsteps as [e _ [=] _ | d t e _ _ [=] | d t ts' tt' u' w2 e _ _ _ [=]
                      | d t ts' tt' u' w2 u'' w3 -> Hq Hj Hsel].
  exists i, f, d, t, w1, u''. split; [exact Hi |]. split; [exact Hf |]. split; [exact Href |].
  assert (Htrait : trait (self w3) = trait s).
  { rewrite (references_of_trait _ _ (proj1 (jump_step_frame _ _ _ _ _ _ _ _ _ _ Hj))).
    rewrite (references_of_trait _ _ (proj1 (queue_step_frame _ _ _ _ _ _ _ Hq))).
    apply (reference_step_frame _ _ _ _ _ _ _ _ Href). }
  destruct w3 as [s3 l3 lg3]. cbn [self] in Htrait.
  rewrite select_timestamp_spec, Htrait in Hsel.
  destruct (selected_time _ _ _ _) as [e | time'] eqn:Htime; [discriminate |].
  injection Hsel as -> _. unfold selected_time in Htime.
  destruct (String.eqb (timestamp (trait s) tel_id) "ucts");
    [apply Time_of_unix_tai_returned in Htime as [-> _]; reflexivity |].
  destruct (String.eqb (timestamp (trait s) tel_id) "dragon");
    [apply Time_of_unix_tai_returned in Htime as [-> _]; reflexivity |].
  destruct (String.eqb (timestamp (trait s) tel_id) "tib");
    [apply Time_of_unix_tai_returned in Htime as [-> _]; reflexivity | discriminate].
Qed.

(** X11. With the Dragon clock selected and the Dragon reference
    [(t0, c0)] held, a call that returns for an event with the UCTS returns
    [1e-9 * (t0 - c0) + pps_counter + tenMHz_counter * 1e-7] for the counters
    of the configured module, in binary64 arithmetic, whatever the UCTS
    sample and the queue are. *)
Theorem dragon_time_of_event s tel_id index l presence time w t0 c0 :
  _has_dragon_reference s !! tel_id = Some true ->
  _ucts_t0_dragon s !! tel_id = Some (Some t0) ->
  _dragon_counter0 s !! tel_id = Some (Some c0) ->
  timestamp (trait s) tel_id = "dragon" ->
  extdevices_presence (evt l) = Some presence ->
  Z.land presence 2 <> 0 ->
  call s tel_id index l = (inr time, w) ->
  exists i pps tenMHz,
    index_of (dragon_module_id (trait s) tel_id) (module_ids (svc l)) = Some i /\
    item (pps_counter (evt l)) i = inr pps /\
    item (tenMHz_counter (evt l)) i = inr tenMHz /\
    time = Time_unix_tai
             (add (add (mul lit_1e_9 (round_int (t0 - c0))) (round_int pps))
                (mul (round_int tenMHz) lit_1e_7)).
Proof.
  intros Hd Ht0 Hc0 Hsel Hp Hu Hcall.
  destruct (call_returned_time _ _ _ _ _ _ _ Hp Hu Hcall)
    as (i & f & d & t & w1 & u & Hi & _ & Href & ->).
  rewrite reference_step_with_reference in Href by (left; exact Hd).
  destruct (proj1 (times_from_references_values _ _ _ _ _ _ _ Href) Hd t0 c0 Ht0 Hc0)
    as (pps & tenMHz & Hpps & Hten & ->).
  exists i, pps, tenMHz. rewrite Hsel. repeat split; assumption.
Qed.

(** X12. With the TIB clock selected and the TIB reference [(t0, c0)]
    held, a call that returns for an event with the UCTS and the TIB (bits
    1 and 0 of the presence mask) returns
    [1e-9 * (t0 - c0) + tib_pps_counter + tib_tenMHz_counter * 1e-7], in
    binary64 arithmetic. *)
Theorem tib_time_of_event s tel_id index l presence time w t0 c0 :
  _has_tib_reference s !! tel_id = Some true ->
  _ucts_t0_tib s !! tel_id = Some (Some t0) ->
  _tib_counter0 s !! tel_id = Some (Some c0) ->
  timestamp (trait s) tel_id = "tib" ->
  extdevices_presence (evt l) = Some presence ->
  Z.land presence 2 <> 0 ->
  Z.land presence 1 <> 0 ->
  call s tel_id index l = (inr time, w) ->
  time = Time_unix_tai
           (add (add (mul lit_1e_9 (round_int (t0 - c0)))
                   (round_int (tib_pps_counter (evt l))))
              (mul (round_int (tib_tenMHz_counter (evt l))) lit_1e_7)).
Proof.
  intros Ht Ht0 Hc0 Hsel Hp Hu Htib Hcall.
  destruct (call_returned_time _ _ _ _ _ _ _ Hp Hu Hcall)
    as (i & f & d & t & w1 & u & Hi & _ & Href & ->).
  rewrite Hsel. cbn [String.eqb Ascii.eqb Bool.eqb].
  assert (Hbit : (Z.land presence 1 =? 0) = false) by (apply Z.eqb_neq; exact Htib).
  destruct (_has_dragon_reference s !! tel_id) as [[|] |] eqn:Hd.
  - rewrite reference_step_with_reference in Href by (left; exact Hd).
    rewrite (proj2 (times_from_references_values _ _ _ _ _ _ _ Href) Ht t0 c0 Ht0 Hc0).
    cbn [self lst]. rewrite Hbit. reflexivity.
  - rewrite reference_step_with_reference in Href by (right; split; assumption).
    rewrite (proj2 (times_from_references_values _ _ _ _ _ _ _ Href) Ht t0 c0 Ht0 Hc0).
    cbn [self lst]. rewrite Hbit. reflexivity.
  - unfold reference_step, from_option, bind, get, ret, raise in Href.
    cbn -[first_event_reference times_from_references] in Href. rewrite Hd in Href.
    discriminate.
Qed.

Lemma dragon_time_of_event_witness :
  exists time w,
    _has_dragon_reference dragon_selected !! 1 = Some true /\
    _ucts_t0_dragon dragon_selected !! 1 = Some (Some t_ref) /\
    _dragon_counter0 dragon_selected !! 1 = Some (Some 0) /\
    timestamp (trait dragon_selected) 1 = "dragon" /\
    extdevices_presence (evt event_10) = Some 3 /\
    Z.land 3 2 <> 0 /\
    call dragon_selected 1 index_1 event_10 = (inr time, w) /\
    time = Time_unix_tai
             (add (add (mul lit_1e_9 (round_int (t_ref - 0))) (round_int 10))
                (mul (round_int 0) lit_1e_7)).
Proof.
  assert (Hne : Z.land 3 2 <> 0) by discriminate.
  eexists _, _.
  split; [reflexivity |]. split; [reflexivity |]. split; [reflexivity |].
  split; [reflexivity |]. split; [reflexivity |]. split; [exact Hne |].
  split; [vm_compute; reflexivity |].
  destruct (dragon_time_of_event dragon_selected 1 index_1 event_10 3 _ _ t_ref 0
              eq_refl eq_refl eq_refl eq_refl eq_refl Hne ltac:(vm_compute; reflexivity))
    as (i & pps & tenMHz & Hi & Hpps & Hten & Htime).
  vm_compute in Hi. injection Hi as <-.
  vm_compute in Hpps. injection Hpps as <-.
  vm_compute in Hten. injection Hten as <-.
  exact Htime.
Defined.

Lemma tib_time_of_event_witness :
  exists time w,
    _has_tib_reference tib_selected !! 1 = Some true /\
    _ucts_t0_tib tib_selected !! 1 = Some (Some t_ref) /\
    _tib_counter0 tib_selected !! 1 = Some (Some 0) /\
    timestamp (trait tib_selected) 1 = "tib" /\
    extdevices_presence (evt event_10) = Some 3 /\
    Z.land 3 2 <> 0 /\
    Z.land 3 1 <> 0 /\
    call tib_selected 1 index_1 event_10 = (inr time, w) /\
    time = Time_unix_tai
             (add (add (mul lit_1e_9 (round_int (t_ref - 0))) (round_int 10))
                (mul (round_int 0) lit_1e_7)).
Proof.
  assert (Hne : Z.land 3 2 <> 0) by discriminate.
  assert (Htib : Z.land 3 1 <> 0) by discriminate.
  eexists _, _.
  split; [reflexivity |]. split; [reflexivity |]. split; [reflexivity |].
  split; [reflexivity |]. split; [reflexivity |]. split; [exact Hne |].
  split; [exact Htib |].
  split; [vm_compute; reflexivity |].
  exact (tib_time_of_event tib_selected 1 index_1 event_10 3 _ _ t_ref 0
           eq_refl eq_refl eq_refl eq_refl eq_refl Hne Htib ltac:(vm_compute; reflexivity)).
Defined.

(** *** The references stay in order *)

Lemma init_tel_well_referenced tel_id s lg :
  exists s',
    init_tel tel_id (s, lg) = (inr tt, (s', lg)) /\
    trait s' = trait s /\
    forall tel, tel = tel_id \/ well_referenced s tel -> well_referenced s' tel.
Proof.
  unfold init_tel, TelescopeParameter_eq_str, init_update, init_log.
  unfold when, bind, ret, raise, get, modify. cbn.
  destruct (ucts_t0_dragon (trait s) tel_id) as [a |] eqn:Ha;
    destruct (dragon_counter0 (trait s) tel_id) as [b |] eqn:Hb; cbn.
  all: rewrite bool_decide_eq_false_2 by apply insert_non_empty; cbn.
  all: eexists; split; [reflexivity |]; split; [reflexivity |].
  all: intros tel Htel; unfold well_referenced; cbn.
  all: destruct (decide (tel = tel_id)) as [-> | Hne];
    [ rewrite !lookup_insert_eq;
      destruct (ucts_t0_tib (trait s) tel_id), (tib_counter0 (trait s) tel_id); cbn;
      split; eexists; (split; [reflexivity |]);
      first [discriminate | intros _; eexists _, _; split; reflexivity]
    | destruct Htel as [? | Hw]; [contradiction |];
      rewrite !lookup_insert_ne by congruence; exact Hw ].
Qed.

Lemma for_each_init_tel_well_referenced tels s0 lg :
  exists s,
    for_each init_tel tels (s0, lg) = (inr tt, (s, lg)) /\
    forall tel, tel ∈ tels \/ well_referenced s0 tel -> well_referenced s tel.
Proof.
  revert s0. induction tels as [| tel_id tels IH]; intros s0.
  - exists s0. split; [reflexivity |]. intros tel [Hin | Hw]; [| exact Hw].
    apply elem_of_nil in Hin. destruct Hin.
  - destruct (init_tel_well_referenced tel_id s0 lg) as (s1 & Hrun & _ & Hw1).
    destruct (IH s1) as (s & Hloop & Hw).
    exists s. split.
    { cbn [for_each]. rewrite (bind_returned _ _ _ _ _ Hrun). exact Hloop. }
    intros tel [Hin | Hw0].
    + apply elem_of_cons in Hin as [-> | Hin].
      * apply Hw. right. apply Hw1. left. reflexivity.
      * apply Hw. left. exact Hin.
    + apply Hw. right. apply Hw1. right. exact Hw0.
Qed.

Lemma call_well_referenced s tel_id index l r w tel :
  well_referenced s tel -> call s tel_id index l = (r, w) -> well_referenced (self w) tel.
Proof.
  intros Hwell Hcall. destruct (decide (tel = tel_id)) as [-> | Hne].
  - pose proof Hwell as [(bd & Hd & _) (bt & Ht & _)].
    assert (Hkept : references_of (self w) = references_of s -> well_referenced (self w) tel_id).
    { intros H. unfold references_of in H. unfold well_referenced.
      injection H as -> -> -> -> -> -> _ _. exact Hwell. }
    destruct bd; [apply Hkept, (call_references_kept _ _ _ _ _ _ Hcall); left; congruence |].
    destruct bt; [apply Hkept, (call_references_kept _ _ _ _ _ _ Hcall); right; congruence |].
    apply call_outcomes in Hcall.
    destruct Hcall as [_ _ -> | i _ _ _ -> | i presence _ _ _ _ -> | i presence e _ _ _ _ _ ->
                   | i presence f rr w1 _ _ _ _ Href Hsteps];
      try exact Hwell.
    assert (Hsame : references_of (self w) = references_of (self w1))
      by exact (steps_references _ _ _ _ _ _ _ _ _ _ Hsteps).
    assert (Hw1 : well_referenced (self w1) tel_id).
    { rewrite reference_step_no_reference in Href by assumption.
      destruct (item (pps_counter (evt l)) i) as [e1 | pps] eqn:Hpps;
        [| destruct (item (tenMHz_counter (evt l)) i) as [e2 | tenMHz] eqn:Hten];
        [rewrite (first_event_reference_raises _ _ _ _ _ _ e1) in Href by (left; exact Hpps);
         injection Href as _ <-; exact Hwell
        | rewrite (first_event_reference_raises _ _ _ _ _ _ e2) in Href
            by (right; split; [exists pps; exact Hpps | exact Hten]);
          injection Href as _ <-; exact Hwell
        |].
      - destruct (first_event_reference_spec tel_id i (ucts_timestamp (evt l)) (mul f lit_1e_9)
                    (Z.land presence 1) s l [] pps tenMHz Hpps Hten)
          as (s' & Hrun & Hhd & Ht0 & Hc0 & Hht & Htt0 & Htc0 & _).
        rewrite Hrun in Href. injection Href as _ <-. cbn [self].
        unfold well_referenced. rewrite Hhd, Ht0, Hc0, Hht, Htt0, Htc0.
        split.
        + exists true. rewrite !lookup_insert_eq. split; [reflexivity |].
          intros _. eexists _, _. split; reflexivity.
        + destruct (_ =? 0).
          * exists false. split; [exact Ht | discriminate].
          * exists true. rewrite !lookup_insert_eq. split; [reflexivity |].
            intros _. eexists _, _. split; reflexivity. }
    unfold references_of in Hsame. unfold well_referenced in *.
    injection Hsame as -> -> -> -> -> -> _ _. exact Hw1.
  - pose proof (call_other_telescope _ _ _ _ _ _ _ Hcall Hne) as H.
    unfold state_at in H. unfold well_referenced in *.
    injection H as -> -> -> -> -> -> _. exact Hwell.
Qed.

(** X14. In every calculator the program can reach, the references of a
    telescope of the subarray are in order: both flags are in their
    dictionaries, and a reference that is flagged as held has both of its
    values. *)
Theorem references_stay_in_order tels t s tel :
  reachable tels t s -> tel ∈ tels -> well_referenced s tel.
Proof.
  intros Hreach Hin. induction Hreach as [s lg Hinit | s tel_id index l r w Hs IH Hcall].
  - unfold __init__ in Hinit.
    destruct (for_each_init_tel_well_referenced tels (blank tels t) []) as (s' & Hrun & Hw).
    rewrite Hrun in Hinit. injection Hinit as <- _. apply Hw. left. exact Hin.
  - exact (call_well_referenced _ _ _ _ _ _ _ IH Hcall).
Qed.

Lemma references_stay_in_order_witness :
  reachable [1] (with_references "ucts" (Some (t_ref, 0)) None true) after_event_10 /\
  1 ∈ [1] /\
  _has_dragon_reference after_event_10 !! 1 = Some true /\
  well_referenced after_event_10 1.
Proof.
  assert (Hreach : reachable [1] (with_references "ucts" (Some (t_ref, 0)) None true)
                     after_event_10).
  { rewrite <- after_event_10_reached.
    eapply reachable_call; [| apply surjective_pairing].
    apply (reachable_init [1] _ referenced []). reflexivity. }
  assert (Hin : 1 ∈ [1]) by apply list_elem_of_here.
  split; [exact Hreach |]. split; [exact Hin |]. split; [reflexivity |].
  exact (references_stay_in_order [1] _ after_event_10 1 Hreach Hin).
Defined.

End EventTimeSpec.
